(** * Buhlmann ZH-L16C dive-profile engine: a shallow embedding of
      [src/src/jabai/profile.py] and the properties checked against it.

    Number model.  Python [int] is [Z].  Python [float] is modelled by exact
    arithmetic: every quantity the code obtains with [+ - * /], comparisons
    and [round] is a rational ([Q], executable), and the quantities that go
    through [math.log], [numpy.exp] or [pow] with a fractional exponent are
    real numbers ([R]); a rational enters a real formula through [Q2R].
    Rounding error of IEEE doubles, infinities and NaN are outside this
    model.  Where Python raises on a float operation ([x / 0.0],
    [math.log(0)]) the model raises the same exception explicitly, because
    [Q] and [R] give a division by zero a value.

    One question is about the float arithmetic itself: whether the divisor
    of the gradient-factor slope is zero.  For it the lines that compute the
    divisor are given a second time on binary64 numbers, the primitive
    floats of the Standard Library, whose operations are those of the
    processor and are specified bit by bit in [SpecFloat]. *)

From Stdlib Require Import Floats.
From Stdlib Require Import ZArith QArith Qabs Qround Qreals Reals Lqa Lra Lia.
From Stdlib Require Import List String Bool.
Import ListNotations.

Local Open Scope Q_scope.
Set Warnings "-register-all".
Set Warnings "-inexact-float".

(** ** Exceptions and fallible computations *)

(** The exceptions the engine can raise.  [OutOfFuel] is not a Python
    exception: it marks a [while] loop of the source that the model stopped
    unrolling, that is, a run on which the model does not say what the code
    returns. *)
Inductive exn : Type :=
| IncorrectTimeUnit
| InterpolationError
| IndexError
| ZeroDivisionError
| ValueError
| AttributeError
| OutOfFuel.

Inductive result (A : Type) : Type :=
| Ok (a : A)
| Raise (e : exn).

Arguments Ok {A} a.
Arguments Raise {A} e.

Definition bind {A B : Type} (m : result A) (k : A -> result B) : result B :=
  match m with
  | Ok a => k a
  | Raise e => Raise e
  end.

Notation "x <- m ;; k" := (bind m (fun x => k))
  (at level 61, m at next level, right associativity).

(** [a < b] on rationals, as a boolean. *)
Definition Qlt_bool (a b : Q) : bool := negb (Qle_bool b a).

(** The two-argument [max] and [min] of Python. *)
Definition pymax (a b : Q) : Q := if Qlt_bool a b then b else a.
Definition pymin (a b : Q) : Q := if Qlt_bool b a then b else a.

(** [a / b] on Python floats. *)
Definition pydiv (a b : Q) : result Q :=
  if Qeq_bool b 0 then Raise ZeroDivisionError else Ok (a / b).

(** [math.log(x)]: a domain error at zero (and below). *)
Definition pylog (x : Q) : result R :=
  if Qle_bool x 0 then Raise ValueError else Ok (ln (Q2R x)).

(** [pow(x, y)] for a base [x >= 0] and an exponent [y <> 0]; the engine
    calls it on no other arguments that reach this function ([pow(0., y)]
    with [y < 0] is excluded by the division that computes the base). *)
Definition pypow (x y : Q) : R :=
  if Qeq_bool x 0 then 0%R else Rpower (Q2R x) (Q2R y).

(** [xs[i]] for a non-negative index. *)
Definition getitem {A : Type} (xs : list A) (i : nat) : result A :=
  match nth_error xs i with
  | Some x => Ok x
  | None => Raise IndexError
  end.

(** [xs[-1]]. *)
Definition last_item {A : Type} (xs : list A) : result A :=
  match rev xs with
  | x :: _ => Ok x
  | [] => Raise IndexError
  end.

(** [xs[i] = v] for a non-negative index: Python raises out of range. *)
Fixpoint setitem {A : Type} (xs : list A) (i : nat) (v : A) : result (list A) :=
  match xs, i with
  | [], _ => Raise IndexError
  | _ :: xs', O => Ok (v :: xs')
  | x :: xs', S i' => ys <- setitem xs' i' v ;; Ok (x :: ys)
  end.

(** ** Rounding *)

(** [round(x)] to an integer, ties to the even neighbour. *)
Definition round_half_even (x : Q) : Z :=
  let f := Qfloor x in
  match Qcompare (x - inject_Z f) (1 # 2) with
  | Lt => f
  | Gt => (f + 1)%Z
  | Eq => if Z.even f then f else (f + 1)%Z
  end.

(** [round(x, 1)]. *)
Definition round1 (x : Q) : Q := Qred (inject_Z (round_half_even (x * 10)) / 10).

(** [math.ceil] on a real, by the integer part [up]. *)
Definition Rceil (x : R) : Z := (- (up (- x) - 1))%Z.

(** ** Coefficients for Buhlmann ZH-L16C *)

Module ZH_L16.
Definition N2_ht : list Q :=
    [5.0; 8.0; 12.5; 18.5; 27.0; 38.3; 54.3; 77.0; 109.0; 146.0; 187.0; 239.0;
     305.0; 390.0; 498.0; 635.0].
Definition N2_a : list Q :=
    [1.1696; 1.0000; 0.8618; 0.7562; 0.6200; 0.5043; 0.4410; 0.4000; 0.3750;
     0.3500; 0.3295; 0.3065; 0.2835; 0.2610; 0.2480; 0.2327].
Definition N2_b : list Q :=
    [0.5578; 0.6514; 0.7222; 0.7825; 0.8126; 0.8434; 0.8693; 0.8910; 0.9092;
     0.9222; 0.9319; 0.9403; 0.9477; 0.9544; 0.9602; 0.9653].
Definition He_ht : list Q :=
    [1.88; 3.02; 4.72; 6.99; 10.21; 14.48; 20.53; 29.11; 41.20; 55.19; 70.69;
     90.34; 115.29; 147.42; 188.24; 240.03].
Definition He_a : list Q :=
    [1.6189; 1.3830; 1.1919; 1.0458; 0.9220; 0.8205; 0.7305; 0.6502; 0.5950;
     0.5545; 0.5333; 0.5189; 0.5181; 0.5176; 0.5172; 0.5119].
Definition He_b : list Q :=
    [0.4770; 0.5747; 0.6527; 0.7223; 0.7582; 0.7957; 0.8279; 0.8553; 0.8757;
     0.8903; 0.8997; 0.9073; 0.9122; 0.9171; 0.9217; 0.9267].
End ZH_L16.

(** NOAA table for the CNS calculation: [(lo, hi) : (m, b)], in the order the
    dictionary literal lists them, which is the order the code iterates in. *)
Definition noaa_cns_equations : list ((Q * Q) * (Q * Q)) :=
  [ ((0.5, 0.6), (-1800, 1800)); ((0.6, 0.7), (-1500, 1620));
    ((0.7, 0.8), (-1200, 1410)); ((0.8, 0.9), (-900, 1170));
    ((0.9, 1.1), (-600, 900));   ((1.1, 1.5), (-300, 570));
    ((1.5, 1.6), (-750, 1245)) ].

(** Water vapour pressure. *)
Definition pw : Q := 0.0567.

(** ** Time *)

Record Time : Type := mkTime {
  _unit : string;
  _minutes : Q;
  _seconds : Z
}.

(** [Time(time)] and [Time(time, 'm')]: minutes given, seconds rounded. *)
Definition Time_m (time : Q) : Time :=
  mkTime "m" time (round_half_even (time * 60)).

(** [Time(time, 's')]: the engine only ever passes an [int] here.  Any other
    unit tag raises [IncorrectTimeUnit]; the engine passes none. *)
Definition Time_s (time : Z) : Time :=
  mkTime "s" (inject_Z time / 60) time.

(** ** Gas mixtures and tanks *)

Record Gas : Type := mkGas {
  _O2 : Z;
  _He : Z;
  _N2 : Z
}.

Definition Gas_init (o2 he : Z) : Gas := mkGas o2 he (100 - o2 - he)%Z.

Definition Air : Gas := Gas_init 21 0.

Definition Gas_ppO2 (g : Gas) (depth : Q) : Q :=
  let pabs := (depth / 10) + 1 in
  pabs * inject_Z (_O2 g) / 100.

Definition Gas_ppN2 (g : Gas) (depth : Q) : Q :=
  let pabs := (depth / 10) + 1 in
  pabs * inject_Z (_N2 g) / 100.

Definition Gas_ppHe (g : Gas) (depth : Q) : Q :=
  let pabs := (depth / 10) + 1 in
  pabs * inject_Z (_He g) / 100.

(** [Gas.mod]: [pp_o2 / (O2 / 100)] divides by zero for an oxygen-free mix. *)
Definition Gas_mod (g : Gas) (pp_o2 : Q) : result Q :=
  q <- pydiv pp_o2 (inject_Z (_O2 g) / 100) ;;
  Ok (10 * (q - 1)).

Definition Gas_fO2 (g : Gas) : Q := inject_Z (_O2 g) / 100.
Definition Gas_fN2 (g : Gas) : Q := inject_Z (_N2 g) / 100.
Definition Gas_fHe (g : Gas) : Q := inject_Z (_He g) / 100.

Record Tank : Type := mkTank {
  _gas : Gas;
  start_pressure : Q;
  _size : Q
}.

(** [Tank(start_pressure=200, gas=Gas(), size=15)]. *)
Definition Tank_default : Tank := mkTank Air 200 15.

(** ** Waypoints *)

Record Waypoint : Type := mkWaypoint {
  depth : Q;
  duration : Time;
  runtime : Time;
  tank : nat
}.

(** The [duration] and [runtime] arguments of [Waypoint.__init__]. *)
Inductive time_arg : Type :=
| ArgNone
| ArgTime (t : Time)
| ArgFloat (q : Q).

Definition time_of_arg (a : time_arg) : Time :=
  match a with
  | ArgNone => Time_m 0
  | ArgTime t => t
  | ArgFloat q => Time_m q
  end.

Definition Waypoint_init (d : Q) (dur rt : time_arg) (tk : nat) : Waypoint :=
  mkWaypoint d (time_of_arg dur) (time_of_arg rt) tk.

(** ** Configuration *)

Record Parameters : Type := mkParameters {
  last_stop_depth : Q;
  stop_depth_incr : Q;
  safety_stop_depth : Q;
  safety_stop_duration : Q;
  v_asc : Q;
  v_desc : Q;
  own_descent_sac : Q;
  own_bottom_sac : Q;
  own_ascent_sac : Q;
  buddy_ascent_sac : Q;
  gf_high : Q;
  gf_low : Q;
  calc_ascent : bool;
  calc_descent : bool;
  deco_stops : bool;
  safety_stop : bool;
  gas_switch : string;
  gas_switch_duration : Q;
  dt : Time
}.

Definition Parameters_default : Parameters :=
  mkParameters 3 3 5 3 10 20 20 20 17 17 1 1 true true true true
               "depth" 60 (Time_s 5).

(** [params == s] for a [Parameters] instance and a [str].  The
    dataclass-generated [__eq__] answers [NotImplemented] when the other
    operand is of another class, [str.__eq__] does the same, and Python then
    compares identities: the result is [False] whatever the field values. *)
Definition Parameters_eq_str (p : Parameters) (s : string) : bool := false.

(** ** Tank selection and gas-switch depth *)

(** The loop of [_select_tank].  [idx] is the position of [t] in the whole
    list, which is what [self._tanks.index(t)] returns when the list holds
    distinct tank objects.  [max_o2] is threaded as the code has it: it is
    compared against and never assigned. *)
Fixpoint _select_tank_loop (ts : list Tank) (idx : nat) (d pp_o2 : Q)
    (max_o2 : Z) (tk : nat) : result nat :=
  match ts with
  | [] => Ok tk
  | t :: ts' =>
      if (max_o2 <? _O2 (_gas t))%Z then
        m <- Gas_mod (_gas t) pp_o2 ;;
        if Qle_bool d m
        then _select_tank_loop ts' (S idx) d pp_o2 max_o2 idx
        else _select_tank_loop ts' (S idx) d pp_o2 max_o2 tk
      else _select_tank_loop ts' (S idx) d pp_o2 max_o2 tk
  end.

Definition _select_tank (tanks : list Tank) (d pp_o2 : Q) : result nat :=
  _select_tank_loop tanks 0 d pp_o2 0%Z 0%nat.

(** The loop of [_calculate_next_gas_stop]: the deepest limit among the
    tanks whose limit is shallower than [d]. *)
Fixpoint next_gas_stop_scan (ts : list Tank) (d pp_o2 out : Q) : result Q :=
  match ts with
  | [] => Ok out
  | t :: ts' =>
      m <- Gas_mod (_gas t) pp_o2 ;;
      if Qlt_bool m d then
        if Qlt_bool out m
        then next_gas_stop_scan ts' d pp_o2 m
        else next_gas_stop_scan ts' d pp_o2 out
      else next_gas_stop_scan ts' d pp_o2 out
  end.

Definition _calculate_next_gas_stop (tanks : list Tank) (params : Parameters)
    (d pp_o2 : Q) : result Q :=
  out <- next_gas_stop_scan tanks d pp_o2 0 ;;
  Ok (if Parameters_eq_str params "depth" then out else 0).

(** ** Integration points *)

Record IntegrationPoint : Type := mkIntegrationPoint {
  waypoint : Waypoint;
  tank_pressure : list Q;
  load_N2 : list R;
  load_He : list R;
  ceilings : list R;
  otu : R;
  otu_cum : R;
  cns : R;
  cns_cum : R
}.

Definition IntegrationPoint_init (wp : Waypoint) : IntegrationPoint :=
  mkIntegrationPoint wp []
    (repeat (Q2R (0.79 * (1 - pw))) 16) (repeat 0%R 16)
    (repeat 1%R 16) 0%R 0%R 0%R 0%R.

Definition p_amb (ip : IntegrationPoint) : Q := (depth (waypoint ip) / 10) + 1.

(** [np.max] of a non-empty array (the arrays of the engine have 16
    entries). *)
Definition np_max (xs : list R) : R :=
  match xs with
  | [] => 0%R
  | x :: xs' => fold_left Rmax xs' x
  end.

(** The [ceiling] property of an integration point. *)
Definition ceiling (ip : IntegrationPoint) : R :=
  if Rlt_dec 0 (np_max (ceilings ip)) then np_max (ceilings ip) else 0%R.

(** Field updates, for the assignments [new_ip.f = ...]. *)
Definition set_loads (ip : IntegrationPoint) (l : list R * list R) :=
  mkIntegrationPoint (waypoint ip) (tank_pressure ip) (fst l) (snd l)
    (ceilings ip) (otu ip) (otu_cum ip) (cns ip) (cns_cum ip).
Definition set_ceilings (ip : IntegrationPoint) (c : list R) :=
  mkIntegrationPoint (waypoint ip) (tank_pressure ip) (load_N2 ip) (load_He ip)
    c (otu ip) (otu_cum ip) (cns ip) (cns_cum ip).
Definition set_tank_pressure (ip : IntegrationPoint) (tp : list Q) :=
  mkIntegrationPoint (waypoint ip) tp (load_N2 ip) (load_He ip)
    (ceilings ip) (otu ip) (otu_cum ip) (cns ip) (cns_cum ip).
Definition set_cns (ip : IntegrationPoint) (c ccum : R) :=
  mkIntegrationPoint (waypoint ip) (tank_pressure ip) (load_N2 ip) (load_He ip)
    (ceilings ip) (otu ip) (otu_cum ip) c ccum.
Definition set_otu (ip : IntegrationPoint) (o ocum : R) :=
  mkIntegrationPoint (waypoint ip) (tank_pressure ip) (load_N2 ip) (load_He ip)
    (ceilings ip) o ocum (cns ip) (cns_cum ip).
Definition set_tank (ip : IntegrationPoint) (tk : nat) :=
  let w := waypoint ip in
  mkIntegrationPoint (mkWaypoint (depth w) (duration w) (runtime w) tk)
    (tank_pressure ip) (load_N2 ip) (load_He ip)
    (ceilings ip) (otu ip) (otu_cum ip) (cns ip) (cns_cum ip).

(** ** Tissue loading: the Schreiner equation *)

(** One compartment of one gas: [pi] the inspired pressure, [r] the rate,
    [dtm] the segment duration in minutes, [ht] the half-time, [p0] the
    previous load. *)
Definition schreiner (pi r dtm ht : Q) (p0 : R) : R :=
  let k := (ln 2 / Q2R ht)%R in
  let p_ig := Q2R pi in
  let p_ig := (p_ig + Q2R r * (Q2R dtm - (1 / k)))%R in
  (p_ig - (Q2R pi - p0 - (Q2R r / k)) * exp (- k * Q2R dtm))%R.

(** The body of the [for g in ['N2', 'He']] loop for one gas: [f_ig] the
    fraction of that gas in the tank of [prev_ip], [hts] its half-times and
    [p0s] its previous loads. *)
Definition compartments_gas (f_ig : Q) (hts : list Q) (p0s : list R)
    (ip prev_ip : IntegrationPoint) : result (list R) :=
  let pi := f_ig * (p_amb ip - pw) in
  q <- pydiv (depth (waypoint ip) - depth (waypoint prev_ip))
             (_minutes (duration (waypoint prev_ip))) ;;
  let r := (q * f_ig) / 10 in
  Ok (map (fun hp => schreiner pi r (_minutes (duration (waypoint prev_ip)))
                       (fst hp) (snd hp))
          (combine hts p0s)).

Definition _calculate_compartments (tanks : list Tank)
    (ip prev_ip : IntegrationPoint) : result (list R * list R) :=
  t <- getitem tanks (tank (waypoint prev_ip)) ;;
  n2 <- compartments_gas (Gas_fN2 (_gas t)) ZH_L16.N2_ht (load_N2 prev_ip)
          ip prev_ip ;;
  he <- compartments_gas (Gas_fHe (_gas t)) ZH_L16.He_ht (load_He prev_ip)
          ip prev_ip ;;
  Ok (n2, he).

(** ** Ceilings: the gradient-factor model *)

(** The deepest waypoint depth, from 0: the [for wp in self._waypoints]
    loop. *)
Definition max_depth (wps : list Waypoint) : Q :=
  fold_left (fun p_max wp => if Qlt_bool p_max (depth wp) then depth wp else p_max)
            wps 0.

(** The divisor of the gradient-factor interpolation, on exact numbers;
    [gf_divisor_b64] below is the same computation on binary64 numbers. *)
Definition gf_divisor (wps : list Waypoint) : Q := 1 - ((max_depth wps / 10) + 1).

(** The gradient factor at the ambient pressure of [ip]. *)
Definition gradient_factor (wps : list Waypoint) (params : Parameters)
    (ip : IntegrationPoint) : result Q :=
  let gf := gf_high params - gf_low params in
  gf <- pydiv gf (gf_divisor wps) ;;
  let gf := gf * (p_amb ip - 1) in
  Ok (gf + gf_high params).

(** One compartment of [_calculate_ceilings]; the divisions are numpy's and
    raise nothing. *)
Definition ceiling_compartment (gf : Q) (a_n2 b_n2 a_he b_he : Q)
    (load_n2 load_he : R) : R :=
  let a := ((Q2R a_n2 * load_n2 + Q2R a_he * load_he) / (load_n2 + load_he))%R in
  let b := ((Q2R b_n2 * load_n2 + Q2R b_he * load_he) / (load_n2 + load_he))%R in
  let p_comp := (load_n2 + load_he)%R in
  let out := (p_comp - (a * Q2R gf))%R in
  let out := (out / ((Q2R gf / b) - Q2R gf + 1))%R in
  ((out - 1) * 10)%R.

Definition _calculate_ceilings (wps : list Waypoint) (params : Parameters)
    (ip : IntegrationPoint) : result (list R) :=
  gf <- gradient_factor wps params ip ;;
  Ok (map (fun c =>
             match c with
             | (a_n2, b_n2, a_he, b_he, l_n2, l_he) =>
                 ceiling_compartment gf a_n2 b_n2 a_he b_he l_n2 l_he
             end)
          (combine (combine (combine (combine (combine
             ZH_L16.N2_a ZH_L16.N2_b) ZH_L16.He_a) ZH_L16.He_b)
             (load_N2 ip)) (load_He ip))).

(** ** Tank pressure *)

Definition _calculate_tank_pressure (tanks : list Tank)
    (ip prev_ip : IntegrationPoint) (sac : Q) : result (list Q) :=
  let rmv := sac * (p_amb ip + p_amb prev_ip) / 2 in
  t <- getitem tanks (tank (waypoint prev_ip)) ;;
  bar_min <- pydiv rmv (_size t) ;;
  let consumption := bar_min * _minutes (duration (waypoint prev_ip)) in
  let out := tank_pressure prev_ip in
  p <- getitem out (tank (waypoint prev_ip)) ;;
  setitem out (tank (waypoint prev_ip)) (p - consumption).

(** ** Oxygen toxicity: OTU and CNS *)

(** The arithmetic of [_calculate_otu], once the oxygen pressures at the two
    ends of the segment are known; [same_depth] is the test
    [ip.waypoint.depth == prev_ip.waypoint.depth]. *)
Definition otu_segment (segment_time pp_o2_ini pp_o2_end : Q)
    (same_depth : bool) : result R :=
  if same_depth then
    if Qle_bool 0.5 pp_o2_ini then
      q <- pydiv 0.5 (pp_o2_ini - 0.5) ;;
      Ok (Q2R segment_time * pypow q (- (5 # 6)))%R
    else Ok 0%R
  else
    let max_pp_o2 := pymax pp_o2_ini pp_o2_end in
    let min_pp_o2 := pymin pp_o2_ini pp_o2_end in
    if Qlt_bool max_pp_o2 0.5 then Ok 0%R
    else
      let low_pp_o2 := if Qlt_bool min_pp_o2 0.5 then 0.5 else min_pp_o2 in
      q <- pydiv (max_pp_o2 - low_pp_o2) (max_pp_o2 - min_pp_o2) ;;
      let exposure_time := segment_time * q in
      let pp_o2_ini := pymax 0.5 pp_o2_ini in
      let pp_o2_end := pymax 0.5 pp_o2_end in
      let otu := pypow ((pp_o2_end - 0.5) / 0.5) (11 # 6) in
      let otu := (otu - pypow ((pp_o2_ini - 0.5) / 0.5) (11 # 6))%R in
      let otu := (Q2R (3 * exposure_time / 11) * otu)%R in
      if Qeq_bool (pp_o2_end - pp_o2_ini) 0 then Raise ZeroDivisionError
      else Ok (otu / Q2R (pp_o2_end - pp_o2_ini))%R.

Definition _calculate_otu (tanks : list Tank) (ip prev_ip : IntegrationPoint)
    : result R :=
  let segment_time := _minutes (duration (waypoint prev_ip)) in
  t0 <- getitem tanks (tank (waypoint prev_ip)) ;;
  let pp_o2_ini := Gas_ppO2 (_gas t0) (depth (waypoint prev_ip)) in
  t1 <- getitem tanks (tank (waypoint ip)) ;;
  let pp_o2_end := Gas_ppO2 (_gas t1) (depth (waypoint ip)) in
  otu_segment segment_time pp_o2_ini pp_o2_end
    (Qeq_bool (depth (waypoint ip)) (depth (waypoint prev_ip))).

(** The [for k, v in noaa_cns_equations.items()] loop with its [break];
    [(0, 0)] when no interval holds the pressure. *)
Fixpoint noaa_lookup (table : list ((Q * Q) * (Q * Q))) (pp : Q) : Q * Q :=
  match table with
  | [] => (0, 0)
  | ((lo, hi), (m, b)) :: rest =>
      if Qle_bool lo pp && Qle_bool pp hi then (m, b) else noaa_lookup rest pp
  end.

(** The arithmetic of [_calculate_cns], once the oxygen pressures at the two
    ends of the segment are known. *)
Definition cns_segment (segment_time pp_o2_ini pp_o2_end : Q)
    (same_depth : bool) : result R :=
  if Qlt_bool pp_o2_ini 0.5 || Qlt_bool pp_o2_end 0.5 then Ok 0%R
  else
    let m := fst (noaa_lookup noaa_cns_equations pp_o2_ini) in
    let b := snd (noaa_lookup noaa_cns_equations pp_o2_ini) in
    let t_lim := m * pp_o2_ini + b in
    if same_depth then
      q <- pydiv segment_time t_lim ;;
      Ok (Q2R q)
    else
      k <- pydiv (pp_o2_end - pp_o2_ini) segment_time ;;
      l1 <- pylog (Qabs (t_lim + (m * k * segment_time))) ;;
      l0 <- pylog (Qabs t_lim) ;;
      if Qeq_bool (m * k) 0 then Raise ZeroDivisionError
      else Ok ((l1 - l0) / Q2R (m * k))%R.

Definition _calculate_cns (tanks : list Tank) (ip prev_ip : IntegrationPoint)
    : result R :=
  let segment_time := _minutes (duration (waypoint prev_ip)) in
  t0 <- getitem tanks (tank (waypoint prev_ip)) ;;
  let pp_o2_ini := Gas_ppO2 (_gas t0) (depth (waypoint prev_ip)) in
  t1 <- getitem tanks (tank (waypoint ip)) ;;
  let pp_o2_end := Gas_ppO2 (_gas t1) (depth (waypoint ip)) in
  cns_segment segment_time pp_o2_ini pp_o2_end
    (Qeq_bool (depth (waypoint ip)) (depth (waypoint prev_ip))).

(** The time limit that the NOAA line chosen at [pp_o2_ini] gives at
    [pp_o2_end]. *)
Definition time_limit_line (pp_o2_ini pp_o2_end : Q) : Q :=
  fst (noaa_lookup noaa_cns_equations pp_o2_ini) * pp_o2_end
  + snd (noaa_lookup noaa_cns_equations pp_o2_ini).

(** ** Depth interpolation *)

(** How the [for] loop of [_interpolate_depth] ends: by its [return], or by
    running off the list with the bracket found so far. *)
Inductive interp_exit : Type :=
| Returned (d : Q)
| Fell (wp_0 wp_1 : option Waypoint).

Fixpoint interpolate_scan (all rest : list Waypoint) (idx : nat) (rt : Z)
    (wp_0 wp_1 : option Waypoint) : result interp_exit :=
  match rest with
  | [] => Ok (Fell wp_0 wp_1)
  | wp :: rest' =>
      if (rt =? _seconds (runtime wp))%Z then Ok (Returned (round1 (depth wp)))
      else if (_seconds (runtime wp) <? rt)%Z then
        w1 <- getitem all (S idx) ;;
        interpolate_scan all rest' (S idx) rt (Some wp) (Some w1)
      else interpolate_scan all rest' (S idx) rt wp_0 wp_1
  end.

Definition _interpolate_depth (wps : list Waypoint) (rt : Time) : result Q :=
  e <- interpolate_scan wps wps 0 (_seconds rt) None None ;;
  match e with
  | Returned d => Ok d
  | Fell (Some wp_0) (Some wp_1) =>
      out <- pydiv (depth wp_1 - depth wp_0)
               (inject_Z (_seconds (runtime wp_1) - _seconds (runtime wp_0))) ;;
      let out := out * inject_Z (_seconds rt - _seconds (runtime wp_0)) in
      let out := out + depth wp_0 in
      Ok (round1 out)
  | Fell _ _ => Raise InterpolationError
  end.

(** ** The engine state *)

Record Profile : Type := mkProfile {
  _params : Parameters;
  _tanks : list Tank;
  _waypoints : list Waypoint;
  _integration_points : list IntegrationPoint
}.

Definition set_integration_points (self : Profile)
    (ips : list IntegrationPoint) : Profile :=
  mkProfile (_params self) (_tanks self) (_waypoints self) ips.

(** ** Waypoint normalization *)

(** [prev_wp.runtime.minutes + prev_wp.duration.minutes]. *)
Definition next_runtime (prev_wp : Waypoint) : time_arg :=
  ArgFloat (_minutes (runtime prev_wp) + _minutes (duration prev_wp)).

(** The waypoints appended before the loop, from the first input point. *)
Definition complete_first (params : Parameters) (w0 : Waypoint) (desc : bool)
    : result (list Waypoint) :=
  if negb (Qeq_bool (depth w0) 0) then
    q <- pydiv (depth w0) (v_desc params) ;;
    let time_to_bottom := Time_m q in
    if desc then
      let first := Waypoint_init 0 (ArgTime time_to_bottom) (ArgTime (Time_m 0)) 0 in
      Ok [first;
          Waypoint_init (depth w0) (ArgTime (duration w0))
            (ArgTime (duration first)) 0]
    else
      Ok [Waypoint_init (depth w0) (ArgTime (duration w0)) (ArgTime (Time_m 0)) 0]
  else
    Ok [Waypoint_init (depth w0) (ArgTime (duration w0)) (ArgTime (Time_m 0)) 0].

(** The [for idx, wp in enumerate(wps[1:], start=1)] loop; [n] is
    [len(waypoints)] of the list the caller passed. *)
Fixpoint complete_loop (params : Parameters) (n : nat) (rest : list Waypoint)
    (idx : nat) (acc : list Waypoint) : result (list Waypoint) :=
  match rest with
  | [] => Ok acc
  | wp :: rest' =>
      prev_wp <- last_item acc ;;
      acc <-
        (if Qlt_bool (depth prev_wp) (depth wp) then
           q <- pydiv (depth wp - depth prev_wp) (v_desc params) ;;
           Ok (acc ++ [Waypoint_init (depth prev_wp) (ArgTime (Time_m q))
                         (next_runtime prev_wp) 0])
         else if Qlt_bool (depth wp) (depth prev_wp) then
           q <- pydiv (depth prev_wp - depth wp) (v_asc params) ;;
           Ok (acc ++ [Waypoint_init (depth prev_wp) (ArgTime (Time_m q))
                         (next_runtime prev_wp) 0])
         else Ok acc) ;;
      prev_wp <- last_item acc ;;
      let dur := if Nat.eqb idx (n - 1) then Time_m 0 else duration wp in
      complete_loop params n rest' (S idx)
        (acc ++ [Waypoint_init (depth wp) (ArgTime dur) (next_runtime prev_wp) 0])
  end.

(** [_complete_waypoints], on a profile whose waypoint list is still empty:
    the realized waypoint list. *)
Definition _complete_waypoints (params : Parameters) (waypoints : list Waypoint)
    (desc : bool) : result (list Waypoint) :=
  w0 <- getitem waypoints 0 ;;
  acc <- complete_first params w0 desc ;;
  let wps :=
    if Nat.eqb (List.length waypoints) 1 then
      waypoints ++ [Waypoint_init (depth w0) (ArgTime (Time_m 0))
                      (ArgFloat (_minutes (runtime w0) + _minutes (duration w0))) 0]
    else waypoints in
  complete_loop params (List.length waypoints) (tl wps) 1 acc.

(** ** Bottom-phase stepping *)

(** One pass of the [while] body of [_calculate_bottom] at instant [t]. *)
Definition bottom_point (self : Profile) (t : Z) : result IntegrationPoint :=
  let params := _params self in
  let tanks := _tanks self in
  d <- _interpolate_depth (_waypoints self) (Time_s t) ;;
  let new_wp := Waypoint_init d (ArgTime (dt params)) (ArgTime (Time_s t)) 0 in
  let new_ip := IntegrationPoint_init new_wp in
  let new_ip := set_tank_pressure new_ip (map start_pressure tanks) in
  new_ip <-
    match rev (_integration_points self) with
    | [] => Ok new_ip
    | prev_ip :: _ =>
        l <- _calculate_compartments tanks new_ip prev_ip ;;
        let new_ip := set_loads new_ip l in
        let sac :=
          if Qlt_bool (depth (waypoint prev_ip)) (depth (waypoint new_ip))
          then own_descent_sac params else own_bottom_sac params in
        tp <- _calculate_tank_pressure tanks new_ip prev_ip sac ;;
        let new_ip := set_tank_pressure new_ip tp in
        c <- _calculate_cns tanks new_ip prev_ip ;;
        let new_ip := set_cns new_ip c (cns_cum prev_ip + c)%R in
        o <- _calculate_otu tanks new_ip prev_ip ;;
        Ok (set_otu new_ip o (otu_cum prev_ip + o)%R)
    end ;;
  c <- _calculate_ceilings (_waypoints self) params new_ip ;;
  Ok (set_ceilings new_ip c).

(** The [while t <= ...] loop for one waypoint; returns the instant reached
    and the integration points so far. *)
Fixpoint bottom_while (fuel : nat) (self : Profile) (bound t : Z)
    : result (Z * Profile) :=
  match fuel with
  | O => Raise OutOfFuel
  | S fuel' =>
      if (t <=? bound)%Z then
        new_ip <- bottom_point self t ;;
        bottom_while fuel'
          (set_integration_points self (_integration_points self ++ [new_ip]))
          bound (t + _seconds (dt (_params self)))%Z
      else Ok (t, self)
  end.

(** The [for idx, wp in enumerate(self._waypoints)] loop. *)
Fixpoint bottom_for (fuel : nat) (self : Profile) (wps : list Waypoint) (t : Z)
    : result Profile :=
  match wps with
  | [] => Ok self
  | wp :: wps' =>
      let bound := (_seconds (runtime wp) + _seconds (duration wp))%Z in
      if (bound <? t)%Z then bottom_for fuel self wps' t
      else
        r <- bottom_while fuel self bound t ;;
        bottom_for fuel (snd r) wps' (fst r)
  end.

Definition _calculate_bottom (fuel : nat) (self : Profile) : result Profile :=
  bottom_for fuel self (_waypoints self) 0%Z.

(** ** Ascent *)

(** The block every ascent loop repeats for a new waypoint: loads, ceilings,
    tank pressure, CNS, OTU, in this order. *)
Definition ascent_point (self : Profile) (new_wp : Waypoint)
    (prev_ip : IntegrationPoint) : result IntegrationPoint :=
  let params := _params self in
  let tanks := _tanks self in
  let new_ip := IntegrationPoint_init new_wp in
  l <- _calculate_compartments tanks new_ip prev_ip ;;
  let new_ip := set_loads new_ip l in
  c <- _calculate_ceilings (_waypoints self) params new_ip ;;
  let new_ip := set_ceilings new_ip c in
  tp <- _calculate_tank_pressure tanks new_ip prev_ip (own_ascent_sac params) ;;
  let new_ip := set_tank_pressure new_ip tp in
  c <- _calculate_cns tanks new_ip prev_ip ;;
  let new_ip := set_cns new_ip c (cns_cum prev_ip + c)%R in
  o <- _calculate_otu tanks new_ip prev_ip ;;
  Ok (set_otu new_ip o (otu_cum prev_ip + o)%R).

(** The depth one step shallower. *)
Definition step_up (params : Parameters) (d : Q) : Q :=
  round1 (d - (v_asc params * _minutes (dt params))).

(** The [while prev_ip.waypoint.depth > depth] loop of
    [_calculate_direct_ascent]. *)
Fixpoint direct_ascent_loop (fuel : nat) (self : Profile) (d : Q)
    (prev_ip : IntegrationPoint) (t : Z) (out : list IntegrationPoint)
    : result (list IntegrationPoint) :=
  match fuel with
  | O => Raise OutOfFuel
  | S fuel' =>
      if Qlt_bool d (depth (waypoint prev_ip)) then
        let params := _params self in
        let t := (t + _seconds (dt params))%Z in
        let new_wp :=
          Waypoint_init (step_up params (depth (waypoint prev_ip)))
            (ArgTime (dt params)) (ArgTime (Time_s t)) (tank (waypoint prev_ip)) in
        new_ip <- ascent_point self new_wp prev_ip ;;
        direct_ascent_loop fuel' self d new_ip t (out ++ [new_ip])
      else Ok out
  end.

(** What every ascent does with a finished segment [s] when [append] is
    set: back-fill the duration of the last waypoint, append the waypoint
    the segment ends on, append the segment's integration points. *)
Definition append_segment (self : Profile) (s : list IntegrationPoint)
    : result Profile :=
  s_last <- last_item s ;;
  s_first <- getitem s 0 ;;
  let dur := (_seconds (runtime (waypoint s_last))
              - _seconds (runtime (waypoint s_first))
              + _seconds (dt (_params self)))%Z in
  w_last <- last_item (_waypoints self) ;;
  let wps := removelast (_waypoints self)
             ++ [mkWaypoint (depth w_last) (Time_s dur) (runtime w_last)
                   (tank w_last)] in
  let wps := wps ++ [Waypoint_init (depth (waypoint s_last)) (ArgFloat 0)
                       (ArgTime (runtime (waypoint s_last)))
                       (tank (waypoint s_last))] in
  Ok (mkProfile (_params self) (_tanks self) wps (_integration_points self ++ s)).

Fixpoint append_segments (self : Profile) (segments : list (list IntegrationPoint))
    : result Profile :=
  match segments with
  | [] => Ok self
  | s :: rest => self <- append_segment self s ;; append_segments self rest
  end.

Definition _calculate_direct_ascent (fuel : nat) (self : Profile) (d : Q)
    (ip : IntegrationPoint) (append : bool)
    : result (Profile * list IntegrationPoint) :=
  out <- direct_ascent_loop fuel self d ip (_seconds (runtime (waypoint ip))) [] ;;
  if append then self <- append_segment self out ;; Ok (self, out)
  else Ok (self, out).

(** The safety-stop [while] loop of [_calculate_regular_ascent]. *)
Fixpoint safety_stop_loop (fuel : nat) (self : Profile)
    (prev_ip : IntegrationPoint) (t safety_stop_timer : Z)
    (out : list IntegrationPoint) : result (list IntegrationPoint) :=
  match fuel with
  | O => Raise OutOfFuel
  | S fuel' =>
      let params := _params self in
      if (safety_stop_timer <? _seconds (Time_m (safety_stop_duration params)))%Z
      then
        let t := (t + _seconds (dt params))%Z in
        let new_wp :=
          Waypoint_init (safety_stop_depth params) (ArgTime (dt params))
            (ArgTime (Time_s t)) (tank (waypoint prev_ip)) in
        new_ip <- ascent_point self new_wp prev_ip ;;
        safety_stop_loop fuel' self new_ip t
          (safety_stop_timer + _seconds (dt params))%Z (out ++ [new_ip])
      else Ok out
  end.

Definition _calculate_regular_ascent (fuel : nat) (self : Profile) (d : Q)
    (ip : IntegrationPoint) (append : bool)
    : result (Profile * list IntegrationPoint) :=
  let params := _params self in
  segments <-
    (if Qlt_bool (safety_stop_depth params) d then
       r <- _calculate_direct_ascent fuel self d ip false ;;
       Ok [snd r]
     else
       r <- _calculate_direct_ascent fuel self (safety_stop_depth params) ip false ;;
       let segments := [snd r] in
       seg <- last_item segments ;;
       prev_ip <- last_item seg ;;
       out <- safety_stop_loop fuel self prev_ip
                (_seconds (runtime (waypoint prev_ip))) 0%Z [] ;;
       let segments := segments ++ [out] in
       seg <- last_item segments ;;
       from_ip <- last_item seg ;;
       r <- _calculate_direct_ascent fuel self d from_ip false ;;
       Ok (segments ++ [snd r])) ;;
  if append then
    self <- append_segments self segments ;; Ok (self, List.concat segments)
  else Ok (self, List.concat segments).

(** ** Staged decompression ascent *)

(** [_calculate_next_deco_stop].  With a zero stop-depth increment the code
    fails on its first line (a [ZeroDivisionError] on a Python float, an
    overflow in [ceil] on a numpy scalar); the model raises the former. *)
Definition _calculate_next_deco_stop (params : Parameters) (c : R) : result Q :=
  let incr := stop_depth_incr params in
  let last := last_stop_depth params in
  if Qeq_bool incr 0 then Raise ZeroDivisionError
  else
    let out := inject_Z (Rceil (c / Q2R incr)) * incr in
    if (Qle_bool out last || Qlt_bool (out - last) incr)
       && (if Rlt_dec 0 c then true else false)
    then
      if Rlt_dec c (Q2R last) then Ok last
      else Ok ((inject_Z (Rceil (c / Q2R incr)) * incr) + incr)
    else Ok out.

(** The test that guards the tank switch inside a decompression stop. *)
Definition switch_due (params : Parameters) (stop_time : Z) : bool :=
  (String.eqb (gas_switch params) "stop" || String.eqb (gas_switch params) "depth")
  && Qle_bool (gas_switch_duration params - 1) (inject_Z stop_time).

(** The body of the first [while] of [_add_deco_stop]: the tank is switched
    before the tank pressure is computed. *)
Definition deco_stop_point_1 (self : Profile) (new_wp : Waypoint)
    (prev_ip : IntegrationPoint) (stop_time : Z) : result IntegrationPoint :=
  let params := _params self in
  let tanks := _tanks self in
  let new_ip := IntegrationPoint_init new_wp in
  l <- _calculate_compartments tanks new_ip prev_ip ;;
  let new_ip := set_loads new_ip l in
  c <- _calculate_ceilings (_waypoints self) params new_ip ;;
  let new_ip := set_ceilings new_ip c in
  new_ip <-
    (if switch_due params stop_time then
       tk <- _select_tank tanks (depth (waypoint new_ip)) 1.6 ;;
       Ok (set_tank new_ip tk)
     else Ok new_ip) ;;
  tp <- _calculate_tank_pressure tanks new_ip prev_ip (own_ascent_sac params) ;;
  let new_ip := set_tank_pressure new_ip tp in
  c <- _calculate_cns tanks new_ip prev_ip ;;
  let new_ip := set_cns new_ip c (cns_cum prev_ip + c)%R in
  o <- _calculate_otu tanks new_ip prev_ip ;;
  Ok (set_otu new_ip o (otu_cum prev_ip + o)%R).

(** The body of the second [while] of [_add_deco_stop]: the tank is switched
    after the tank pressure is computed. *)
Definition deco_stop_point_2 (self : Profile) (new_wp : Waypoint)
    (prev_ip : IntegrationPoint) (stop_time : Z) : result IntegrationPoint :=
  let params := _params self in
  let tanks := _tanks self in
  let new_ip := IntegrationPoint_init new_wp in
  l <- _calculate_compartments tanks new_ip prev_ip ;;
  let new_ip := set_loads new_ip l in
  c <- _calculate_ceilings (_waypoints self) params new_ip ;;
  let new_ip := set_ceilings new_ip c in
  tp <- _calculate_tank_pressure tanks new_ip prev_ip (own_ascent_sac params) ;;
  let new_ip := set_tank_pressure new_ip tp in
  new_ip <-
    (if switch_due params stop_time then
       tk <- _select_tank tanks (depth (waypoint new_ip)) 1.6 ;;
       Ok (set_tank new_ip tk)
     else Ok new_ip) ;;
  c <- _calculate_cns tanks new_ip prev_ip ;;
  let new_ip := set_cns new_ip c (cns_cum prev_ip + c)%R in
  o <- _calculate_otu tanks new_ip prev_ip ;;
  Ok (set_otu new_ip o (otu_cum prev_ip + o)%R).

(** The state the loops of [_add_deco_stop] carry. *)
Record stop_state : Type := mkStopState {
  ss_prev_ip : IntegrationPoint;
  ss_t : Z;
  ss_stop_time : Z;
  ss_out : list IntegrationPoint
}.

(** First [while]: hold until the ceiling clears the next stop, with the
    [break] when the next stop is shallower than this one. *)
Fixpoint deco_hold_loop (fuel : nat) (self : Profile) (d : Q)
    (next_deco_stop : Q) (st : stop_state) : result stop_state :=
  match fuel with
  | O => Raise OutOfFuel
  | S fuel' =>
      if Rlt_dec (ceiling (ss_prev_ip st)) (Q2R next_deco_stop) then
        let params := _params self in
        let t := (ss_t st + _seconds (dt params))%Z in
        let new_wp := Waypoint_init d (ArgTime (dt params)) (ArgTime (Time_s t))
                        (tank (waypoint (ss_prev_ip st))) in
        new_ip <- deco_stop_point_1 self new_wp (ss_prev_ip st) (ss_stop_time st) ;;
        next_deco_stop <- _calculate_next_deco_stop params (ceiling new_ip) ;;
        let out := ss_out st ++ [new_ip] in
        if Qlt_bool next_deco_stop d then
          Ok (mkStopState new_ip t (ss_stop_time st) out)
        else
          deco_hold_loop fuel' self d next_deco_stop
            (mkStopState new_ip t (ss_stop_time st + _seconds (dt params))%Z out)
      else Ok st
  end.

(** Second [while]: round the stop up to a whole minute. *)
Fixpoint deco_minute_loop (fuel : nat) (self : Profile) (d : Q)
    (st : stop_state) : result stop_state :=
  match fuel with
  | O => Raise OutOfFuel
  | S fuel' =>
      if negb (ss_stop_time st mod 60 =? 0)%Z then
        let params := _params self in
        let t := (ss_t st + _seconds (dt params))%Z in
        let new_wp := Waypoint_init d (ArgTime (dt params)) (ArgTime (Time_s t))
                        (tank (waypoint (ss_prev_ip st))) in
        new_ip <- deco_stop_point_2 self new_wp (ss_prev_ip st) (ss_stop_time st) ;;
        deco_minute_loop fuel' self d
          (mkStopState new_ip t (ss_stop_time st + _seconds (dt params))%Z
             (ss_out st ++ [new_ip]))
      else Ok st
  end.

Definition _add_deco_stop (fuel : nat) (self : Profile) (d : Q)
    (prev_ip : IntegrationPoint) : result (list IntegrationPoint) :=
  let params := _params self in
  next_deco_stop <- _calculate_next_deco_stop params (ceiling prev_ip) ;;
  st <- deco_hold_loop fuel self d next_deco_stop
          (mkStopState prev_ip (_seconds (runtime (waypoint prev_ip)))
             (_seconds (dt params)) []) ;;
  st <- deco_minute_loop fuel self d st ;;
  Ok (ss_out st).

(** The [while] of [_add_gas_switch_stop]. *)
Fixpoint gas_switch_loop (fuel : nat) (self : Profile) (d : Q)
    (st : stop_state) : result stop_state :=
  match fuel with
  | O => Raise OutOfFuel
  | S fuel' =>
      let params := _params self in
      if Qle_bool (inject_Z (ss_stop_time st)) (gas_switch_duration params) then
        let t := (ss_t st + _seconds (dt params))%Z in
        let new_wp := Waypoint_init d (ArgTime (dt params)) (ArgTime (Time_s t))
                        (tank (waypoint (ss_prev_ip st))) in
        new_ip <- ascent_point self new_wp (ss_prev_ip st) ;;
        gas_switch_loop fuel' self d
          (mkStopState new_ip t (ss_stop_time st + _seconds (dt params))%Z
             (ss_out st ++ [new_ip]))
      else Ok st
  end.

Definition _add_gas_switch_stop (fuel : nat) (self : Profile) (d : Q)
    (prev_ip : IntegrationPoint) : result (list IntegrationPoint) :=
  let params := _params self in
  st <- gas_switch_loop fuel self d
          (mkStopState prev_ip (_seconds (runtime (waypoint prev_ip)))
             (_seconds (dt params)) []) ;;
  let out := ss_out st in
  out_last <- last_item out ;;
  tk <- _select_tank (_tanks self) (depth (waypoint out_last)) 1.6 ;;
  Ok (removelast out ++ [set_tank out_last tk]).

(** The state the loops of [_calculate_deco_ascent] carry. *)
Record deco_state : Type := mkDecoState {
  ds_prev_ip : IntegrationPoint;
  ds_t : Z;
  ds_next_deco_stop : Q;
  ds_next_gas_stop : Q;
  ds_next_stop : Q;
  ds_segments : list (list IntegrationPoint)
}.

(** The inner [while prev_ip.waypoint.depth > next_stop] loop; returns the
    state and the list [out]. *)
Fixpoint deco_travel_loop (fuel : nat) (self : Profile) (st : deco_state)
    (out : list IntegrationPoint) : result (deco_state * list IntegrationPoint) :=
  match fuel with
  | O => Raise OutOfFuel
  | S fuel' =>
      if Qlt_bool (ds_next_stop st) (depth (waypoint (ds_prev_ip st))) then
        let params := _params self in
        let prev_ip := ds_prev_ip st in
        let t := (ds_t st + _seconds (dt params))%Z in
        let new_depth := step_up params (depth (waypoint prev_ip)) in
        let new_wp := Waypoint_init new_depth (ArgTime (dt params))
                        (ArgTime (Time_s t)) (tank (waypoint prev_ip)) in
        new_ip <- ascent_point self new_wp prev_ip ;;
        next_deco_stop <- _calculate_next_deco_stop params (ceiling new_ip) ;;
        let next_stop := pymax next_deco_stop (ds_next_gas_stop st) in
        deco_travel_loop fuel' self
          (mkDecoState new_ip t next_deco_stop (ds_next_gas_stop st) next_stop
             (ds_segments st))
          (out ++ [new_ip])
      else Ok (st, out)
  end.

(** [segments[-1][-1]]. *)
Definition last_of_last (segments : list (list IntegrationPoint))
    : result IntegrationPoint :=
  seg <- last_item segments ;; last_item seg.

(** One pass of the outer [while] body, after its guard. *)
Definition deco_outer_body (fuel : nat) (self : Profile) (st : deco_state)
    : result deco_state :=
  let params := _params self in
  r <- deco_travel_loop fuel self st [] ;;
  let st := fst r in
  let out := snd r in
  let segments :=
    match out with [] => ds_segments st | _ => ds_segments st ++ [out] end in
  let next_deco_stop := ds_next_deco_stop st in
  let next_gas_stop := ds_next_gas_stop st in
  let next_stop := ds_next_stop st in
  r1 <-
    (if Qlt_bool 0 next_deco_stop && Qlt_bool next_gas_stop next_deco_stop then
       from_ip <- last_of_last segments ;;
       s <- _add_deco_stop fuel self next_deco_stop from_ip ;;
       let segments := segments ++ [s] in
       ip <- last_of_last segments ;;
       next_deco_stop <- _calculate_next_deco_stop params (ceiling ip) ;;
       Ok (segments, next_deco_stop, pymax next_deco_stop next_gas_stop)
     else Ok (segments, next_deco_stop, next_stop)) ;;
  let '(segments, next_deco_stop, next_stop) := r1 in
  r2 <-
    (if Qlt_bool 0 next_gas_stop && Qlt_bool next_deco_stop next_gas_stop then
       from_ip <- last_of_last segments ;;
       s <- _add_gas_switch_stop fuel self next_gas_stop from_ip ;;
       let segments := segments ++ [s] in
       ip <- last_of_last segments ;;
       next_gas_stop <-
         _calculate_next_gas_stop (_tanks self) params (depth (waypoint ip)) 1.6 ;;
       Ok (segments, next_gas_stop, pymax next_deco_stop next_gas_stop)
     else Ok (segments, next_gas_stop, next_stop)) ;;
  let '(segments, next_gas_stop, next_stop) := r2 in
  prev_ip <- last_of_last segments ;;
  Ok (mkDecoState prev_ip (_seconds (runtime (waypoint prev_ip)))
        next_deco_stop next_gas_stop next_stop segments).

(** The outer [while prev_ip.waypoint.depth > depth] loop. *)
Fixpoint deco_outer_loop (fuel inner : nat) (self : Profile) (d : Q)
    (st : deco_state) : result deco_state :=
  match fuel with
  | O => Raise OutOfFuel
  | S fuel' =>
      if Qlt_bool d (depth (waypoint (ds_prev_ip st))) then
        st <- deco_outer_body inner self st ;;
        deco_outer_loop fuel' inner self d st
      else Ok st
  end.

Definition _calculate_deco_ascent (fuel : nat) (self : Profile) (d : Q)
    (ip : IntegrationPoint) (append : bool)
    : result (Profile * list IntegrationPoint) :=
  let params := _params self in
  next_deco_stop <- _calculate_next_deco_stop params (ceiling ip) ;;
  next_gas_stop <-
    _calculate_next_gas_stop (_tanks self) params (depth (waypoint ip)) 1.6 ;;
  let next_stop := pymax next_deco_stop next_gas_stop in
  st <- deco_outer_loop fuel fuel self d
          (mkDecoState ip (_seconds (runtime (waypoint ip)))
             next_deco_stop next_gas_stop next_stop []) ;;
  let segments := ds_segments st in
  if append then
    self <- append_segments self segments ;; Ok (self, List.concat segments)
  else Ok (self, List.concat segments).

(** ** Profile construction *)

(** The tail of [Profile.__init__]: the ascent chosen by [deco_dive], from
    the last point of the bottom phase. *)
Definition Profile_ascend (fuel : nat) (self : Profile)
    (last_ip : IntegrationPoint) (deco_dive : bool) : result Profile :=
  if deco_dive then
    r <- _calculate_deco_ascent fuel self 0 last_ip true ;; Ok (fst r)
  else if safety_stop (_params self) then
    r <- _calculate_regular_ascent fuel self 0 last_ip true ;; Ok (fst r)
  else
    r <- _calculate_direct_ascent fuel self 0 last_ip true ;; Ok (fst r).

Definition Profile_init (fuel : nat) (waypoints : list Waypoint)
    (tanks : list Tank) (params : Parameters) : result Profile :=
  wps <- _complete_waypoints params waypoints (calc_descent params) ;;
  let self := mkProfile params tanks wps [] in
  self <- _calculate_bottom fuel self ;;
  last_ip <- last_item (_integration_points self) ;;
  r <- _calculate_direct_ascent fuel self 0 last_ip false ;;
  end_ip <- last_item (snd r) ;;
  let deco_dive := if Rlt_dec 0 (ceiling end_ip) then true else false in
  Profile_ascend fuel self last_ip deco_dive.

(** ** Configuration persistence *)

(** The Python values a configuration attribute can hold. *)
Inductive pyval : Type :=
| PyInt (z : Z)
| PyFloat (q : Q)
| PyBool (b : bool)
| PyStr (s : string)
| PyTime (t : Time)
| PyDict (d : list (string * pyval)).

(** A JSON document.  [json.dumps] renders it as text and [json.loads]
    parses that text back to the same document; the text layer is the
    library's and is not modelled. *)
Inductive json : Type :=
| JInt (z : Z)
| JFloat (q : Q)
| JBool (b : bool)
| JStr (s : string)
| JObject (members : list (string * json)).

(** [o.__dict__] of a [Time] and of a freshly constructed [Parameters]. *)
Definition Time_dict (t : Time) : list (string * pyval) :=
  [("_unit", PyStr (_unit t)); ("_minutes", PyFloat (_minutes t));
   ("_seconds", PyInt (_seconds t))]%string.

Definition Parameters_dict (p : Parameters) : list (string * pyval) :=
  [("last_stop_depth", PyFloat (last_stop_depth p));
   ("stop_depth_incr", PyFloat (stop_depth_incr p));
   ("safety_stop_depth", PyFloat (safety_stop_depth p));
   ("safety_stop_duration", PyFloat (safety_stop_duration p));
   ("v_asc", PyFloat (v_asc p));
   ("v_desc", PyFloat (v_desc p));
   ("own_descent_sac", PyFloat (own_descent_sac p));
   ("own_bottom_sac", PyFloat (own_bottom_sac p));
   ("own_ascent_sac", PyFloat (own_ascent_sac p));
   ("buddy_ascent_sac", PyFloat (buddy_ascent_sac p));
   ("gf_high", PyFloat (gf_high p));
   ("gf_low", PyFloat (gf_low p));
   ("calc_ascent", PyBool (calc_ascent p));
   ("calc_descent", PyBool (calc_descent p));
   ("deco_stops", PyBool (deco_stops p));
   ("safety_stop", PyBool (safety_stop p));
   ("gas_switch", PyStr (gas_switch p));
   ("gas_switch_duration", PyFloat (gas_switch_duration p));
   ("dt", PyTime (dt p))]%string.

(** [sort_keys=True]: members in the order of their keys. *)
Fixpoint insert_member {A : Type} (m : string * A) (ms : list (string * A))
    : list (string * A) :=
  match ms with
  | [] => [m]
  | m' :: ms' =>
      if String.leb (fst m) (fst m') then m :: m' :: ms'
      else m' :: insert_member m ms'
  end.

Definition sort_keys {A : Type} (ms : list (string * A)) : list (string * A) :=
  fold_right insert_member [] ms.

(** The encoder of [json.dumps(..., default=lambda o: o.__dict__,
    sort_keys=True)]: a value that JSON has no form for is replaced by its
    attribute dictionary. *)
Fixpoint encode (v : pyval) : json :=
  match v with
  | PyInt z => JInt z
  | PyFloat q => JFloat q
  | PyBool b => JBool b
  | PyStr s => JStr s
  | PyTime t =>
      JObject (sort_keys
        [("_unit", JStr (_unit t)); ("_minutes", JFloat (_minutes t));
         ("_seconds", JInt (_seconds t))]%string)
  | PyDict d =>
      JObject (sort_keys
        ((fix members (d : list (string * pyval)) : list (string * json) :=
            match d with
            | [] => []
            | (k, x) :: d' => (k, encode x) :: members d'
            end) d))
  end.

(** [json.loads]: objects become plain dictionaries. *)
Fixpoint decode (j : json) : pyval :=
  match j with
  | JInt z => PyInt z
  | JFloat q => PyFloat q
  | JBool b => PyBool b
  | JStr s => PyStr s
  | JObject ms =>
      PyDict ((fix members (ms : list (string * json)) : list (string * pyval) :=
                 match ms with
                 | [] => []
                 | (k, x) :: ms' => (k, decode x) :: members ms'
                 end) ms)
  end.

(** [Parameters.to_json], on an instance with attribute dictionary [d]. *)
Definition to_json (d : list (string * pyval)) : json := encode (PyDict d).

(** [Parameters.from_json]: the new attribute dictionary of [self]. *)
Definition from_json (j : json) : pyval := decode j.

(** [d[k]] on an attribute dictionary. *)
Fixpoint dict_get (d : list (string * pyval)) (k : string) : option pyval :=
  match d with
  | [] => None
  | (k', v) :: d' => if String.eqb k k' then Some v else dict_get d' k
  end.

(** [self.k] after [from_json] installed [v] as the attribute dictionary. *)
Definition getattr (v : pyval) (k : string) : option pyval :=
  match v with
  | PyDict d => dict_get d k
  | _ => None
  end.

(** [x.seconds], as the engine reads [self._params.dt.seconds]. *)
Definition attr_seconds (x : pyval) : result Z :=
  match x with
  | PyTime t => Ok (_seconds t)
  | _ => Raise AttributeError
  end.

(** ** Inputs used below *)

Definition EAN50 : Gas := Gas_init 50 0.
Definition EAN60 : Gas := Gas_init 60 0.

(** The two tanks of the entry script: air first, then the richer mix. *)
Definition tanks_air_ean50 : list Tank := [mkTank Air 200 12; mkTank EAN50 200 10].

(** The same two tanks, the richer mix first. *)
Definition tanks_ean50_air : list Tank := [mkTank EAN50 200 10; mkTank Air 200 12].

(** A tank the loop of [_select_tank] accepts at depth [d]: it holds some
    oxygen and its limit is not shallower than [d]. *)
Definition admits (d pp_o2 : Q) (t : Tank) : bool :=
  (0 <? _O2 (_gas t))%Z &&
  match Gas_mod (_gas t) pp_o2 with
  | Ok m => Qle_bool d m
  | Raise _ => false
  end.

(** The value [f] reads off the [i]-th integration point of a run. *)
Definition observe {A : Type} (run : result Profile) (i : nat)
    (f : IntegrationPoint -> A) : result A :=
  self <- run ;;
  ip <- getitem (_integration_points self) i ;;
  Ok (f ip).

(** Normalization followed by the bottom phase, as [Profile.__init__] runs
    them. *)
Definition bottom_phase (fuel : nat) (waypoints : list Waypoint)
    (tanks : list Tank) (params : Parameters) : result Profile :=
  wps <- _complete_waypoints params waypoints (calc_descent params) ;;
  _calculate_bottom fuel (mkProfile params tanks wps []).

(** [Parameters()] with another time step. *)
Definition Parameters_with_dt (t : Time) : Parameters :=
  mkParameters 3 3 5 3 10 20 20 20 17 17 1 1 true true true true "depth" 60 t.

(** Scenario A of the specification: air, 10 m for 2 minutes. *)
Definition scenario_A_bottom : result Profile :=
  bottom_phase 64 [Waypoint_init 10 (ArgFloat 2) ArgNone 0]
    [Tank_default] Parameters_default.

(** A 60% mix taken to 15 m, stepped every 45 seconds. *)
Definition rich_descent_bottom : result Profile :=
  bottom_phase 64 [Waypoint_init 15 (ArgFloat 10) ArgNone 0]
    [mkTank EAN60 200 15] (Parameters_with_dt (Time_s 45)).

(** A dive to 0.2 m for 0.01 minutes, stepped every second. *)
Definition brief_dive_bottom : result Profile :=
  bottom_phase 64 [Waypoint_init 0.2 (ArgFloat 0.01) ArgNone 0]
    [Tank_default] (Parameters_with_dt (Time_s 1)).

(** Two realized waypoints: the surface at 0 s and 10 m at 60 s. *)
Definition two_waypoints : list Waypoint :=
  [Waypoint_init 0 ArgNone ArgNone 0; Waypoint_init 10 ArgNone (ArgFloat 1) 0].

(** The Schreiner closed form as the specification writes it, for one
    compartment: [f_ig] the inert-gas fraction, [p_amb_end] the ambient
    pressure at the end of the segment, [delta] the depth change, [dtm] the
    segment duration in minutes, [ht] the half-time, [p0] the previous
    load. *)
Definition Schreiner_closed_form (f_ig p_amb_end delta dtm ht : Q) (p0 : R) : R :=
  let p_inspired := (Q2R f_ig * (Q2R p_amb_end - 0.0567))%R in
  let r := (Q2R delta / Q2R dtm / 10 * Q2R f_ig)%R in
  let k := (ln 2 / Q2R ht)%R in
  (p_inspired + r * (Q2R dtm - 1 / k)
   - (p_inspired - p0 - r / k) * exp (- k * Q2R dtm))%R.

(** The realized waypoints of the brief dive. *)
Definition brief_dive_waypoints : result (list Waypoint) :=
  _complete_waypoints (Parameters_with_dt (Time_s 1))
    [Waypoint_init 0.2 (ArgFloat 0.01) ArgNone 0] true.

(** A profile at the end of a 4 m dive: the last bottom-phase point is
    shallower than the safety stop at 5 m. *)
Definition shallow_profile : Profile :=
  mkProfile Parameters_default [Tank_default]
    [Waypoint_init 0 (ArgFloat 0.2) ArgNone 0;
     Waypoint_init 4 (ArgFloat 10) (ArgFloat 0.2) 0;
     Waypoint_init 4 ArgNone (ArgFloat 10.2) 0] [].

Definition shallow_point : IntegrationPoint :=
  set_tank_pressure
    (IntegrationPoint_init
       (Waypoint_init 4 (ArgTime (Time_s 5)) (ArgTime (Time_s 610)) 0))
    [190].

(** The runtime of a waypoint in seconds. *)
Definition runtime_s (wp : Waypoint) : Z := _seconds (runtime wp).

(** The straight line through two waypoints, read at [rt] seconds and
    rounded to a tenth. *)
Definition linear_depth (wp_0 wp_1 : Waypoint) (rt : Z) : Q :=
  round1 ((depth wp_1 - depth wp_0) / inject_Z (runtime_s wp_1 - runtime_s wp_0)
            * inject_Z (rt - runtime_s wp_0) + depth wp_0).

(** The names of the configuration options other than the time step. *)
Definition scalar_options : list string :=
  ["last_stop_depth"; "stop_depth_incr"; "safety_stop_depth";
   "safety_stop_duration"; "v_asc"; "v_desc"; "own_descent_sac";
   "own_bottom_sac"; "own_ascent_sac"; "buddy_ascent_sac"; "gf_high";
   "gf_low"; "calc_ascent"; "calc_descent"; "deco_stops"; "safety_stop";
   "gas_switch"; "gas_switch_duration"]%string.

(** Every integration point of [ips] but the first stands in the relation
    [R] to the point before it. *)
Definition chain (R : IntegrationPoint -> IntegrationPoint -> Prop)
    (ips : list IntegrationPoint) : Prop :=
  forall i prev_ip ip,
    nth_error ips i = Some prev_ip -> nth_error ips (S i) = Some ip ->
    R prev_ip ip.

(** What every loop of the engine establishes between a new integration
    point [ip] and the point [prev_ip] before it: each field of [ip] is the
    value of the step function of that name, the consumption is taken at one
    of the configured respiration rates, and each running total is the
    previous total plus the step. *)
Definition engine_step (tanks : list Tank) (params : Parameters)
    (prev_ip ip : IntegrationPoint) : Prop :=
  _calculate_compartments tanks ip prev_ip = Ok (load_N2 ip, load_He ip)
  /\ (exists sac,
        In sac [own_descent_sac params; own_bottom_sac params;
                own_ascent_sac params]
        /\ _calculate_tank_pressure tanks ip prev_ip sac = Ok (tank_pressure ip))
  /\ _calculate_cns tanks ip prev_ip = Ok (cns ip)
  /\ cns_cum ip = (cns_cum prev_ip + cns ip)%R
  /\ _calculate_otu tanks ip prev_ip = Ok (otu ip)
  /\ otu_cum ip = (otu_cum prev_ip + otu ip)%R.

(** The invariant of the loops that hold a stop: the points produced so far
    continue the chain [base], and end in the current point. *)
Definition stop_inv (R : IntegrationPoint -> IntegrationPoint -> Prop)
    (base : list IntegrationPoint) (st : stop_state) : Prop :=
  last_item (base ++ ss_out st) = Ok (ss_prev_ip st)
  /\ chain R (base ++ ss_out st).

(** A dive short enough to follow by hand: air to 1 m and straight back,
    stepped every 3 seconds, the safety stop moved up to 0.5 m and cut to 3
    seconds. *)
Definition short_params : Parameters :=
  mkParameters 3 3 (1 # 2) (1 # 20) 10 20 20 20 17 17 1 1 true true true true
               "depth" 60 (Time_s 3).

Definition short_dive : list Waypoint := [Waypoint_init 1 (ArgFloat 0) ArgNone 0].

(** A plan that never leaves the surface. *)
Definition surface_dive : list Waypoint := [Waypoint_init 0 (ArgFloat 1) ArgNone 0].

(** ** Further definitions *)

(** Every element of [l] but the first stands in the relation [R] to the
    element before it. *)
Definition consecutive {A : Type} (R : A -> A -> Prop) (l : list A) : Prop :=
  forall i a b, nth_error l i = Some a -> nth_error l (S i) = Some b -> R a b.

(** What normalization establishes for the realized waypoints. *)
Definition follows (a b : Waypoint) : Prop :=
  _minutes (runtime b) == _minutes (runtime a) + _minutes (duration a).

(** The invariant of normalization: tank 0 everywhere, runtimes built from
    minutes, each following from the waypoint before. *)
Definition normalized (l : list Waypoint) : Prop :=
  Forall (fun w => tank w = 0%nat /\ runtime w = Time_m (_minutes (runtime w))) l
  /\ consecutive follows l.

(** A plan of three levels, 1 m, 3 m and half a metre, that names tanks 3,
    1 and 0. *)
Definition stepped_plan : list Waypoint :=
  [Waypoint_init 1 (ArgFloat 2) ArgNone 3; Waypoint_init 3 (ArgFloat 1) ArgNone 1;
   Waypoint_init (1 # 2) (ArgFloat 4) ArgNone 0].

(** The waypoint every loop of the engine builds for the point after
    [prev_ip]: one time step later, lasting one time step. *)
Definition stepped (params : Parameters) (prev_ip : IntegrationPoint)
    (wp : Waypoint) : Prop :=
  runtime wp = Time_s (runtime_s (waypoint prev_ip) + _seconds (dt params))
  /\ duration wp = dt params.

(** An integration point one time step after [prev_ip]. *)
Definition timed (tanks : list Tank) (params : Parameters)
    (prev_ip ip : IntegrationPoint) : Prop :=
  stepped params prev_ip (waypoint ip).

(** The instant of the bottom phase: 0 before the first point, one time step
    after the last point from then on. *)
Definition bottom_clock (self : Profile) (t : Z) : Prop :=
  match rev (_integration_points self) with
  | [] => t = 0%Z
  | prev_ip :: _ =>
      t = (runtime_s (waypoint prev_ip) + _seconds (dt (_params self)))%Z
  end.

(** The first integration point of a dive: at runtime 0, every compartment
    at the nitrogen pressure of air at the surface, no helium, the tanks at
    their start pressures, no oxygen exposure, and the ceilings these loads
    give. *)
Definition initial_point (tanks : list Tank) (params : Parameters)
    (ip : IntegrationPoint) : Prop :=
  runtime (waypoint ip) = Time_s 0
  /\ duration (waypoint ip) = dt params
  /\ tank (waypoint ip) = 0%nat
  /\ tank_pressure ip = map start_pressure tanks
  /\ load_N2 ip = repeat (Q2R (0.79 * (1 - pw))) 16
  /\ load_He ip = repeat 0%R 16
  /\ cns ip = 0%R /\ cns_cum ip = 0%R /\ otu ip = 0%R /\ otu_cum ip = 0%R
  /\ exists wps, _calculate_ceilings wps params ip = Ok (ceilings ip).

(** The realized waypoint an ascent appends for the point [e] its last
    segment ends on. *)
Definition closing_waypoint (e : IntegrationPoint) : Waypoint :=
  Waypoint_init (depth (waypoint e)) (ArgFloat 0) (ArgTime (runtime (waypoint e)))
    (tank (waypoint e)).

(** A plan that goes to 1 m and returns to the surface by itself. *)
Definition return_dive : list Waypoint :=
  [Waypoint_init 1 (ArgFloat 0) ArgNone 0; Waypoint_init 0 (ArgFloat 0) ArgNone 0].

(** The ceilings of a point are those its loads give. *)
Definition ceilings_computed (tanks : list Tank) (params : Parameters)
    (prev_ip ip : IntegrationPoint) : Prop :=
  exists wps, _calculate_ceilings wps params ip = Ok (ceilings ip).

(** One step of a direct ascent: one ascent step shallower, on the same
    tank. *)
Definition ascent_step (params : Parameters) (a b : IntegrationPoint) : Prop :=
  depth (waypoint b) = step_up params (depth (waypoint a))
  /\ tank (waypoint b) = tank (waypoint a).

(** A 25% mix: 0.5 bar of oxygen at 10 m. *)
Definition EAN25 : Gas := Gas_init 25 0.

(** The bracket [lo, hi] holds the inspired pressure of an inert gas of
    fraction [f_ig] at the depth of [ip], and that pressure moved by the
    change of inspired pressure between [prev_ip] and [ip]. *)
Definition inspired_within (f_ig : Q) (ip prev_ip : IntegrationPoint)
    (lo hi : R) : Prop :=
  (lo <= Q2R (f_ig * (p_amb ip - pw)) <= hi)%R
  /\ (lo <= Q2R (f_ig * (p_amb ip - pw)
                 + f_ig * (depth (waypoint ip) - depth (waypoint prev_ip)) / 10)
      <= hi)%R.

(** The point one ascent step after [shallow_point]. *)
Definition rising_point : IntegrationPoint :=
  set_tank_pressure
    (IntegrationPoint_init
       (Waypoint_init 3.2 (ArgTime (Time_s 5)) (ArgTime (Time_s 615)) 0))
    [190].

(** The state at the end of the bottom phase of the short dive, and its
    last point. *)
Definition short_profile : Profile :=
  mkProfile short_params [Tank_default]
    [Waypoint_init 0 (ArgFloat (1 # 20)) ArgNone 0;
     Waypoint_init 1 (ArgFloat 0) (ArgFloat (1 # 20)) 0;
     Waypoint_init 1 ArgNone (ArgFloat (1 # 20)) 0] [].

Definition short_point : IntegrationPoint :=
  set_tank_pressure
    (IntegrationPoint_init
       (Waypoint_init 1 (ArgTime (Time_s 3)) (ArgTime (Time_s 3)) 0))
    [200].

(** Air and a 50% mix at 21 m, stepped every 45 seconds. *)
Definition switch_profile : Profile :=
  mkProfile (Parameters_with_dt (Time_s 45)) tanks_air_ean50
    [Waypoint_init 0 (ArgFloat 2) ArgNone 0;
     Waypoint_init 30 (ArgFloat 10) (ArgFloat 2) 0] [].

Definition switch_point : IntegrationPoint :=
  set_tank_pressure
    (IntegrationPoint_init
       (Waypoint_init 21 (ArgTime (Time_s 45)) (ArgTime (Time_s 900)) 0))
    [150; 200].

(** [Parameters()] with a zero descent speed and no synthesized descent. *)
Definition still_params : Parameters :=
  mkParameters 3 3 5 3 10 0 20 20 17 17 1 1 true false true true
               "depth" 60 (Time_s 5).

(** A point held at 10 m and a point held at 30 m. *)
Definition level_point : IntegrationPoint :=
  IntegrationPoint_init
    (Waypoint_init 10 (ArgTime (Time_s 5)) (ArgTime (Time_s 60)) 0).

Definition deep_point : IntegrationPoint :=
  IntegrationPoint_init
    (Waypoint_init 30 (ArgTime (Time_s 5)) (ArgTime (Time_s 60)) 0).

(** A profile stepped every half minute, and a point of it at 3 m whose
    first compartment still has a ceiling of 1 m. *)
Definition half_minute_profile : Profile :=
  mkProfile (Parameters_with_dt (Time_s 30)) [Tank_default]
    [Waypoint_init 0 (ArgFloat 2) ArgNone 0;
     Waypoint_init 30 (ArgFloat 10) (ArgFloat 2) 0] [].

Definition obliged_point : IntegrationPoint :=
  set_ceilings
    (set_tank_pressure
       (IntegrationPoint_init
          (Waypoint_init 3 (ArgTime (Time_s 30)) (ArgTime (Time_s 1800)) 0))
       [100])
    (1%R :: repeat 0%R 15).

(** The respiration rate [_calculate_bottom] passes for the step from
    [prev_ip] to [ip]: the descent rate when the depth grows, the bottom
    rate otherwise. *)
Definition bottom_sac (params : Parameters) (prev_ip ip : IntegrationPoint) : Q :=
  if Qlt_bool (depth (waypoint prev_ip)) (depth (waypoint ip))
  then own_descent_sac params else own_bottom_sac params.

(** The respiration rate of the step that ends at index [k] of the
    integration points, in a profile whose bottom phase made the first [n]
    of them: every later point is made by an ascent loop or a stop, and
    those pass the ascent rate. *)
Definition phase_sac (params : Parameters) (n k : nat)
    (prev_ip ip : IntegrationPoint) : Q :=
  if (k <? n)%nat then bottom_sac params prev_ip ip else own_ascent_sac params.

(** The tank pressures of [ip] are those of [_calculate_tank_pressure] from
    [prev_ip] at the rate [sac]. *)
Definition consumes (tanks : list Tank) (sac : Q)
    (prev_ip ip : IntegrationPoint) : Prop :=
  _calculate_tank_pressure tanks ip prev_ip sac = Ok (tank_pressure ip).

(** The short dive with three seconds at the bottom, under three different
    respiration rates: 25 l/min on the way down, 20 at the bottom, 17 on
    the way up. *)
Definition rated_params : Parameters :=
  mkParameters 3 3 (1 # 2) (1 # 20) 10 20 25 20 17 17 1 1 true true true true
               "depth" 60 (Time_s 3).

Definition held_dive : list Waypoint :=
  [Waypoint_init 1 (ArgFloat (1 # 20)) ArgNone 0].

(** ** The gradient-factor divisor in double precision *)

(** The engine above computes on exact numbers.  Whether the divisor of the
    gradient-factor slope is zero is a question about the program's own
    arithmetic, so these lines of [_calculate_ceilings] are also given on
    binary64 numbers, the Python [float]: the maximum depth of the
    waypoints, [p_max = (p_max / 10) + 1], and the division by
    [1. - p_max], which raises when the divisor is zero. *)
Definition p_max_b64 (depths : list float) : float :=
  fold_left (fun p_max d => if (p_max <? d)%float then d else p_max)
    depths 0%float.

Definition gf_divisor_b64 (depths : list float) : float :=
  (1 - ((p_max_b64 depths / 10) + 1))%float.

Definition gf_slope_b64 (gf_high gf_low : float) (depths : list float)
    : result float :=
  let gf := (gf_high - gf_low)%float in
  let divisor := gf_divisor_b64 depths in
  if (divisor =? 0)%float then Raise ZeroDivisionError
  else Ok (gf / divisor)%float.

(** The depths of the waypoints the constructor realizes for the plan
    [Waypoint(depth=1e-16)]: the start of the descent, its end and the
    closing waypoint. *)
Definition grazing_depths : list float := [0; 1e-16; 1e-16]%float.

(** Binary64 numbers as [SpecFloat] gives them.  Positive numbers of
    exponent at least [k], and the positive infinity. *)
Definition deep_sf (k : Z) (f : spec_float) : Prop :=
  f = S754_infinity false
  \/ exists m e, f = S754_finite false m e /\ (k <= e)%Z.

(** Numbers above 1. *)
Definition above_one (f : spec_float) : Prop :=
  f = S754_infinity false
  \/ exists m e, f = S754_finite false m e /\ (-52 <= e)%Z
                 /\ (e = (-52)%Z -> (2 ^ 52 < Zpos m)%Z).

(** * Properties *)

(** ** Basic facts about the fallible layer *)

Lemma bind_Ok {A B : Type} (m : result A) (k : A -> result B) (b : B) :
  bind m k = Ok b -> exists a, m = Ok a /\ k a = Ok b.
Proof.
  destruct m as [a|e]; simpl; intros H; [exists a; auto | discriminate].
Qed.

Lemma Qlt_bool_iff (a b : Q) : Qlt_bool a b = true <-> a < b.
Proof.
  unfold Qlt_bool. rewrite negb_true_iff. split; intros H.
  - apply Qnot_le_lt. intros Hle. apply Qle_bool_iff in Hle. congruence.
  - destruct (Qle_bool b a) eqn:E; [|reflexivity].
    apply Qle_bool_iff in E. exfalso. exact (Qlt_not_le _ _ H E).
Qed.

Lemma Qlt_bool_false_iff (a b : Q) : Qlt_bool a b = false <-> b <= a.
Proof.
  unfold Qlt_bool. rewrite negb_false_iff. apply Qle_bool_iff.
Qed.

Lemma Qeq_bool_false_iff (a b : Q) : Qeq_bool a b = false <-> ~ a == b.
Proof.
  split; intros H.
  - intros E. apply Qeq_bool_iff in E. congruence.
  - destruct (Qeq_bool a b) eqn:E; [|reflexivity].
    apply Qeq_bool_iff in E. contradiction.
Qed.

Lemma pydiv_Ok (a b : Q) : ~ b == 0 -> pydiv a b = Ok (a / b).
Proof.
  intros H. unfold pydiv. apply Qeq_bool_false_iff in H. now rewrite H.
Qed.

Lemma pydiv_inv (a b q : Q) : pydiv a b = Ok q -> ~ b == 0 /\ q = a / b.
Proof.
  unfold pydiv. destruct (Qeq_bool b 0) eqn:E; [discriminate|].
  intros H. inversion H. split; [now apply Qeq_bool_false_iff | reflexivity].
Qed.

Lemma pydiv_zero (a b : Q) : b == 0 -> pydiv a b = Raise ZeroDivisionError.
Proof.
  intros H. unfold pydiv. apply Qeq_bool_iff in H. now rewrite H.
Qed.

Lemma getitem_Ok {A : Type} (xs : list A) (i : nat) (x : A) :
  nth_error xs i = Some x -> getitem xs i = Ok x.
Proof. unfold getitem. now intros ->. Qed.

Lemma getitem_inv {A : Type} (xs : list A) (i : nat) (x : A) :
  getitem xs i = Ok x -> nth_error xs i = Some x.
Proof. unfold getitem. destruct (nth_error xs i); congruence. Qed.

Lemma last_item_app {A : Type} (xs : list A) (x : A) :
  last_item (xs ++ [x]) = Ok x.
Proof. unfold last_item. now rewrite rev_app_distr. Qed.

Lemma setitem_spec {A : Type} (xs : list A) (i : nat) (v x : A) :
  nth_error xs i = Some x ->
  exists ys, setitem xs i v = Ok ys
    /\ List.length ys = List.length xs
    /\ nth_error ys i = Some v
    /\ forall j, j <> i -> nth_error ys j = nth_error xs j.
Proof.
  revert i. induction xs as [|y xs IH]; intros [|i] H; simpl in *; try discriminate.
  - exists (v :: xs). repeat split; auto.
    intros [|j] Hj; [congruence | reflexivity].
  - destruct (IH i H) as (ys & -> & Hlen & Hi & Hrest). simpl.
    exists (y :: ys). repeat split; simpl; auto.
    intros [|j] Hj; [reflexivity | apply Hrest; congruence].
Qed.

(** ** Gas mixtures *)

Lemma fraction_zero_iff (z : Z) : inject_Z z / 100 == 0 <-> z = 0%Z.
Proof.
  unfold Qeq, Qdiv, Qmult, Qinv, inject_Z; simpl. lia.
Qed.

Lemma Gas_mod_Ok (g : Gas) (pp_o2 : Q) :
  _O2 g <> 0%Z ->
  Gas_mod g pp_o2 = Ok (10 * (pp_o2 / (inject_Z (_O2 g) / 100) - 1)).
Proof.
  intros H. unfold Gas_mod. rewrite pydiv_Ok; [reflexivity|].
  now rewrite fraction_zero_iff.
Qed.

Lemma Gas_mod_oxygen_free (g : Gas) (pp_o2 : Q) :
  _O2 g = 0%Z -> Gas_mod g pp_o2 = Raise ZeroDivisionError.
Proof.
  intros H. unfold Gas_mod. rewrite pydiv_zero; [reflexivity|].
  now rewrite fraction_zero_iff.
Qed.

(** ** Tank selection *)

(** One step of the loop, by whether the tank is accepted. *)
Lemma _select_tank_loop_cons (t : Tank) (ts : list Tank) (idx : nat)
    (d pp_o2 : Q) (tk : nat) :
  _select_tank_loop (t :: ts) idx d pp_o2 0 tk =
  _select_tank_loop ts (S idx) d pp_o2 0 (if admits d pp_o2 t then idx else tk).
Proof.
  simpl. unfold admits. destruct (0 <? _O2 (_gas t))%Z eqn:E; simpl; [|reflexivity].
  apply Z.ltb_lt in E.
  rewrite Gas_mod_Ok by lia. simpl.
  now destruct (Qle_bool d _).
Qed.

(** [_select_tank] never raises. *)
Lemma _select_tank_loop_total (ts : list Tank) (idx : nat) (d pp_o2 : Q) (tk : nat) :
  exists r, _select_tank_loop ts idx d pp_o2 0 tk = Ok r.
Proof.
  revert idx tk. induction ts as [|t ts IH]; intros idx tk.
  - exists tk. reflexivity.
  - rewrite _select_tank_loop_cons. apply IH.
Qed.

(** What the loop returns: the position of the last accepted tank, and the
    incoming choice when no tank is accepted.  The oxygen content of the
    accepted tanks plays no part. *)
Lemma _select_tank_loop_last (ts : list Tank) (idx : nat) (d pp_o2 : Q) (tk r : nat) :
  _select_tank_loop ts idx d pp_o2 0 tk = Ok r ->
  (r = tk /\ Forall (fun t => admits d pp_o2 t = false) ts)
  \/ exists pre t post,
       ts = pre ++ t :: post /\ r = (idx + List.length pre)%nat
       /\ admits d pp_o2 t = true
       /\ Forall (fun t' => admits d pp_o2 t' = false) post.
Proof.
  revert idx tk. induction ts as [|t ts IH]; intros idx tk H.
  - left. simpl in H. inversion H. split; [reflexivity | constructor].
  - rewrite _select_tank_loop_cons in H.
    destruct (IH _ _ H) as [[Hr Hall] | (pre & t' & post & Hts & Hr & Ha & Hpost)].
    + destruct (admits d pp_o2 t) eqn:E.
      * right. exists [], t, ts. simpl. repeat split; auto. lia.
      * left. split; [assumption | now constructor].
    + right. exists (t :: pre), t', post. simpl. repeat split; auto.
      * now rewrite Hts.
      * lia.
Qed.

(** ** The gas-switch depth *)

(** The scan keeps the deepest limit that is shallower than [d]. *)
Lemma next_gas_stop_scan_spec (ts : list Tank) (d pp_o2 out r : Q) :
  next_gas_stop_scan ts d pp_o2 out = Ok r ->
  out <= r
  /\ (forall t m, In t ts -> Gas_mod (_gas t) pp_o2 = Ok m -> m < d -> m <= r)
  /\ (r = out \/ exists t, In t ts /\ Gas_mod (_gas t) pp_o2 = Ok r /\ r < d).
Proof.
  revert out. induction ts as [|t ts IH]; intros out H; simpl in H.
  - inversion H. subst. split; [apply Qle_refl|]. split; [intros ? ? []|now left].
  - apply bind_Ok in H. destruct H as (m & Hm & H).
    destruct (Qlt_bool m d) eqn:Emd.
    + destruct (Qlt_bool out m) eqn:Eom.
      * destruct (IH _ H) as (Hle & Hall & Hex).
        apply Qlt_bool_iff in Eom. apply Qlt_bool_iff in Emd.
        split; [apply Qle_trans with m; [now apply Qlt_le_weak | assumption]|].
        split.
        -- intros t' m' [<-|Hin] Hm' Hlt.
           ++ rewrite Hm in Hm'. inversion Hm'. now subst.
           ++ eapply Hall; eauto.
        -- right. destruct Hex as [->|(t' & Hin & Hr & Hlt)].
           ++ exists t. simpl. auto.
           ++ exists t'. simpl. auto.
      * destruct (IH _ H) as (Hle & Hall & Hex).
        apply Qlt_bool_false_iff in Eom.
        split; [assumption|]. split.
        -- intros t' m' [<-|Hin] Hm' Hlt.
           ++ rewrite Hm in Hm'. inversion Hm'. subst.
              now apply Qle_trans with out.
           ++ eapply Hall; eauto.
        -- destruct Hex as [->|(t' & Hin & Hr & Hlt)]; [now left|].
           right. exists t'. simpl. auto.
    + destruct (IH _ H) as (Hle & Hall & Hex).
      apply Qlt_bool_false_iff in Emd.
      split; [assumption|]. split.
      * intros t' m' [<-|Hin] Hm' Hlt.
        -- rewrite Hm in Hm'. inversion Hm'. subst.
           exfalso. exact (Qlt_not_le _ _ Hlt Emd).
        -- eapply Hall; eauto.
      * destruct Hex as [->|(t' & Hin & Hr & Hlt)]; [now left|].
        right. exists t'. simpl. auto.
Qed.

(** Whatever the scan finds and whatever the policy, the gas-switch depth
    the engine gets is 0. *)
Lemma _calculate_next_gas_stop_zero (tanks : list Tank) (params : Parameters)
    (d pp_o2 r : Q) :
  _calculate_next_gas_stop tanks params d pp_o2 = Ok r -> r = 0.
Proof.
  unfold _calculate_next_gas_stop. intros H.
  apply bind_Ok in H. destruct H as (out & _ & H).
  unfold Parameters_eq_str in H. now inversion H.
Qed.

Lemma _calculate_next_gas_stop_Ok (tanks : list Tank) (params : Parameters)
    (d pp_o2 : Q) :
  Forall (fun t => _O2 (_gas t) <> 0%Z) tanks ->
  _calculate_next_gas_stop tanks params d pp_o2 = Ok 0.
Proof.
  intros Hall. unfold _calculate_next_gas_stop.
  assert (H : exists out, next_gas_stop_scan tanks d pp_o2 0 = Ok out).
  { generalize 0 at 1. induction Hall as [|t ts Ht Hall IH]; intros out; simpl.
    - now exists out.
    - rewrite Gas_mod_Ok by assumption. simpl.
      destruct (Qlt_bool _ d); [destruct (Qlt_bool out _)|]; apply IH. }
  destruct H as (out & ->). reflexivity.
Qed.

(** In the staged ascent the gas-switch target therefore stays 0 through
    every pass of the outer loop, and the branch that inserts a gas-switch
    stop is never entered. *)
Lemma deco_outer_body_gas_stop (fuel : nat) (self : Profile) (st st' : deco_state) :
  ds_next_gas_stop st = 0 ->
  deco_outer_body fuel self st = Ok st' ->
  ds_next_gas_stop st' = 0.
Proof.
  intros H0 H. unfold deco_outer_body in H.
  apply bind_Ok in H. destruct H as ([st1 out] & Htravel & H). simpl in H.
  assert (H1 : ds_next_gas_stop st1 = 0).
  { clear H. revert st out H0 Htravel. generalize (@nil IntegrationPoint).
    induction fuel as [|fuel IH]; intros acc st out H0 H; simpl in H; [discriminate|].
    destruct (Qlt_bool (ds_next_stop st) _).
    - apply bind_Ok in H. destruct H as (ip & _ & H).
      apply bind_Ok in H. destruct H as (nd & _ & H).
      apply IH in H; auto.
    - inversion H. now subst. }
  rewrite H1 in H.
  apply bind_Ok in H. destruct H as (((segs & nd) & ns) & _ & H).
  change (Qlt_bool 0 0) with false in H. simpl in H.
  apply bind_Ok in H. destruct H as (p & _ & H). now inversion H.
Qed.

(** C1 (code defect).  With the gas-switch policy set to ['depth'], air in
    tank 0 and a 50% mix in tank 1, at 45 m the scan inside
    [_calculate_next_gas_stop] finds the limit of the richer tank (22 m at
    1.6 bar), yet the function returns 0: its final test compares the
    configuration object itself with the string, which is never equal. *)
Theorem C1_gas_switch_depth_lost :
  gas_switch Parameters_default = "depth"%string
  /\ (exists m, next_gas_stop_scan tanks_air_ean50 45 1.6 0 = Ok m /\ m == 22)
  /\ _calculate_next_gas_stop tanks_air_ean50 Parameters_default 45 1.6 = Ok 0.
Proof.
  split; [reflexivity|]. split.
  - eexists. split; [vm_compute; reflexivity | reflexivity].
  - apply _calculate_next_gas_stop_Ok.
    repeat constructor; simpl; lia.
Qed.

(** C5 (code defect).  At 10 m both tanks are within their limit at 1.6 bar
    and the 50% mix, at position 0, has the higher oxygen fraction, yet
    [_select_tank] answers position 1, the air tank: the running maximum
    [max_o2] is never updated, so the last accepted tank wins. *)
Theorem C5_select_tank_takes_last :
  _select_tank tanks_ean50_air 10 1.6 = Ok 1%nat
  /\ Forall (fun t => admits 10 1.6 t = true) tanks_ean50_air
  /\ (exists t0 t1, nth_error tanks_ean50_air 0 = Some t0
        /\ nth_error tanks_ean50_air 1 = Some t1
        /\ (_O2 (_gas t1) < _O2 (_gas t0))%Z).
Proof.
  split; [reflexivity|]. split.
  - repeat constructor.
  - eexists. eexists. repeat split.
Qed.

(** ** Tank pressure *)

(** One integration step takes, from the pressure of the tank that the
    previous point breathes from, the amount
    rate x average ambient pressure x segment duration / tank size, and
    carries the pressure of every other tank over unchanged. *)
Lemma _calculate_tank_pressure_step (tanks : list Tank) (ip prev_ip : IntegrationPoint)
    (sac : Q) (t : Tank) (p : Q) :
  nth_error tanks (tank (waypoint prev_ip)) = Some t ->
  ~ _size t == 0 ->
  nth_error (tank_pressure prev_ip) (tank (waypoint prev_ip)) = Some p ->
  exists out v,
    _calculate_tank_pressure tanks ip prev_ip sac = Ok out
    /\ List.length out = List.length (tank_pressure prev_ip)
    /\ nth_error out (tank (waypoint prev_ip)) = Some v
    /\ v == p - sac * ((p_amb ip + p_amb prev_ip) / 2)
                * _minutes (duration (waypoint prev_ip)) / _size t
    /\ forall j, j <> tank (waypoint prev_ip) ->
         nth_error out j = nth_error (tank_pressure prev_ip) j.
Proof.
  intros Ht Hsize Hp. unfold _calculate_tank_pressure.
  rewrite (getitem_Ok _ _ _ Ht). simpl.
  rewrite pydiv_Ok by assumption. simpl.
  rewrite (getitem_Ok _ _ _ Hp). simpl.
  destruct (setitem_spec (tank_pressure prev_ip) (tank (waypoint prev_ip))
              (p - sac * (p_amb ip + p_amb prev_ip) / 2 / _size t
                   * _minutes (duration (waypoint prev_ip))) p Hp)
    as (out & Hset & Hlen & Hnth & Hframe).
  exists out. eexists. split; [exact Hset|]. split; [exact Hlen|].
  split; [exact Hnth|]. split; [|exact Hframe].
  field. exact Hsize.
Qed.

(** ** The gradient-factor divisor *)

Lemma max_depth_fold_ge (wps : list Waypoint) (acc : Q) :
  acc <= fold_left
           (fun p_max wp => if Qlt_bool p_max (depth wp) then depth wp else p_max)
           wps acc.
Proof.
  revert acc. induction wps as [|wp wps IH]; intros acc; simpl.
  - apply Qle_refl.
  - destruct (Qlt_bool acc (depth wp)) eqn:E.
    + apply Qlt_bool_iff in E.
      apply Qle_trans with (depth wp); [now apply Qlt_le_weak | apply IH].
    + apply IH.
Qed.

Lemma max_depth_fold_In (wps : list Waypoint) (acc : Q) (wp : Waypoint) :
  In wp wps ->
  depth wp <= fold_left
                (fun p_max wp => if Qlt_bool p_max (depth wp) then depth wp else p_max)
                wps acc.
Proof.
  revert acc. induction wps as [|w wps IH]; intros acc Hin; [destruct Hin|].
  destruct Hin as [<-|Hin]; simpl.
  - destruct (Qlt_bool acc (depth w)) eqn:E.
    + apply max_depth_fold_ge.
    + apply Qlt_bool_false_iff in E.
      apply Qle_trans with acc; [assumption | apply max_depth_fold_ge].
  - now apply IH.
Qed.

Lemma max_depth_fold_flat (wps : list Waypoint) (acc : Q) :
  (forall wp, In wp wps -> depth wp <= acc) ->
  fold_left
    (fun p_max wp => if Qlt_bool p_max (depth wp) then depth wp else p_max)
    wps acc = acc.
Proof.
  induction wps as [|w wps IH]; intros H; simpl; [reflexivity|].
  assert (E : Qlt_bool acc (depth w) = false).
  { apply Qlt_bool_false_iff. apply H. now left. }
  rewrite E. apply IH. intros wp Hin. apply H. now right.
Qed.

Lemma gf_divisor_zero_iff (wps : list Waypoint) :
  gf_divisor wps == 0 <-> max_depth wps == 0.
Proof.
  unfold gf_divisor. split; intros H.
  - assert (E : max_depth wps == - (1 - (max_depth wps / 10 + 1)) * 10) by field.
    rewrite E, H. reflexivity.
  - rewrite H. reflexivity.
Qed.

(** The engine on exact numbers: when some realized waypoint lies below the
    surface, the divisor of the gradient-factor interpolation is not zero
    and the ceilings are computed; when no waypoint does, the division
    raises.  In double precision the first half needs a depth that the
    addition [(p_max / 10) + 1] does not absorb; see
    [gf_divisor_b64] below. *)
Lemma _calculate_ceilings_exact (wps : list Waypoint) (params : Parameters)
    (ip : IntegrationPoint) :
  ((exists wp, In wp wps /\ 0 < depth wp) ->
     ~ gf_divisor wps == 0
     /\ exists c, _calculate_ceilings wps params ip = Ok c)
  /\ ((forall wp, In wp wps -> depth wp <= 0) ->
        gf_divisor wps == 0
        /\ _calculate_ceilings wps params ip = Raise ZeroDivisionError).
Proof.
  split.
  - intros (wp & Hin & Hpos).
    assert (Hne : ~ gf_divisor wps == 0).
    { rewrite gf_divisor_zero_iff. intros E.
      pose proof (max_depth_fold_In wps 0 wp Hin) as Hle.
      fold (max_depth wps) in Hle. rewrite E in Hle.
      exact (Qlt_not_le _ _ Hpos Hle). }
    split; [exact Hne|].
    unfold _calculate_ceilings, gradient_factor.
    rewrite pydiv_Ok by exact Hne. simpl. eexists. reflexivity.
  - intros Hall.
    assert (E : max_depth wps = 0) by (apply max_depth_fold_flat; exact Hall).
    assert (Hz : gf_divisor wps == 0).
    { apply gf_divisor_zero_iff. rewrite E. reflexivity. }
    split; [exact Hz|].
    unfold _calculate_ceilings, gradient_factor.
    rewrite pydiv_zero by exact Hz. reflexivity.
Qed.

(** The constructor on a plan that never leaves the surface. *)
Lemma surface_profile_raises :
  Profile_init 64 surface_dive [Tank_default] Parameters_default
  = Raise ZeroDivisionError.
Proof. reflexivity. Qed.

(** ** The overall ceiling *)

Ltac run_engine :=
  lazy -[Q2R Rplus Rmult Rminus Rdiv Rinv Ropp exp ln Rpower IZR Rlt_dec Rmax].

Lemma fold_Rmax_ge (xs : list R) (x : R) : (x <= fold_left Rmax xs x)%R.
Proof.
  revert x. induction xs as [|y xs IH]; intros x; simpl.
  - lra.
  - apply Rle_trans with (Rmax x y); [apply Rmax_l | apply IH].
Qed.

Lemma fold_Rmax_upper (xs : list R) (x : R) :
  Forall (fun c => (c <= fold_left Rmax xs x)%R) xs.
Proof.
  revert x. induction xs as [|y xs IH]; intros x; simpl; constructor.
  - apply Rle_trans with (Rmax x y); [apply Rmax_r | apply fold_Rmax_ge].
  - apply IH.
Qed.

Lemma fold_Rmax_In (xs : list R) (x : R) : In (fold_left Rmax xs x) (x :: xs).
Proof.
  revert x. induction xs as [|y xs IH]; intros x; simpl.
  - now left.
  - destruct (IH (Rmax x y)) as [E|Hin].
    + unfold Rmax in E at 1. destruct (Rle_dec x y).
      * right. left. exact E.
      * left. exact E.
    + right. right. exact Hin.
Qed.

Lemma np_max_upper (xs : list R) : Forall (fun c => (c <= np_max xs)%R) xs.
Proof.
  destruct xs as [|x xs]; simpl; constructor.
  - apply fold_Rmax_ge.
  - apply fold_Rmax_upper.
Qed.

Lemma np_max_In (xs : list R) : xs = [] \/ In (np_max xs) xs.
Proof.
  destruct xs as [|x xs]; [now left | right]. apply fold_Rmax_In.
Qed.

(** C2, as amended.  The overall ceiling of an integration point is never
    negative and is the greatest of its per-compartment ceilings, floored at
    0; nothing is claimed of the sign of the per-compartment values. *)
Theorem C2_overall_ceiling (ip : IntegrationPoint) :
  (0 <= ceiling ip)%R
  /\ ceiling ip = Rmax 0 (np_max (ceilings ip))
  /\ Forall (fun c => (c <= np_max (ceilings ip))%R) (ceilings ip)
  /\ (ceilings ip = [] \/ In (np_max (ceilings ip)) (ceilings ip)).
Proof.
  repeat split.
  - unfold ceiling. destruct (Rlt_dec 0 (np_max (ceilings ip))); lra.
  - unfold ceiling, Rmax.
    destruct (Rlt_dec 0 (np_max (ceilings ip)));
      destruct (Rle_dec 0 (np_max (ceilings ip))); lra.
  - apply np_max_upper.
  - apply np_max_In.
Qed.

(** The first integration point of scenario A (air, 10 m for 2 minutes,
    default configuration) has a negative ceiling in compartment 1: about
    -12.4 m. *)
Lemma scenario_A_negative_ceiling :
  exists c, observe scenario_A_bottom 0 (fun ip => nth 0 (ceilings ip) 0%R) = Ok c
            /\ (c < 0)%R.
Proof.
  eexists. split.
  - run_engine. reflexivity.
  - unfold Q2R; simpl. field_simplify. lra.
Qed.

(** ** Tissue loading *)

Lemma nth_error_map_combine {A B C : Type} (f : A * B -> C) (xs : list A)
    (ys : list B) (i : nat) (x : A) (y : B) :
  nth_error xs i = Some x -> nth_error ys i = Some y ->
  nth_error (map f (combine xs ys)) i = Some (f (x, y)).
Proof.
  revert ys i. induction xs as [|a xs IH]; intros [|b ys] [|i] Hx Hy;
    simpl in *; try discriminate.
  - now inversion Hx; inversion Hy.
  - now apply IH.
Qed.

Lemma Q2R_pw : Q2R pw = 0.0567%R.
Proof. unfold Q2R, pw; simpl. lra. Qed.

(** The code's compartment update is the closed form of the specification. *)
Lemma schreiner_closed_form (f_ig : Q) (ip prev_ip : IntegrationPoint)
    (ht : Q) (p0 : R) :
  ~ _minutes (duration (waypoint prev_ip)) == 0 ->
  schreiner (f_ig * (p_amb ip - pw))
    ((depth (waypoint ip) - depth (waypoint prev_ip))
       / _minutes (duration (waypoint prev_ip)) * f_ig / 10)
    (_minutes (duration (waypoint prev_ip))) ht p0
  = Schreiner_closed_form f_ig (p_amb ip)
      (depth (waypoint ip) - depth (waypoint prev_ip))
      (_minutes (duration (waypoint prev_ip))) ht p0.
Proof.
  intros Hdt. unfold schreiner, Schreiner_closed_form.
  assert (Hpi : Q2R (f_ig * (p_amb ip - pw))
                = (Q2R f_ig * (Q2R (p_amb ip) - 0.0567))%R).
  { rewrite Q2R_mult, Q2R_minus, Q2R_pw. reflexivity. }
  assert (Hr : Q2R ((depth (waypoint ip) - depth (waypoint prev_ip))
                      / _minutes (duration (waypoint prev_ip)) * f_ig / 10)
               = (Q2R (depth (waypoint ip) - depth (waypoint prev_ip))
                  / Q2R (_minutes (duration (waypoint prev_ip))) / 10
                  * Q2R f_ig)%R).
  { rewrite Q2R_div by discriminate.
    rewrite Q2R_mult, Q2R_div by assumption.
    replace (Q2R 10) with 10%R by (unfold Q2R; simpl; lra).
    unfold Rdiv. ring. }
  rewrite Hpi, Hr. reflexivity.
Qed.

(** The update reads the new point only through its waypoint, and the
    previous point only through its waypoint and its loads. *)
Lemma _calculate_compartments_ext (tanks : list Tank)
    (ip prev_ip ip' prev_ip' : IntegrationPoint) :
  waypoint ip' = waypoint ip -> waypoint prev_ip' = waypoint prev_ip ->
  load_N2 prev_ip' = load_N2 prev_ip -> load_He prev_ip' = load_He prev_ip ->
  _calculate_compartments tanks ip' prev_ip'
  = _calculate_compartments tanks ip prev_ip.
Proof.
  intros Hw Hp Hn Hh.
  unfold _calculate_compartments, compartments_gas, p_amb.
  rewrite Hw, Hp, Hn, Hh. reflexivity.
Qed.

(** For a segment of non-zero duration breathed from an existing tank, each
    new compartment load, of nitrogen and of helium, is the Schreiner closed
    form of the previous load; and the result is a function of the two
    waypoints and the previous loads alone. *)
Lemma _calculate_compartments_step (tanks : list Tank) (ip prev_ip : IntegrationPoint)
    (t : Tank) :
  nth_error tanks (tank (waypoint prev_ip)) = Some t ->
  ~ _minutes (duration (waypoint prev_ip)) == 0 ->
  exists n2 he,
    _calculate_compartments tanks ip prev_ip = Ok (n2, he)
    /\ (forall i ht p0,
          nth_error ZH_L16.N2_ht i = Some ht ->
          nth_error (load_N2 prev_ip) i = Some p0 ->
          nth_error n2 i =
            Some (Schreiner_closed_form (Gas_fN2 (_gas t)) (p_amb ip)
                    (depth (waypoint ip) - depth (waypoint prev_ip))
                    (_minutes (duration (waypoint prev_ip))) ht p0))
    /\ (forall i ht p0,
          nth_error ZH_L16.He_ht i = Some ht ->
          nth_error (load_He prev_ip) i = Some p0 ->
          nth_error he i =
            Some (Schreiner_closed_form (Gas_fHe (_gas t)) (p_amb ip)
                    (depth (waypoint ip) - depth (waypoint prev_ip))
                    (_minutes (duration (waypoint prev_ip))) ht p0))
    /\ (forall ip' prev_ip',
          waypoint ip' = waypoint ip -> waypoint prev_ip' = waypoint prev_ip ->
          load_N2 prev_ip' = load_N2 prev_ip ->
          load_He prev_ip' = load_He prev_ip ->
          _calculate_compartments tanks ip' prev_ip' = Ok (n2, he)).
Proof.
  intros Ht Hdt.
  assert (Hrun : exists n2 he,
             _calculate_compartments tanks ip prev_ip = Ok (n2, he)
             /\ n2 = map (fun hp => schreiner
                            (Gas_fN2 (_gas t) * (p_amb ip - pw))
                            ((depth (waypoint ip) - depth (waypoint prev_ip))
                               / _minutes (duration (waypoint prev_ip))
                               * Gas_fN2 (_gas t) / 10)
                            (_minutes (duration (waypoint prev_ip)))
                            (fst hp) (snd hp))
                         (combine ZH_L16.N2_ht (load_N2 prev_ip))
             /\ he = map (fun hp => schreiner
                            (Gas_fHe (_gas t) * (p_amb ip - pw))
                            ((depth (waypoint ip) - depth (waypoint prev_ip))
                               / _minutes (duration (waypoint prev_ip))
                               * Gas_fHe (_gas t) / 10)
                            (_minutes (duration (waypoint prev_ip)))
                            (fst hp) (snd hp))
                         (combine ZH_L16.He_ht (load_He prev_ip))).
  { unfold _calculate_compartments, compartments_gas.
    rewrite (getitem_Ok _ _ _ Ht). simpl.
    rewrite pydiv_Ok by assumption. simpl.
    eexists. eexists. split; [reflexivity|]. split; reflexivity. }
  destruct Hrun as (n2 & he & Hrun & Hn2 & Hhe).
  exists n2, he. split; [exact Hrun|]. split; [|split].
  - intros i ht p0 Hht Hp0. subst n2.
    rewrite (nth_error_map_combine _ _ _ _ _ _ Hht Hp0). simpl.
    now rewrite schreiner_closed_form.
  - intros i ht p0 Hht Hp0. subst he.
    rewrite (nth_error_map_combine _ _ _ _ _ _ Hht Hp0). simpl.
    now rewrite schreiner_closed_form.
  - intros ip' prev_ip' Hw Hp Hn Hh. rewrite <- Hrun.
    now apply _calculate_compartments_ext.
Qed.

(** ** Depth interpolation *)

Lemma getitem_middle {A : Type} (xs ys : list A) (y : A) :
  getitem (xs ++ y :: ys) (List.length xs) = Ok y.
Proof.
  apply getitem_Ok. rewrite nth_error_app2 by lia.
  now rewrite Nat.sub_diag.
Qed.

Lemma getitem_past {A : Type} (xs : list A) (i : nat) :
  (List.length xs <= i)%nat -> getitem xs i = Raise IndexError.
Proof.
  intros H. unfold getitem. apply nth_error_None in H. now rewrite H.
Qed.

(** Waypoints that all lie after the instant leave the bracket as it is. *)
Lemma interpolate_scan_after (all rest : list Waypoint) (idx : nat) (rt : Z)
    (a b : option Waypoint) :
  Forall (fun wp => (rt < runtime_s wp)%Z) rest ->
  interpolate_scan all rest idx rt a b = Ok (Fell a b).
Proof.
  intros H. revert idx. induction H as [|wp rest Hwp _ IH]; intros idx; simpl.
  - reflexivity.
  - unfold runtime_s in Hwp.
    replace (rt =? _seconds (runtime wp))%Z with false by (symmetry; lia).
    replace (_seconds (runtime wp) <? rt)%Z with false by (symmetry; lia).
    apply IH.
Qed.

(** Waypoints that all lie before the instant are skipped, as long as one
    more waypoint follows them. *)
Lemma interpolate_scan_before (pre done tail : list Waypoint) (w : Waypoint)
    (rt : Z) (a b : option Waypoint) :
  Forall (fun wp => (runtime_s wp < rt)%Z) pre ->
  exists a' b',
    interpolate_scan (done ++ pre ++ w :: tail) (pre ++ w :: tail)
      (List.length done) rt a b
    = interpolate_scan (done ++ pre ++ w :: tail) (w :: tail)
        (List.length (done ++ pre)) rt a' b'.
Proof.
  intros H. revert done a b. induction H as [|p pre Hp _ IH]; intros done a b.
  - exists a, b. now rewrite app_nil_r.
  - unfold runtime_s in Hp.
    cbn [app interpolate_scan].
    replace (rt =? _seconds (runtime p))%Z with false by (symmetry; lia).
    replace (_seconds (runtime p) <? rt)%Z with true by (symmetry; lia).
    assert (Hnext : exists x, getitem (done ++ p :: pre ++ w :: tail)
                                (S (List.length done)) = Ok x).
    { replace (done ++ p :: pre ++ w :: tail)
        with ((done ++ [p]) ++ pre ++ w :: tail) by now rewrite <- app_assoc.
      replace (S (List.length done)) with (List.length (done ++ [p]))
        by (rewrite length_app; simpl; lia).
      destruct pre as [|q pre]; eexists; apply getitem_middle. }
    destruct Hnext as (x & ->). cbn [bind].
    destruct (IH (done ++ [p]) (Some p) (Some x)) as (a' & b' & E).
    exists a', b'.
    replace (done ++ p :: pre ++ w :: tail)
      with ((done ++ [p]) ++ pre ++ w :: tail) by now rewrite <- app_assoc.
    replace (S (List.length done)) with (List.length (done ++ [p]))
      by (rewrite length_app; simpl; lia).
    rewrite E. rewrite <- ?app_assoc. reflexivity.
Qed.

(** An instant before every waypoint: the interpolation error. *)
Lemma _interpolate_depth_before_range (wps : list Waypoint) (rt : Time) :
  Forall (fun wp => (_seconds rt < runtime_s wp)%Z) wps ->
  _interpolate_depth wps rt = Raise InterpolationError.
Proof.
  intros H. unfold _interpolate_depth.
  now rewrite interpolate_scan_after.
Qed.

(** An instant after every waypoint: the list is indexed past its end. *)
Lemma _interpolate_depth_after_range (wps : list Waypoint) (rt : Time) :
  wps <> [] ->
  Forall (fun wp => (runtime_s wp < _seconds rt)%Z) wps ->
  _interpolate_depth wps rt = Raise IndexError.
Proof.
  intros Hne H. unfold _interpolate_depth.
  destruct (exists_last Hne) as (pre & w & ->).
  apply Forall_app in H. destruct H as (Hpre & Hw).
  inversion Hw as [|? ? Hlt _]; subst. unfold runtime_s in Hlt.
  destruct (interpolate_scan_before pre [] [] w (_seconds rt) None None Hpre)
    as (a' & b' & E).
  simpl in E. rewrite E. cbn [interpolate_scan].
  replace (_seconds rt =? _seconds (runtime w))%Z with false by (symmetry; lia).
  replace (_seconds (runtime w) <? _seconds rt)%Z with true by (symmetry; lia).
  rewrite getitem_past; [reflexivity|].
  rewrite length_app. simpl. lia.
Qed.

(** X29.  An instant that is the runtime of a waypoint, the earlier ones
    lying before it: the depth of that waypoint, rounded to a tenth. *)
Lemma _interpolate_depth_at_waypoint (pre post : list Waypoint) (w : Waypoint)
    (rt : Time) :
  Forall (fun wp => (runtime_s wp < _seconds rt)%Z) pre ->
  runtime_s w = _seconds rt ->
  _interpolate_depth (pre ++ w :: post) rt = Ok (round1 (depth w)).
Proof.
  intros Hpre Hw. unfold _interpolate_depth. unfold runtime_s in Hw.
  destruct (interpolate_scan_before pre [] post w (_seconds rt) None None Hpre)
    as (a' & b' & E).
  simpl in E. rewrite E. cbn [interpolate_scan].
  replace (_seconds rt =? _seconds (runtime w))%Z with true by (symmetry; lia).
  reflexivity.
Qed.


(** C8 (code defect).  For an instant after the last realized waypoint the
    scan reads [self._waypoints[idx + 1]] past the end of the list and
    raises [IndexError]; the test [wp_1 is None] that would raise the
    interpolation error is never reached.  This happens in the bottom phase
    of a dive to 0.2 m for 0.01 minutes stepped every second, whose realized
    waypoints start at 0, 1 and 1 seconds while the stepping asks for
    second 2. *)
Theorem C8_interpolation_after_last_waypoint :
  _interpolate_depth two_waypoints (Time_s 120) = Raise IndexError
  /\ (exists wps, brief_dive_waypoints = Ok wps
        /\ map runtime_s wps = [0; 1; 1]%Z
        /\ _interpolate_depth wps (Time_s 2) = Raise IndexError)
  /\ brief_dive_bottom = Raise IndexError
  /\ Profile_init 64 [Waypoint_init 0.2 (ArgFloat 0.01) ArgNone 0]
       [Tank_default] (Parameters_with_dt (Time_s 1)) = Raise IndexError.
Proof.
  split; [reflexivity|]. split; [|split].
  - eexists. split; [vm_compute; reflexivity|]. split; reflexivity.
  - run_engine. reflexivity.
  - run_engine. reflexivity.
Qed.

(** ** One integration step of an ascent *)

(** What [ascent_point] returns: the waypoint it was given, with every
    field computed by the step function of that name from the previous
    point. *)
Lemma ascent_point_fields (self : Profile) (wp : Waypoint)
    (prev_ip ip : IntegrationPoint) :
  ascent_point self wp prev_ip = Ok ip ->
  waypoint ip = wp
  /\ _calculate_compartments (_tanks self) ip prev_ip
     = Ok (load_N2 ip, load_He ip)
  /\ _calculate_ceilings (_waypoints self) (_params self) ip = Ok (ceilings ip)
  /\ _calculate_tank_pressure (_tanks self) ip prev_ip
       (own_ascent_sac (_params self)) = Ok (tank_pressure ip)
  /\ _calculate_cns (_tanks self) ip prev_ip = Ok (cns ip)
  /\ cns_cum ip = (cns_cum prev_ip + cns ip)%R
  /\ _calculate_otu (_tanks self) ip prev_ip = Ok (otu ip)
  /\ otu_cum ip = (otu_cum prev_ip + otu ip)%R.
Proof.
  unfold ascent_point. intros H.
  apply bind_Ok in H. destruct H as ([n2 he] & Hl & H).
  apply bind_Ok in H. destruct H as (c & Hc & H).
  apply bind_Ok in H. destruct H as (tp & Htp & H).
  apply bind_Ok in H. destruct H as (cn & Hcn & H).
  apply bind_Ok in H. destruct H as (o & Ho & H).
  inversion H; subst ip; clear H. simpl.
  repeat split; assumption.
Qed.

(** ** Regular ascent *)

(** Every point of the safety stop is at the safety-stop depth. *)
Lemma safety_stop_loop_depth (fuel : nat) (self : Profile)
    (prev_ip : IntegrationPoint) (t timer : Z) (out res : list IntegrationPoint) :
  safety_stop_loop fuel self prev_ip t timer out = Ok res ->
  Forall (fun ip => depth (waypoint ip) = safety_stop_depth (_params self)) out ->
  Forall (fun ip => depth (waypoint ip) = safety_stop_depth (_params self)) res.
Proof.
  revert prev_ip t timer out.
  induction fuel as [|fuel IH]; intros prev_ip t timer out H Hout; simpl in H.
  - discriminate.
  - destruct (timer <? _)%Z.
    + apply bind_Ok in H. destruct H as (ip & Hip & H).
      apply (IH _ _ _ _ H). apply Forall_app. split; [exact Hout|].
      constructor; [|constructor].
      apply ascent_point_fields in Hip. destruct Hip as (-> & _). reflexivity.
    + inversion H. now subst.
Qed.

Lemma last_cons_default {A : Type} (x : A) (xs : list A) (a b : A) :
  List.last (x :: xs) a = List.last (x :: xs) b.
Proof.
  revert x. induction xs as [|y xs IH]; intros x; [reflexivity|].
  change (List.last (y :: xs) a = List.last (y :: xs) b). apply IH.
Qed.

(** A direct ascent only adds points, and when it ends the diver is not
    deeper than the target. *)
Lemma direct_ascent_loop_reaches (fuel : nat) (self : Profile) (d : Q)
    (prev_ip : IntegrationPoint) (t : Z) (out res : list IntegrationPoint) :
  direct_ascent_loop fuel self d prev_ip t out = Ok res ->
  exists new, res = (out ++ new)%list
              /\ depth (waypoint (List.last new prev_ip)) <= d.
Proof.
  revert prev_ip t out res.
  induction fuel as [|fuel IH]; intros prev_ip t out res H; simpl in H.
  - discriminate.
  - destruct (Qlt_bool d (depth (waypoint prev_ip))) eqn:E.
    + apply bind_Ok in H. destruct H as (ip & Hip & H).
      destruct (IH _ _ _ _ H) as (new & -> & Hlast).
      exists (ip :: new). split; [now rewrite <- app_assoc|].
      destruct new as [|x new]; [exact Hlast|].
      change (depth (waypoint (List.last (x :: new) prev_ip)) <= d).
      now rewrite (last_cons_default x new prev_ip ip).
    + inversion H. subst. exists []. split; [now rewrite app_nil_r|].
      simpl. now apply Qlt_bool_false_iff.
Qed.

(** The three segments of a regular ascent to a target not deeper than the
    safety stop, when each of the first two produces a point. *)
Lemma _calculate_regular_ascent_segments (fuel : nat) (self : Profile) (d : Q)
    (ip ip1 ip2 : IntegrationPoint) (seg1 seg2 seg3 : list IntegrationPoint) :
  Qlt_bool (safety_stop_depth (_params self)) d = false ->
  direct_ascent_loop fuel self (safety_stop_depth (_params self)) ip
    (_seconds (runtime (waypoint ip))) [] = Ok seg1 ->
  last_item seg1 = Ok ip1 ->
  safety_stop_loop fuel self ip1 (_seconds (runtime (waypoint ip1))) 0 [] = Ok seg2 ->
  last_item seg2 = Ok ip2 ->
  direct_ascent_loop fuel self d ip2 (_seconds (runtime (waypoint ip2))) [] = Ok seg3 ->
  _calculate_regular_ascent fuel self d ip false
  = Ok (self, (seg1 ++ seg2 ++ seg3)%list).
Proof.
  intros Hd H1 L1 H2 L2 H3.
  unfold _calculate_regular_ascent, _calculate_direct_ascent.
  rewrite Hd, H1. cbn [bind snd last_item rev app].
  rewrite L1. cbn [bind]. rewrite H2. cbn [bind].
  replace (last_item ([seg1] ++ [seg2])%list) with (Ok seg2) by reflexivity.
  cbn [bind]. rewrite L2. cbn [bind]. rewrite H3. cbn [bind snd].
  simpl. now rewrite app_nil_r.
Qed.

(** From a point that is not deeper than the safety stop, the regular
    ascent to a target that is not deeper either raises: its first segment
    is empty and [segments[-1][-1]] indexes it. *)
Lemma _calculate_regular_ascent_shallow (fuel : nat) (self : Profile) (d : Q)
    (ip : IntegrationPoint) (append : bool) :
  Qlt_bool (safety_stop_depth (_params self)) d = false ->
  depth (waypoint ip) <= safety_stop_depth (_params self) ->
  _calculate_regular_ascent (S fuel) self d ip append = Raise IndexError.
Proof.
  intros Hd Hip. apply Qlt_bool_false_iff in Hip.
  unfold _calculate_regular_ascent, _calculate_direct_ascent.
  rewrite Hd. cbn [direct_ascent_loop]. rewrite Hip. reflexivity.
Qed.

(** ** Configuration persistence *)

(** X30.  For every configuration, each option other than the time step
    comes back from [from_json] after [to_json] as it was written. *)
Lemma round_trip_scalar_options (p : Parameters) :
  Forall (fun k => getattr (from_json (to_json (Parameters_dict p))) k
                   = dict_get (Parameters_dict p) k)
         scalar_options.
Proof.
  unfold scalar_options.
  repeat (constructor; [vm_compute; reflexivity|]). constructor.
Qed.

(** The time step comes back as the dictionary of its three attributes. *)
Lemma round_trip_time_step (p : Parameters) :
  dict_get (Parameters_dict p) "dt" = Some (PyTime (dt p))
  /\ getattr (from_json (to_json (Parameters_dict p))) "dt"
     = Some (PyDict [("_minutes", PyFloat (_minutes (dt p)));
                     ("_seconds", PyInt (_seconds (dt p)));
                     ("_unit", PyStr (_unit (dt p)))]%string).
Proof.
  split; vm_compute; reflexivity.
Qed.

(** C9 (code defect).  Writing the default configuration with [to_json] and
    reading it back with [from_json] does not restore the time step: the
    attribute [dt], a [Time] before, is a plain dictionary afterwards, and
    the engine's [self._params.dt.seconds] raises on it.  [to_json] unfolds
    the nested object; [from_json] installs the parsed dictionary as it
    is. *)
Theorem C9_round_trip_loses_time_step :
  dict_get (Parameters_dict Parameters_default) "dt" = Some (PyTime (Time_s 5))
  /\ getattr (from_json (to_json (Parameters_dict Parameters_default))) "dt"
     = Some (PyDict [("_minutes", PyFloat (inject_Z 5 / 60));
                     ("_seconds", PyInt 5);
                     ("_unit", PyStr "s")]%string)
  /\ attr_seconds (PyTime (Time_s 5)) = Ok 5%Z
  /\ attr_seconds (PyDict [("_minutes", PyFloat (inject_Z 5 / 60));
                           ("_seconds", PyInt 5);
                           ("_unit", PyStr "s")]%string)
     = Raise AttributeError.
Proof.
  repeat split.
Qed.

(** ** Oxygen toxicity *)

Lemma noaa_lookup_sign (pp : Q) :
  noaa_lookup noaa_cns_equations pp = (0, 0)
  \/ (fst (noaa_lookup noaa_cns_equations pp) < 0
      /\ 0 < fst (noaa_lookup noaa_cns_equations pp) * pp
             + snd (noaa_lookup noaa_cns_equations pp)).
Proof.
  unfold noaa_cns_equations. cbn [noaa_lookup].
  repeat match goal with
  | |- context [if Qle_bool ?lo pp && Qle_bool pp ?hi then _ else _] =>
      let E := fresh "E" in
      destruct (Qle_bool lo pp && Qle_bool pp hi) eqn:E;
      [ right; apply andb_true_iff in E; destruct E as [E1 E2];
        apply Qle_bool_iff in E1; apply Qle_bool_iff in E2;
        cbn [fst snd]; split; [reflexivity | Lqa.lra]
      | clear E ]
  end.
  left. reflexivity.
Qed.

Lemma Q2R_nonneg (q : Q) : 0 <= q -> (0 <= Q2R q)%R.
Proof. intros H. rewrite <- RMicromega.Q2R_0. now apply Qle_Rle. Qed.

Lemma Q2R_pos (q : Q) : 0 < q -> (0 < Q2R q)%R.
Proof. intros H. rewrite <- RMicromega.Q2R_0. now apply Qlt_Rlt. Qed.

Lemma Qpos_of_nonneg (q : Q) : 0 <= q -> ~ q == 0 -> 0 < q.
Proof.
  intros H Hne. destruct (Qle_lt_or_eq _ _ H) as [Hlt|Heq]; [exact Hlt|].
  exfalso. apply Hne. now symmetry.
Qed.

Lemma Rdiv_same_sign (n d : R) :
  (d <> 0 -> (0 < d -> 0 <= n) -> (d < 0 -> n <= 0) -> 0 <= n / d)%R.
Proof.
  intros Hd Hpos Hneg. destruct (Rtotal_order d 0) as [Hlt|[Heq|Hgt]].
  - replace (n / d)%R with ((- n) / (- d))%R by (field; lra).
    apply Rmult_le_pos; [specialize (Hneg Hlt); lra|].
    left. apply Rinv_0_lt_compat. lra.
  - contradiction.
  - apply Rmult_le_pos; [now apply Hpos|].
    left. now apply Rinv_0_lt_compat.
Qed.

Lemma pylog_inv (x : Q) (l : R) : pylog x = Ok l -> 0 < x /\ l = ln (Q2R x).
Proof.
  unfold pylog. destruct (Qle_bool x 0) eqn:E; [discriminate|].
  intros H. inversion H. split; [|reflexivity].
  apply Qnot_le_lt. intros Hle. apply Qle_bool_iff in Hle. congruence.
Qed.

Lemma cns_segment_nonneg (segment_time pp_o2_ini pp_o2_end : Q)
    (same_depth : bool) (c : R) :
  0 <= segment_time ->
  same_depth = true \/ pp_o2_ini < 0.5 \/ pp_o2_end < 0.5
    \/ 0 < time_limit_line pp_o2_ini pp_o2_end ->
  cns_segment segment_time pp_o2_ini pp_o2_end same_depth = Ok c ->
  (0 <= c)%R.
Proof.
  intros Hseg Hcond. unfold cns_segment, time_limit_line in *.
  destruct (Qlt_bool pp_o2_ini 0.5 || Qlt_bool pp_o2_end 0.5) eqn:Elow.
  { intros H. inversion H. lra. }
  apply orb_false_iff in Elow. destruct Elow as (Ei & Ee).
  apply Qlt_bool_false_iff in Ei. apply Qlt_bool_false_iff in Ee.
  assert (Hcond' : same_depth = true
                   \/ 0 < fst (noaa_lookup noaa_cns_equations pp_o2_ini) * pp_o2_end
                          + snd (noaa_lookup noaa_cns_equations pp_o2_ini)).
  { destruct Hcond as [H|[H|[H|H]]]; [now left | | | now right].
    - exfalso. exact (Qlt_not_le _ _ H Ei).
    - exfalso. exact (Qlt_not_le _ _ H Ee). }
  clear Hcond Ei Ee. rename Hcond' into Hcond.
  pose proof (noaa_lookup_sign pp_o2_ini) as Hsign.
  set (m := fst (noaa_lookup noaa_cns_equations pp_o2_ini)) in *.
  set (b := snd (noaa_lookup noaa_cns_equations pp_o2_ini)) in *.
  cbv zeta.
  assert (Hmb : (m == 0 /\ b == 0) \/ (m < 0 /\ 0 < m * pp_o2_ini + b)).
  { destruct Hsign as [E|H]; [left | right; exact H].
    unfold m, b. rewrite E. split; reflexivity. }
  clear Hsign.
  destruct same_depth.
  - intros H. apply bind_Ok in H. destruct H as (q & Hq & H).
    apply pydiv_inv in Hq. destruct Hq as (Hne & ->). inversion H; subst c.
    destruct Hmb as [[Hm Hb]|[Hm Hlim]].
    + exfalso. apply Hne. rewrite Hm, Hb. ring.
    + apply Q2R_nonneg. apply Qle_shift_div_l; [exact Hlim|]. Lqa.lra.
  - destruct Hcond as [Hcond|Hline]; [discriminate|].
    intros H. apply bind_Ok in H. destruct H as (k & Hk & H).
    apply pydiv_inv in Hk. destruct Hk as (Hsne & Hk).
    apply bind_Ok in H. destruct H as (l1 & Hl1 & H).
    apply bind_Ok in H. destruct H as (l0 & Hl0 & H).
    destruct (Qeq_bool (m * k) 0) eqn:Emk; [discriminate|].
    apply Qeq_bool_false_iff in Emk. inversion H; subst c; clear H.
    apply pylog_inv in Hl1. destruct Hl1 as (_ & ->).
    apply pylog_inv in Hl0. destruct Hl0 as (_ & ->).
    destruct Hmb as [[Hm Hb]|[Hm Hlim]].
    { exfalso. apply Emk. rewrite Hm. ring. }
    assert (Hspos : 0 < segment_time) by now apply Qpos_of_nonneg.
    assert (Hks : k * segment_time == pp_o2_end - pp_o2_ini).
    { rewrite Hk. field. exact Hsne. }
    assert (Hend : m * pp_o2_ini + b + m * k * segment_time
                   == m * pp_o2_end + b).
    { rewrite <- Qmult_assoc, Hks. ring. }
    rewrite (Qeq_eqR _ _ (Qabs_pos _ (Qlt_le_weak _ _ Hlim))).
    assert (Hendpos : 0 <= m * pp_o2_ini + b + m * k * segment_time).
    { rewrite Hend. now apply Qlt_le_weak. }
    rewrite (Qeq_eqR _ _ (Qabs_pos _ Hendpos)).
    rewrite (Qeq_eqR _ _ Hend).
    apply Rdiv_same_sign.
    + intros E. apply Emk. apply eqR_Qeq. now rewrite RMicromega.Q2R_0.
    + intros Hd. rewrite <- RMicromega.Q2R_0 in Hd. apply Rlt_Qlt in Hd.
      assert (Hkneg : k * segment_time < 0) by Lqa.nra.
      rewrite Hks in Hkneg.
      assert (Hlt : m * pp_o2_ini + b < m * pp_o2_end + b) by Lqa.nra.
      apply Qlt_Rlt in Hlt.
      pose proof (ln_increasing _ _ (Q2R_pos _ Hlim) Hlt). lra.
    + intros Hd. rewrite <- RMicromega.Q2R_0 in Hd. apply Rlt_Qlt in Hd.
      assert (Hkpos : 0 < k * segment_time) by Lqa.nra.
      rewrite Hks in Hkpos.
      assert (Hlt : m * pp_o2_end + b < m * pp_o2_ini + b) by Lqa.nra.
      apply Qlt_Rlt in Hlt.
      pose proof (ln_increasing _ _ (Q2R_pos _ Hline) Hlt). lra.
Qed.

Lemma pypow_nonneg (x y : Q) : (0 <= pypow x y)%R.
Proof.
  unfold pypow. destruct (Qeq_bool x 0); [lra|].
  left. unfold Rpower. apply exp_pos.
Qed.

Lemma pypow_mono (x y p : Q) :
  0 <= x -> x <= y -> 0 <= p -> (pypow x p <= pypow y p)%R.
Proof.
  intros Hx Hxy Hp. unfold pypow.
  destruct (Qeq_bool x 0) eqn:Ex.
  - destruct (Qeq_bool y 0); [lra|]. left. unfold Rpower. apply exp_pos.
  - apply Qeq_bool_false_iff in Ex.
    pose proof (Qpos_of_nonneg x Hx Ex) as Hxpos.
    destruct (Qeq_bool y 0) eqn:Ey.
    + apply Qeq_bool_iff in Ey. exfalso. Lqa.lra.
    + apply Rle_Rpower_l; [now apply Q2R_nonneg|].
      split; [now apply Q2R_pos | now apply Qle_Rle].
Qed.

Lemma pymax_ge_l (a b : Q) : a <= pymax a b.
Proof.
  unfold pymax. destruct (Qlt_bool a b) eqn:E.
  - apply Qlt_bool_iff in E. now apply Qlt_le_weak.
  - apply Qle_refl.
Qed.

Lemma pymax_cases (a b : Q) :
  (a < b /\ pymax a b = b) \/ (b <= a /\ pymax a b = a).
Proof.
  unfold pymax. destruct (Qlt_bool a b) eqn:E.
  - left. split; [now apply Qlt_bool_iff | reflexivity].
  - right. split; [now apply Qlt_bool_false_iff | reflexivity].
Qed.

Lemma pymin_cases (a b : Q) :
  (b < a /\ pymin a b = b) \/ (a <= b /\ pymin a b = a).
Proof.
  unfold pymin. destruct (Qlt_bool b a) eqn:E.
  - left. split; [now apply Qlt_bool_iff | reflexivity].
  - right. split; [now apply Qlt_bool_false_iff | reflexivity].
Qed.

Lemma otu_segment_nonneg (segment_time pp_o2_ini pp_o2_end : Q)
    (same_depth : bool) (o : R) :
  0 <= segment_time ->
  otu_segment segment_time pp_o2_ini pp_o2_end same_depth = Ok o ->
  (0 <= o)%R.
Proof.
  intros Hseg. unfold otu_segment. destruct same_depth.
  - destruct (Qle_bool 0.5 pp_o2_ini).
    + intros H. apply bind_Ok in H. destruct H as (q & _ & H).
      inversion H. apply Rmult_le_pos; [now apply Q2R_nonneg | apply pypow_nonneg].
    + intros H. inversion H. lra.
  - cbv zeta.
    destruct (Qlt_bool (pymax pp_o2_ini pp_o2_end) 0.5) eqn:Emax.
    { intros H. inversion H. lra. }
    apply Qlt_bool_false_iff in Emax.
    intros H. apply bind_Ok in H. destruct H as (q & Hq & H).
    apply pydiv_inv in Hq. destruct Hq as (Hne & ->).
    destruct (Qeq_bool (pymax 0.5 pp_o2_end - pymax 0.5 pp_o2_ini) 0) eqn:Ed;
      [discriminate|].
    apply Qeq_bool_false_iff in Ed. inversion H; subst o; clear H.
    set (mx := pymax pp_o2_ini pp_o2_end) in *.
    set (mn := pymin pp_o2_ini pp_o2_end) in *.
    set (low := if Qlt_bool mn 0.5 then 0.5 else mn) in *.
    assert (Hmnmx : mn <= mx).
    { unfold mn, mx.
      destruct (pymax_cases pp_o2_ini pp_o2_end) as [[? ->]|[? ->]];
        destruct (pymin_cases pp_o2_ini pp_o2_end) as [[? ->]|[? ->]]; Lqa.lra. }
    assert (Hlow : low <= mx).
    { unfold low. destruct (Qlt_bool mn 0.5); assumption. }
    assert (Hq : 0 <= (mx - low) / (mx - mn)).
    { apply Qle_shift_div_l.
      - apply Qpos_of_nonneg; [Lqa.lra | exact Hne].
      - Lqa.lra. }
    assert (Hexp : 0 <= 3 * (segment_time * ((mx - low) / (mx - mn))) / 11).
    { apply Qle_shift_div_l; [reflexivity|].
      assert (0 <= segment_time * ((mx - low) / (mx - mn)))
        by now apply Qmult_le_0_compat.
      Lqa.lra. }
    set (e := pymax 0.5 pp_o2_end) in *.
    set (i := pymax 0.5 pp_o2_ini) in *.
    assert (He : 0.5 <= e) by apply pymax_ge_l.
    assert (Hi : 0.5 <= i) by apply pymax_ge_l.
    unfold Rdiv. rewrite Rmult_assoc.
    apply Rmult_le_pos; [now apply Q2R_nonneg|].
    apply Rdiv_same_sign.
    + intros E. apply Ed. apply eqR_Qeq. now rewrite RMicromega.Q2R_0.
    + intros Hd. rewrite <- RMicromega.Q2R_0 in Hd. apply Rlt_Qlt in Hd.
      assert (pypow ((i - 0.5) / 0.5) (11 # 6) <= pypow ((e - 0.5) / 0.5) (11 # 6))%R.
      { apply pypow_mono.
        - apply Qle_shift_div_l; [reflexivity | Lqa.lra].
        - apply Qmult_le_compat_r; [Lqa.lra | discriminate].
        - discriminate. }
      lra.
    + intros Hd. rewrite <- RMicromega.Q2R_0 in Hd. apply Rlt_Qlt in Hd.
      assert (pypow ((e - 0.5) / 0.5) (11 # 6) <= pypow ((i - 0.5) / 0.5) (11 # 6))%R.
      { apply pypow_mono.
        - apply Qle_shift_div_l; [reflexivity | Lqa.lra].
        - apply Qmult_le_compat_r; [Lqa.lra | discriminate].
        - discriminate. }
      lra.
Qed.

Lemma cns_segment_zero (segment_time pp_o2_ini pp_o2_end : Q) (same_depth : bool) :
  pp_o2_ini < 0.5 \/ pp_o2_end < 0.5 ->
  cns_segment segment_time pp_o2_ini pp_o2_end same_depth = Ok 0%R.
Proof.
  intros H. unfold cns_segment.
  replace (Qlt_bool pp_o2_ini 0.5 || Qlt_bool pp_o2_end 0.5) with true;
    [reflexivity|].
  symmetry. apply orb_true_iff.
  destruct H as [H|H]; [left | right]; now apply Qlt_bool_iff.
Qed.

Lemma otu_segment_zero (segment_time pp_o2_ini pp_o2_end : Q) (same_depth : bool) :
  pp_o2_ini < 0.5 -> pp_o2_end < 0.5 ->
  otu_segment segment_time pp_o2_ini pp_o2_end same_depth = Ok 0%R.
Proof.
  intros Hi He. unfold otu_segment. destruct same_depth.
  - replace (Qle_bool 0.5 pp_o2_ini) with false; [reflexivity|].
    symmetry. apply Qlt_bool_iff in Hi. unfold Qlt_bool in Hi.
    now apply negb_true_iff in Hi.
  - cbv zeta.
    replace (Qlt_bool (pymax pp_o2_ini pp_o2_end) 0.5) with true; [reflexivity|].
    symmetry. apply Qlt_bool_iff.
    destruct (pymax_cases pp_o2_ini pp_o2_end) as [[_ ->]|[_ ->]]; assumption.
Qed.

(** On a step of non-negative duration whose point carries the values the
    engine assigns, the OTU total does not decrease; the CNS total does not
    decrease when the depth is constant, or an end of the segment is below
    0.5 bar, or the time limit that the NOAA line chosen at the starting
    pressure gives at the ending pressure is positive; and both step values
    are exactly 0 when the oxygen pressure is below 0.5 bar at both ends. *)
Lemma toxicity_step (tanks : list Tank) (ip prev_ip : IntegrationPoint)
    (t0 t1 : Tank) :
  nth_error tanks (tank (waypoint prev_ip)) = Some t0 ->
  nth_error tanks (tank (waypoint ip)) = Some t1 ->
  _calculate_otu tanks ip prev_ip = Ok (otu ip) ->
  otu_cum ip = (otu_cum prev_ip + otu ip)%R ->
  _calculate_cns tanks ip prev_ip = Ok (cns ip) ->
  cns_cum ip = (cns_cum prev_ip + cns ip)%R ->
  let pp_o2_ini := Gas_ppO2 (_gas t0) (depth (waypoint prev_ip)) in
  let pp_o2_end := Gas_ppO2 (_gas t1) (depth (waypoint ip)) in
  (0 <= _minutes (duration (waypoint prev_ip)) ->
   (otu_cum prev_ip <= otu_cum ip)%R
   /\ (depth (waypoint ip) == depth (waypoint prev_ip)
       \/ pp_o2_ini < 0.5 \/ pp_o2_end < 0.5
       \/ 0 < time_limit_line pp_o2_ini pp_o2_end ->
       (cns_cum prev_ip <= cns_cum ip)%R))
  /\ (pp_o2_ini < 0.5 -> pp_o2_end < 0.5 -> cns ip = 0%R /\ otu ip = 0%R).
Proof.
  intros Ht0 Ht1 Hotu Hocum Hcns Hccum pp_o2_ini pp_o2_end.
  unfold _calculate_otu in Hotu. unfold _calculate_cns in Hcns.
  rewrite (getitem_Ok _ _ _ Ht0) in Hotu, Hcns.
  rewrite (getitem_Ok _ _ _ Ht1) in Hotu, Hcns.
  cbn [bind] in Hotu, Hcns.
  fold pp_o2_ini pp_o2_end in Hotu, Hcns.
  split; [intros Hseg; split|].
  - pose proof (otu_segment_nonneg _ _ _ _ _ Hseg Hotu). lra.
  - intros Hcond.
    assert (0 <= cns ip)%R; [|lra].
    apply (cns_segment_nonneg _ _ _ _ _ Hseg) in Hcns; [exact Hcns|].
    destruct Hcond as [H|H]; [left | right; exact H].
    now apply Qeq_bool_iff.
  - intros Hi He.
    rewrite cns_segment_zero in Hcns by now left.
    rewrite otu_segment_zero in Hotu by assumption.
    inversion Hcns. inversion Hotu. split; reflexivity.
Qed.

(** C7, the claim as stated fails.  A 60% mix taken from the surface to
    15 m in one 45-second step: the oxygen pressure goes from 0.6 to 1.5
    bar, the line chosen at 0.6 bar is negative at 1.5 bar, and the CNS
    total of the second integration point, (ln 900 - ln 720) / (-2160), is
    below the total 0 of the first. *)
Lemma C7_counterexample :
  exists c0 c1,
    observe rich_descent_bottom 0 cns_cum = Ok c0
    /\ observe rich_descent_bottom 1 cns_cum = Ok c1
    /\ (c1 < c0)%R.
Proof.
  eexists. eexists. split; [|split].
  - run_engine. reflexivity.
  - run_engine. reflexivity.
  - unfold Q2R; simpl.
    assert (H : (ln (720000 * / 1000) < ln (2430000000000000 * / 2700000000000))%R).
    { apply ln_increasing; lra. }
    assert (D : (-97200000000 * / 45000000 = - 2160)%R) by lra.
    rewrite D. lra.
Qed.

(** ** The points of the other loops *)

(** A point of either loop of a decompression stop. *)
Lemma deco_stop_point_1_fields (self : Profile) (wp : Waypoint)
    (prev_ip ip : IntegrationPoint) (stop_time : Z) :
  deco_stop_point_1 self wp prev_ip stop_time = Ok ip ->
  _calculate_compartments (_tanks self) ip prev_ip = Ok (load_N2 ip, load_He ip)
  /\ _calculate_tank_pressure (_tanks self) ip prev_ip
       (own_ascent_sac (_params self)) = Ok (tank_pressure ip)
  /\ _calculate_cns (_tanks self) ip prev_ip = Ok (cns ip)
  /\ cns_cum ip = (cns_cum prev_ip + cns ip)%R
  /\ _calculate_otu (_tanks self) ip prev_ip = Ok (otu ip)
  /\ otu_cum ip = (otu_cum prev_ip + otu ip)%R.
Proof.
  unfold deco_stop_point_1. intros H.
  apply bind_Ok in H. destruct H as ([n2 he] & Hl & H).
  apply bind_Ok in H. destruct H as (c & _ & H).
  apply bind_Ok in H. destruct H as (ip1 & H1 & H).
  apply bind_Ok in H. destruct H as (tp & Htp & H).
  apply bind_Ok in H. destruct H as (cn & Hcn & H).
  apply bind_Ok in H. destruct H as (o & Ho & H).
  inversion H; subst ip; clear H.
  destruct (switch_due (_params self) stop_time).
  - apply bind_Ok in H1. destruct H1 as (tk & _ & H1).
    inversion H1; subst ip1; clear H1. simpl. repeat split; assumption.
  - inversion H1; subst ip1; clear H1. simpl. repeat split; assumption.
Qed.

Lemma deco_stop_point_2_fields (self : Profile) (wp : Waypoint)
    (prev_ip ip : IntegrationPoint) (stop_time : Z) :
  deco_stop_point_2 self wp prev_ip stop_time = Ok ip ->
  _calculate_compartments (_tanks self) ip prev_ip = Ok (load_N2 ip, load_He ip)
  /\ _calculate_tank_pressure (_tanks self) ip prev_ip
       (own_ascent_sac (_params self)) = Ok (tank_pressure ip)
  /\ _calculate_cns (_tanks self) ip prev_ip = Ok (cns ip)
  /\ cns_cum ip = (cns_cum prev_ip + cns ip)%R
  /\ _calculate_otu (_tanks self) ip prev_ip = Ok (otu ip)
  /\ otu_cum ip = (otu_cum prev_ip + otu ip)%R.
Proof.
  unfold deco_stop_point_2. intros H.
  apply bind_Ok in H. destruct H as ([n2 he] & Hl & H).
  apply bind_Ok in H. destruct H as (c & _ & H).
  apply bind_Ok in H. destruct H as (tp & Htp & H).
  apply bind_Ok in H. destruct H as (ip1 & H1 & H).
  apply bind_Ok in H. destruct H as (cn & Hcn & H).
  apply bind_Ok in H. destruct H as (o & Ho & H).
  inversion H; subst ip; clear H.
  destruct (switch_due (_params self) stop_time).
  - apply bind_Ok in H1. destruct H1 as (tk & _ & H1).
    inversion H1; subst ip1; clear H1. simpl. repeat split; assumption.
  - inversion H1; subst ip1; clear H1. simpl. repeat split; assumption.
Qed.

(** Each of the four ways the engine makes a point from its predecessor
    establishes the step relation. *)
Lemma ascent_point_step (self : Profile) (wp : Waypoint)
    (prev_ip ip : IntegrationPoint) :
  ascent_point self wp prev_ip = Ok ip ->
  engine_step (_tanks self) (_params self) prev_ip ip.
Proof.
  intros H. apply ascent_point_fields in H.
  destruct H as (_ & Hl & _ & Htp & Hc & Hcc & Ho & Hoc).
  repeat split; try assumption.
  exists (own_ascent_sac (_params self)). split; [simpl; auto | exact Htp].
Qed.

Lemma bottom_point_step (self : Profile) (t : Z)
    (pre : list IntegrationPoint) (prev_ip ip : IntegrationPoint) :
  _integration_points self = (pre ++ [prev_ip])%list ->
  bottom_point self t = Ok ip ->
  engine_step (_tanks self) (_params self) prev_ip ip.
Proof.
  intros Hips. unfold bottom_point. rewrite Hips, rev_app_distr. cbn [rev app].
  intros H.
  apply bind_Ok in H. destruct H as (d & _ & H).
  apply bind_Ok in H. destruct H as (ip1 & H1 & H).
  apply bind_Ok in H. destruct H as (c & _ & H).
  inversion H; subst ip; clear H.
  apply bind_Ok in H1. destruct H1 as ([n2 he] & Hl & H1).
  apply bind_Ok in H1. destruct H1 as (tp & Htp & H1).
  apply bind_Ok in H1. destruct H1 as (cn & Hcn & H1).
  apply bind_Ok in H1. destruct H1 as (o & Ho & H1).
  inversion H1; subst ip1; clear H1.
  unfold engine_step. simpl.
  repeat split; try assumption.
  eexists. split; [|exact Htp].
  cbn [waypoint set_loads set_tank_pressure].
  destruct (Qlt_bool _ _); simpl; auto.
Qed.

Lemma deco_stop_point_1_step (self : Profile) (wp : Waypoint)
    (prev_ip ip : IntegrationPoint) (stop_time : Z) :
  deco_stop_point_1 self wp prev_ip stop_time = Ok ip ->
  engine_step (_tanks self) (_params self) prev_ip ip.
Proof.
  intros H. apply deco_stop_point_1_fields in H.
  destruct H as (Hl & Htp & Hc & Hcc & Ho & Hoc).
  repeat split; try assumption.
  exists (own_ascent_sac (_params self)). split; [simpl; auto | exact Htp].
Qed.

Lemma deco_stop_point_2_step (self : Profile) (wp : Waypoint)
    (prev_ip ip : IntegrationPoint) (stop_time : Z) :
  deco_stop_point_2 self wp prev_ip stop_time = Ok ip ->
  engine_step (_tanks self) (_params self) prev_ip ip.
Proof.
  intros H. apply deco_stop_point_2_fields in H.
  destruct H as (Hl & Htp & Hc & Hcc & Ho & Hoc).
  repeat split; try assumption.
  exists (own_ascent_sac (_params self)). split; [simpl; auto | exact Htp].
Qed.

(** ** Chains of integration points *)

Lemma last_item_inv {A : Type} (xs : list A) (x : A) :
  last_item xs = Ok x -> exists xs', xs = (xs' ++ [x])%list.
Proof.
  unfold last_item. destruct (rev xs) as [|y r] eqn:E; [discriminate|].
  intros H. inversion H; subst y. exists (rev r).
  rewrite <- (rev_involutive xs), E. reflexivity.
Qed.

Lemma last_item_app_r {A : Type} (xs ys : list A) (y : A) :
  last_item ys = Ok y -> last_item (xs ++ ys) = Ok y.
Proof.
  intros H. apply last_item_inv in H. destruct H as (ys' & ->).
  rewrite app_assoc. apply last_item_app.
Qed.

Lemma chain_nil (R : IntegrationPoint -> IntegrationPoint -> Prop) : chain R [].
Proof. intros [|i] a b H; discriminate. Qed.

Lemma chain_single (R : IntegrationPoint -> IntegrationPoint -> Prop)
    (x : IntegrationPoint) : chain R [x].
Proof. intros [|[|i]] a b Ha Hb; discriminate. Qed.

Lemma chain_snoc (R : IntegrationPoint -> IntegrationPoint -> Prop)
    (l : list IntegrationPoint) (x y : IntegrationPoint) :
  chain R (l ++ [x]) -> R x y -> chain R ((l ++ [x]) ++ [y]).
Proof.
  intros Hc Hxy i a b Ha Hb.
  destruct (Nat.lt_ge_cases (S i) (List.length (l ++ [x]))) as [Hlt|Hge].
  - rewrite nth_error_app1 in Ha by lia. rewrite nth_error_app1 in Hb by lia.
    exact (Hc i a b Ha Hb).
  - rewrite length_app in Hge. simpl in Hge.
    assert (Hlen : nth_error ((l ++ [x]) ++ [y]) (S i) <> None) by congruence.
    apply nth_error_Some in Hlen. rewrite !length_app in Hlen. simpl in Hlen.
    assert (i = List.length l) by lia. subst i.
    rewrite nth_error_app1 in Ha by (rewrite length_app; simpl; lia).
    rewrite nth_error_app2 in Ha by lia. rewrite Nat.sub_diag in Ha.
    assert (Hl : List.length (l ++ [x]) = S (List.length l))
      by (rewrite length_app; simpl; lia).
    rewrite nth_error_app2 in Hb by lia.
    rewrite Hl, Nat.sub_diag in Hb.
    simpl in Ha, Hb. inversion Ha; inversion Hb; subst. exact Hxy.
Qed.

Lemma last_of_last_concat (segments : list (list IntegrationPoint))
    (x : IntegrationPoint) (base : list IntegrationPoint) :
  last_of_last segments = Ok x ->
  last_item (base ++ List.concat segments) = Ok x.
Proof.
  unfold last_of_last. intros H.
  apply bind_Ok in H. destruct H as (seg & Hseg & Hx).
  apply last_item_inv in Hseg. destruct Hseg as (segs' & ->).
  rewrite concat_app. simpl. rewrite app_nil_r.
  rewrite app_assoc. now apply last_item_app_r.
Qed.

Section StepChain.

Variable R : list Tank -> Parameters -> IntegrationPoint -> IntegrationPoint -> Prop.

Hypothesis R_ascent : forall self wp prev_ip ip,
  ascent_point self wp prev_ip = Ok ip ->
  R (_tanks self) (_params self) prev_ip ip.
Hypothesis R_bottom : forall self t pre prev_ip ip,
  _integration_points self = (pre ++ [prev_ip])%list ->
  bottom_point self t = Ok ip ->
  R (_tanks self) (_params self) prev_ip ip.
Hypothesis R_deco_1 : forall self wp prev_ip ip stop_time,
  deco_stop_point_1 self wp prev_ip stop_time = Ok ip ->
  R (_tanks self) (_params self) prev_ip ip.
Hypothesis R_deco_2 : forall self wp prev_ip ip stop_time,
  deco_stop_point_2 self wp prev_ip stop_time = Ok ip ->
  R (_tanks self) (_params self) prev_ip ip.

Lemma chain_step (tanks : list Tank) (params : Parameters)
    (base out : list IntegrationPoint) (prev_ip ip : IntegrationPoint) :
  last_item (base ++ out) = Ok prev_ip ->
  chain (R tanks params) (base ++ out) ->
  R tanks params prev_ip ip ->
  chain (R tanks params) (base ++ out ++ [ip])
  /\ last_item (base ++ out ++ [ip]) = Ok ip.
Proof.
  intros Hlast Hc Hr. rewrite app_assoc. split; [|apply last_item_app].
  apply last_item_inv in Hlast. destruct Hlast as (l & E).
  rewrite E in *. now apply chain_snoc.
Qed.

Lemma direct_ascent_loop_chain (fuel : nat) (self : Profile) (d : Q)
    (base : list IntegrationPoint) :
  forall prev_ip t out res,
    direct_ascent_loop fuel self d prev_ip t out = Ok res ->
    last_item (base ++ out) = Ok prev_ip ->
    chain (R (_tanks self) (_params self)) (base ++ out) ->
    chain (R (_tanks self) (_params self)) (base ++ res).
Proof.
  induction fuel as [|fuel IH]; intros prev_ip t out res H Hlast Hc;
    simpl in H; [discriminate|].
  destruct (Qlt_bool d (depth (waypoint prev_ip))).
  - apply bind_Ok in H. destruct H as (ip & Hip & H).
    destruct (chain_step _ _ _ _ _ ip Hlast Hc (R_ascent _ _ _ _ Hip))
      as (Hc' & Hlast').
    exact (IH _ _ _ _ H Hlast' Hc').
  - inversion H. now subst.
Qed.

Lemma safety_stop_loop_chain (fuel : nat) (self : Profile)
    (base : list IntegrationPoint) :
  forall prev_ip t timer out res,
    safety_stop_loop fuel self prev_ip t timer out = Ok res ->
    last_item (base ++ out) = Ok prev_ip ->
    chain (R (_tanks self) (_params self)) (base ++ out) ->
    chain (R (_tanks self) (_params self)) (base ++ res).
Proof.
  induction fuel as [|fuel IH]; intros prev_ip t timer out res H Hlast Hc;
    simpl in H; [discriminate|].
  destruct (timer <? _)%Z.
  - apply bind_Ok in H. destruct H as (ip & Hip & H).
    destruct (chain_step _ _ _ _ _ ip Hlast Hc (R_ascent _ _ _ _ Hip))
      as (Hc' & Hlast').
    exact (IH _ _ _ _ _ H Hlast' Hc').
  - inversion H. now subst.
Qed.

Lemma deco_hold_loop_chain (fuel : nat) (self : Profile) (d : Q)
    (base : list IntegrationPoint) :
  forall next_deco_stop st st',
    deco_hold_loop fuel self d next_deco_stop st = Ok st' ->
    stop_inv (R (_tanks self) (_params self)) base st ->
    stop_inv (R (_tanks self) (_params self)) base st'.
Proof.
  induction fuel as [|fuel IH]; intros nds st st' H (Hlast & Hc);
    simpl in H; [discriminate|].
  destruct (Rlt_dec _ _).
  - apply bind_Ok in H. destruct H as (ip & Hip & H).
    apply bind_Ok in H. destruct H as (nds' & _ & H).
    destruct (chain_step _ _ _ _ _ ip Hlast Hc (R_deco_1 _ _ _ _ _ Hip))
      as (Hc' & Hlast').
    destruct (Qlt_bool nds' d).
    + inversion H. subst. split; assumption.
    + apply (IH _ _ _ H). split; assumption.
  - inversion H. subst. split; assumption.
Qed.

Lemma deco_minute_loop_chain (fuel : nat) (self : Profile) (d : Q)
    (base : list IntegrationPoint) :
  forall st st',
    deco_minute_loop fuel self d st = Ok st' ->
    stop_inv (R (_tanks self) (_params self)) base st ->
    stop_inv (R (_tanks self) (_params self)) base st'.
Proof.
  induction fuel as [|fuel IH]; intros st st' H (Hlast & Hc);
    simpl in H; [discriminate|].
  destruct (negb _).
  - apply bind_Ok in H. destruct H as (ip & Hip & H).
    apply (IH _ _ H).
    destruct (chain_step _ _ _ _ _ ip Hlast Hc (R_deco_2 _ _ _ _ _ Hip))
      as (Hc' & Hlast').
    split; assumption.
  - inversion H. subst. split; assumption.
Qed.

Lemma _add_deco_stop_chain (fuel : nat) (self : Profile) (d : Q)
    (base s : list IntegrationPoint) (prev_ip : IntegrationPoint) :
  _add_deco_stop fuel self d prev_ip = Ok s ->
  last_item base = Ok prev_ip ->
  chain (R (_tanks self) (_params self)) base ->
  chain (R (_tanks self) (_params self)) (base ++ s).
Proof.
  unfold _add_deco_stop. intros H Hlast Hc.
  apply bind_Ok in H. destruct H as (nds & _ & H).
  apply bind_Ok in H. destruct H as (st1 & H1 & H).
  apply bind_Ok in H. destruct H as (st2 & H2 & H).
  inversion H; subst s.
  apply (deco_hold_loop_chain _ _ _ base) in H1.
  - apply (deco_minute_loop_chain _ _ _ base) in H2; [apply H2 | exact H1].
  - split; simpl; rewrite app_nil_r; assumption.
Qed.

Lemma deco_travel_loop_chain (fuel : nat) (self : Profile)
    (base : list IntegrationPoint) :
  forall st out st' out',
    deco_travel_loop fuel self st out = Ok (st', out') ->
    last_item (base ++ out) = Ok (ds_prev_ip st) ->
    chain (R (_tanks self) (_params self)) (base ++ out) ->
    last_item (base ++ out') = Ok (ds_prev_ip st')
    /\ chain (R (_tanks self) (_params self)) (base ++ out')
    /\ ds_segments st' = ds_segments st
    /\ ds_next_gas_stop st' = ds_next_gas_stop st.
Proof.
  induction fuel as [|fuel IH]; intros st out st' out' H Hlast Hc;
    simpl in H; [discriminate|].
  destruct (Qlt_bool _ _).
  - apply bind_Ok in H. destruct H as (ip & Hip & H).
    apply bind_Ok in H. destruct H as (nds & _ & H).
    destruct (chain_step _ _ _ _ _ ip Hlast Hc (R_ascent _ _ _ _ Hip))
      as (Hc' & Hlast').
    apply IH in H; [exact H | exact Hlast' | exact Hc'].
  - inversion H. subst. repeat split; assumption.
Qed.

(** One pass of the outer loop of the staged ascent.  The gas-switch target
    is 0 on entry and on exit, so the pass never inserts a gas-switch
    stop. *)
Lemma deco_outer_body_chain (fuel : nat) (self : Profile)
    (base : list IntegrationPoint) (st st' : deco_state) :
  deco_outer_body fuel self st = Ok st' ->
  ds_next_gas_stop st = 0 ->
  last_item (base ++ List.concat (ds_segments st)) = Ok (ds_prev_ip st) ->
  chain (R (_tanks self) (_params self)) (base ++ List.concat (ds_segments st)) ->
  ds_next_gas_stop st' = 0
  /\ last_item (base ++ List.concat (ds_segments st')) = Ok (ds_prev_ip st')
  /\ chain (R (_tanks self) (_params self))
       (base ++ List.concat (ds_segments st')).
Proof.
  intros H Hgas Hlast Hc.
  split; [exact (deco_outer_body_gas_stop _ _ _ _ Hgas H)|].
  unfold deco_outer_body in H.
  apply bind_Ok in H. destruct H as ([st1 out] & Htravel & H).
  cbn [fst snd] in H.
  apply (deco_travel_loop_chain _ _ (base ++ List.concat (ds_segments st)))
    in Htravel;
    [|rewrite app_nil_r; exact Hlast | rewrite app_nil_r; exact Hc].
  destruct Htravel as (_ & Hc1 & Hsegs & Hgas1).
  rewrite Hgas in Hgas1. rewrite Hgas1 in H.
  set (segments1 := match out with
                    | [] => ds_segments st1
                    | _ :: _ => (ds_segments st1 ++ [out])%list
                    end) in H.
  assert (Hc1' : chain (R (_tanks self) (_params self))
                   (base ++ List.concat segments1)).
  { unfold segments1. rewrite Hsegs. destruct out as [|x out].
    - now rewrite app_nil_r in Hc1.
    - rewrite concat_app. simpl. rewrite app_nil_r.
      now rewrite <- app_assoc in Hc1. }
  clearbody segments1. clear Hc1 Hsegs Hlast Hc.
  apply bind_Ok in H. destruct H as (((segments2 & nds2) & ns2) & H2 & H).
  assert (Hc2 : chain (R (_tanks self) (_params self))
                  (base ++ List.concat segments2)).
  { destruct (Qlt_bool 0 (ds_next_deco_stop st1)
              && Qlt_bool 0 (ds_next_deco_stop st1)).
    - apply bind_Ok in H2. destruct H2 as (from_ip & Hfrom & H2).
      apply bind_Ok in H2. destruct H2 as (s & Hs & H2).
      apply bind_Ok in H2. destruct H2 as (ip & _ & H2).
      apply bind_Ok in H2. destruct H2 as (nds & _ & H2).
      inversion H2; subst.
      rewrite concat_app. simpl. rewrite app_nil_r, app_assoc.
      apply (_add_deco_stop_chain _ _ _ _ _ _ Hs); [|exact Hc1'].
      now apply last_of_last_concat.
    - inversion H2; subst. exact Hc1'. }
  clear H2 Hc1'.
  change (Qlt_bool 0 0) with false in H. cbn [andb bind] in H.
  apply bind_Ok in H. destruct H as (prev_ip & Hprev & H).
  inversion H; subst st'; clear H. cbn [ds_segments ds_prev_ip].
  split; [now apply last_of_last_concat | exact Hc2].
Qed.

Lemma deco_outer_loop_chain (fuel inner : nat) (self : Profile) (d : Q)
    (base : list IntegrationPoint) :
  forall st st',
    deco_outer_loop fuel inner self d st = Ok st' ->
    ds_next_gas_stop st = 0 ->
    last_item (base ++ List.concat (ds_segments st)) = Ok (ds_prev_ip st) ->
    chain (R (_tanks self) (_params self)) (base ++ List.concat (ds_segments st)) ->
    chain (R (_tanks self) (_params self)) (base ++ List.concat (ds_segments st')).
Proof.
  induction fuel as [|fuel IH]; intros st st' H Hgas Hlast Hc;
    simpl in H; [discriminate|].
  destruct (Qlt_bool _ _).
  - apply bind_Ok in H. destruct H as (st1 & Hbody & H).
    destruct (deco_outer_body_chain _ _ _ _ _ Hbody Hgas Hlast Hc)
      as (Hgas1 & Hlast1 & Hc1).
    exact (IH _ _ H Hgas1 Hlast1 Hc1).
  - inversion H. now subst.
Qed.

Lemma append_segment_points (self self' : Profile) (s : list IntegrationPoint) :
  append_segment self s = Ok self' ->
  _integration_points self' = (_integration_points self ++ s)%list
  /\ _tanks self' = _tanks self /\ _params self' = _params self.
Proof.
  unfold append_segment. intros H.
  apply bind_Ok in H. destruct H as (s_last & _ & H).
  apply bind_Ok in H. destruct H as (s_first & _ & H).
  apply bind_Ok in H. destruct H as (w_last & _ & H).
  inversion H. simpl. auto.
Qed.

Lemma append_segments_points (segments : list (list IntegrationPoint)) :
  forall self self',
    append_segments self segments = Ok self' ->
    _integration_points self'
    = (_integration_points self ++ List.concat segments)%list
    /\ _tanks self' = _tanks self /\ _params self' = _params self.
Proof.
  induction segments as [|s segments IH]; intros self self' H; simpl in H.
  - inversion H. subst. rewrite app_nil_r. auto.
  - apply bind_Ok in H. destruct H as (self1 & H1 & H).
    apply append_segment_points in H1. destruct H1 as (E1 & T1 & P1).
    apply IH in H. destruct H as (E & T & P).
    rewrite E, E1, T, T1, P, P1. simpl. rewrite <- app_assoc. auto.
Qed.

Lemma _calculate_deco_ascent_chain (fuel : nat) (self self' : Profile) (d : Q)
    (ip : IntegrationPoint) (out : list IntegrationPoint) :
  _calculate_deco_ascent fuel self d ip true = Ok (self', out) ->
  last_item (_integration_points self) = Ok ip ->
  chain (R (_tanks self) (_params self)) (_integration_points self) ->
  chain (R (_tanks self') (_params self')) (_integration_points self').
Proof.
  unfold _calculate_deco_ascent. intros H Hlast Hc.
  apply bind_Ok in H. destruct H as (nds & _ & H).
  apply bind_Ok in H. destruct H as (ngs & Hngs & H).
  apply _calculate_next_gas_stop_zero in Hngs. subst ngs.
  apply bind_Ok in H. destruct H as (st & Hloop & H).
  apply bind_Ok in H. destruct H as (self1 & Happ & H).
  inversion H; subst self1 out; clear H.
  apply append_segments_points in Happ. destruct Happ as (-> & -> & ->).
  apply (deco_outer_loop_chain _ _ _ _ _ _ _ Hloop); simpl;
    [reflexivity | rewrite app_nil_r; assumption ..].
Qed.

Lemma _calculate_direct_ascent_chain (fuel : nat) (self self' : Profile) (d : Q)
    (ip : IntegrationPoint) (out : list IntegrationPoint) :
  _calculate_direct_ascent fuel self d ip true = Ok (self', out) ->
  last_item (_integration_points self) = Ok ip ->
  chain (R (_tanks self) (_params self)) (_integration_points self) ->
  chain (R (_tanks self') (_params self')) (_integration_points self').
Proof.
  unfold _calculate_direct_ascent. intros H Hlast Hc.
  apply bind_Ok in H. destruct H as (res & Hloop & H).
  apply bind_Ok in H. destruct H as (self1 & Happ & H).
  inversion H; subst self1 out; clear H.
  apply append_segment_points in Happ. destruct Happ as (-> & -> & ->).
  apply (direct_ascent_loop_chain _ _ _ _ _ _ _ _ Hloop);
    rewrite app_nil_r; assumption.
Qed.

Lemma _calculate_regular_ascent_chain (fuel : nat) (self self' : Profile) (d : Q)
    (ip : IntegrationPoint) (out : list IntegrationPoint) :
  _calculate_regular_ascent fuel self d ip true = Ok (self', out) ->
  last_item (_integration_points self) = Ok ip ->
  chain (R (_tanks self) (_params self)) (_integration_points self) ->
  chain (R (_tanks self') (_params self')) (_integration_points self').
Proof.
  unfold _calculate_regular_ascent, _calculate_direct_ascent.
  intros H Hlast Hc.
  apply bind_Ok in H. destruct H as (segments & Hsegs & H).
  apply bind_Ok in H. destruct H as (self1 & Happ & H).
  inversion H; subst self1 out; clear H.
  apply append_segments_points in Happ. destruct Happ as (-> & -> & ->).
  destruct (Qlt_bool (safety_stop_depth (_params self)) d).
  - apply bind_Ok in Hsegs. destruct Hsegs as (r & Hr & Hsegs).
    apply bind_Ok in Hr. destruct Hr as (seg1 & H1 & Hr).
    inversion Hr; subst r. inversion Hsegs; subst segments. simpl.
    rewrite app_nil_r.
    apply (direct_ascent_loop_chain _ _ _ _ _ _ _ _ H1);
      rewrite app_nil_r; assumption.
  - apply bind_Ok in Hsegs. destruct Hsegs as (r & Hr & Hsegs).
    apply bind_Ok in Hr. destruct Hr as (seg1 & H1 & Hr).
    inversion Hr; subst r; clear Hr. cbn [snd] in Hsegs.
    apply bind_Ok in Hsegs. destruct Hsegs as (seg & Hseg & Hsegs).
    cbn in Hseg. inversion Hseg; subst seg; clear Hseg.
    apply bind_Ok in Hsegs. destruct Hsegs as (ip1 & Hip1 & Hsegs).
    apply bind_Ok in Hsegs. destruct Hsegs as (seg2 & H2 & Hsegs).
    apply bind_Ok in Hsegs. destruct Hsegs as (seg & Hseg & Hsegs).
    cbn in Hseg. inversion Hseg; subst seg; clear Hseg.
    apply bind_Ok in Hsegs. destruct Hsegs as (ip2 & Hip2 & Hsegs).
    apply bind_Ok in Hsegs. destruct Hsegs as (r & Hr & Hsegs).
    apply bind_Ok in Hr. destruct Hr as (seg3 & H3 & Hr).
    inversion Hr; subst r; clear Hr. inversion Hsegs; subst segments.
    simpl. rewrite app_nil_r.
    assert (C1 : chain (R (_tanks self) (_params self))
                   (_integration_points self ++ seg1)).
    { apply (direct_ascent_loop_chain _ _ _ _ _ _ _ _ H1);
        rewrite app_nil_r; assumption. }
    assert (C2 : chain (R (_tanks self) (_params self))
                   ((_integration_points self ++ seg1) ++ seg2)).
    { apply (safety_stop_loop_chain _ _ _ _ _ _ _ _ H2);
        rewrite app_nil_r; [now apply last_item_app_r | exact C1]. }
    rewrite !app_assoc.
    apply (direct_ascent_loop_chain _ _ _ _ _ _ _ _ H3);
      rewrite app_nil_r; [now apply last_item_app_r | exact C2].
Qed.

Lemma bottom_while_chain (fuel : nat) :
  forall self bound t t' self',
    bottom_while fuel self bound t = Ok (t', self') ->
    chain (R (_tanks self) (_params self)) (_integration_points self) ->
    chain (R (_tanks self') (_params self')) (_integration_points self')
    /\ _waypoints self' = _waypoints self.
Proof.
  induction fuel as [|fuel IH]; intros self bound t t' self' H Hc;
    simpl in H; [discriminate|].
  destruct (t <=? bound)%Z.
  - apply bind_Ok in H. destruct H as (ip & Hip & H).
    apply IH in H; [exact H|]. simpl.
    destruct (_integration_points self) as [|x xs] eqn:E using rev_ind.
    + apply chain_single.
    + clear IHxs. apply chain_snoc; [exact Hc|].
      exact (R_bottom _ _ _ _ _ E Hip).
  - inversion H. subst. auto.
Qed.

Lemma bottom_for_chain (fuel : nat) (wps : list Waypoint) :
  forall self t self',
    bottom_for fuel self wps t = Ok self' ->
    chain (R (_tanks self) (_params self)) (_integration_points self) ->
    chain (R (_tanks self') (_params self')) (_integration_points self').
Proof.
  induction wps as [|wp wps IH]; intros self t self' H Hc; simpl in H.
  - inversion H. now subst.
  - destruct (_ <? t)%Z.
    + exact (IH _ _ _ H Hc).
    + apply bind_Ok in H. destruct H as ([t1 self1] & Hw & H).
      apply bottom_while_chain in Hw; [|exact Hc].
      destruct Hw as (Hc1 & _). exact (IH _ _ _ H Hc1).
Qed.

(** Every pair of consecutive integration points of a constructed profile
    stands in the relation. *)
Lemma Profile_init_chain (fuel : nat) (waypoints : list Waypoint)
    (tanks : list Tank) (params : Parameters) (self : Profile) :
  Profile_init fuel waypoints tanks params = Ok self ->
  chain (R (_tanks self) (_params self)) (_integration_points self).
Proof.
  unfold Profile_init. intros H.
  apply bind_Ok in H. destruct H as (wps & _ & H).
  apply bind_Ok in H. destruct H as (self1 & Hbottom & H).
  apply bind_Ok in H. destruct H as (last_ip & Hlast & H).
  apply bind_Ok in H. destruct H as (r & _ & H).
  apply bind_Ok in H. destruct H as (end_ip & _ & H).
  assert (Hc : chain (R (_tanks self1) (_params self1))
                 (_integration_points self1)).
  { apply (bottom_for_chain _ _ _ _ _ Hbottom). apply chain_nil. }
  cbv zeta in H. unfold Profile_ascend in H.
  destruct (Rlt_dec 0 (ceiling end_ip));
    [|destruct (safety_stop (_params self1))].
  - apply bind_Ok in H. destruct H as ([self2 out] & Hrun & H).
    inversion H; subst self2.
    exact (_calculate_deco_ascent_chain _ _ _ _ _ _ Hrun Hlast Hc).
  - apply bind_Ok in H. destruct H as ([self2 out] & Hrun & H).
    inversion H; subst self2.
    exact (_calculate_regular_ascent_chain _ _ _ _ _ _ Hrun Hlast Hc).
  - apply bind_Ok in H. destruct H as ([self2 out] & Hrun & H).
    inversion H; subst self2.
    exact (_calculate_direct_ascent_chain _ _ _ _ _ _ Hrun Hlast Hc).
Qed.

End StepChain.

(** ** The step relations along a constructed profile *)

Lemma bottom_while_state (fuel : nat) :
  forall self bound t t' self',
    bottom_while fuel self bound t = Ok (t', self') ->
    _tanks self' = _tanks self /\ _params self' = _params self.
Proof.
  induction fuel as [|fuel IH]; intros self bound t t' self' H;
    simpl in H; [discriminate|].
  destruct (t <=? bound)%Z.
  - apply bind_Ok in H. destruct H as (ip & _ & H).
    apply IH in H. exact H.
  - inversion H. subst. auto.
Qed.

Lemma bottom_for_state (fuel : nat) (wps : list Waypoint) :
  forall self t self',
    bottom_for fuel self wps t = Ok self' ->
    _tanks self' = _tanks self /\ _params self' = _params self.
Proof.
  induction wps as [|wp wps IH]; intros self t self' H; simpl in H.
  - inversion H. subst. auto.
  - destruct (_ <? t)%Z.
    + exact (IH _ _ _ H).
    + apply bind_Ok in H. destruct H as ([t1 self1] & Hw & H).
      apply bottom_while_state in Hw. destruct Hw as (T1 & P1).
      apply IH in H. destruct H as (T & P). simpl in T, P.
      rewrite T, P, T1, P1. auto.
Qed.

(** The constructor keeps the tanks and the configuration it was given. *)
Lemma Profile_init_state (fuel : nat) (waypoints : list Waypoint)
    (tanks : list Tank) (params : Parameters) (self : Profile) :
  Profile_init fuel waypoints tanks params = Ok self ->
  _tanks self = tanks /\ _params self = params.
Proof.
  unfold Profile_init. intros H.
  apply bind_Ok in H. destruct H as (wps & _ & H).
  apply bind_Ok in H. destruct H as (self1 & Hbottom & H).
  apply bind_Ok in H. destruct H as (last_ip & _ & H).
  apply bind_Ok in H. destruct H as (r & _ & H).
  apply bind_Ok in H. destruct H as (end_ip & _ & H).
  apply bottom_for_state in Hbottom. simpl in Hbottom.
  destruct Hbottom as (T1 & P1).
  cbv zeta in H. unfold Profile_ascend in H.
  destruct (Rlt_dec 0 (ceiling end_ip));
    [|destruct (safety_stop (_params self1))].
  - apply bind_Ok in H. destruct H as ([self2 out] & Hrun & H).
    inversion H; subst self2; clear H.
    unfold _calculate_deco_ascent in Hrun.
    apply bind_Ok in Hrun. destruct Hrun as (nds & _ & Hrun).
    apply bind_Ok in Hrun. destruct Hrun as (ngs & _ & Hrun).
    apply bind_Ok in Hrun. destruct Hrun as (st & _ & Hrun).
    apply bind_Ok in Hrun. destruct Hrun as (self2 & Happ & Hrun).
    inversion Hrun; subst self2.
    apply append_segments_points in Happ. destruct Happ as (_ & -> & ->). auto.
  - apply bind_Ok in H. destruct H as ([self2 out] & Hrun & H).
    inversion H; subst self2; clear H.
    unfold _calculate_regular_ascent in Hrun.
    apply bind_Ok in Hrun. destruct Hrun as (segments & _ & Hrun).
    apply bind_Ok in Hrun. destruct Hrun as (self2 & Happ & Hrun).
    inversion Hrun; subst self2.
    apply append_segments_points in Happ. destruct Happ as (_ & -> & ->). auto.
  - apply bind_Ok in H. destruct H as ([self2 out] & Hrun & H).
    inversion H; subst self2; clear H.
    unfold _calculate_direct_ascent in Hrun.
    apply bind_Ok in Hrun. destruct Hrun as (res & _ & Hrun).
    apply bind_Ok in Hrun. destruct Hrun as (self2 & Happ & Hrun).
    inversion Hrun; subst self2.
    apply append_segment_points in Happ. destruct Happ as (_ & -> & ->). auto.
Qed.

(** Along every constructed profile, each integration point stands in the
    step relation to the point before it. *)
Lemma Profile_init_steps (fuel : nat) (waypoints : list Waypoint)
    (tanks : list Tank) (params : Parameters) (self : Profile) :
  Profile_init fuel waypoints tanks params = Ok self ->
  chain (engine_step tanks params) (_integration_points self).
Proof.
  intros H. destruct (Profile_init_state _ _ _ _ _ H) as (T & P).
  rewrite <- T, <- P.
  apply (Profile_init_chain engine_step) with (5 := H).
  - exact ascent_point_step.
  - exact bottom_point_step.
  - exact deco_stop_point_1_step.
  - exact deco_stop_point_2_step.
Qed.

(** ** A complete run of the constructor *)

Lemma ln2_pos : (0 < ln 2)%R.
Proof. pose proof ln_lt_2. lra. Qed.

(** The closed form keeps a load between the previous load and the inspired
    pressure, up to the pressure change of the segment. *)
Lemma schreiner_bounds (pi r dtm ht : Q) (p0 lo hi d : R) :
  0 < ht -> 0 <= dtm ->
  (lo <= p0 <= hi)%R -> (lo <= Q2R pi <= hi)%R ->
  (- d <= Q2R r * Q2R dtm <= d)%R ->
  (lo - d <= schreiner pi r dtm ht p0 <= hi + d)%R.
Proof.
  intros Hht Hdt Hp0 Hpi Hr. unfold schreiner.
  assert (Hh : (0 < Q2R ht)%R) by (rewrite <- RMicromega.Q2R_0; now apply Qlt_Rlt).
  assert (HT : (0 <= Q2R dtm)%R) by (rewrite <- RMicromega.Q2R_0; now apply Qle_Rle).
  pose proof ln2_pos as Hln.
  set (k := (ln 2 / Q2R ht)%R).
  assert (Hk : (0 < k)%R) by (unfold k; now apply Rdiv_lt_0_compat).
  set (T := Q2R dtm) in *. set (P := Q2R pi) in *. set (rr := Q2R r) in *.
  set (e := exp (- k * T)).
  assert (He0 : (0 < e)%R) by apply exp_pos.
  assert (He1 : (e <= 1)%R).
  { unfold e. rewrite <- exp_0.
    destruct (Req_dec (k * T) 0) as [E|E].
    - replace (- k * T)%R with 0%R by lra. lra.
    - left. apply exp_increasing. nra. }
  assert (He2 : (1 - e <= k * T)%R).
  { pose proof (exp_ineq1_le (- k * T)). fold e in H. lra. }
  set (u := (T - (1 - e) / k)%R).
  assert (Hu0 : (0 <= u)%R).
  { unfold u.
    assert (Hinv : (0 < / k)%R) by now apply Rinv_0_lt_compat.
    assert (H1 : ((1 - e) * / k <= (k * T) * / k)%R)
      by (apply Rmult_le_compat_r; lra).
    replace ((k * T) * / k)%R with T in H1 by (field; lra).
    unfold Rdiv. lra. }
  assert (Hu1 : (u <= T)%R).
  { unfold u. assert (0 <= (1 - e) / k)%R; [|lra].
    apply Rmult_le_pos; [lra|]. left. now apply Rinv_0_lt_compat. }
  assert (E : (P + rr * (T - 1 / k) - (P - p0 - rr / k) * e
               = P * (1 - e) + p0 * e + rr * u)%R).
  { unfold u. field. lra. }
  rewrite E.
  assert (Hru : (- d <= rr * u <= d)%R).
  { destruct (Rle_dec 0 rr) as [Hpos|Hneg].
    - assert (0 <= rr * u)%R by now apply Rmult_le_pos.
      assert (rr * u <= rr * T)%R by now apply Rmult_le_compat_l.
      lra.
    - assert (rr * T <= rr * u)%R by nra.
      assert (rr * u <= 0)%R by nra.
      lra. }
  assert (Hc : (lo <= P * (1 - e) + p0 * e <= hi)%R) by nra.
  lra.
Qed.


Ltac run_steps :=
  lazy -[Q2R Rplus Rmult Rminus Rdiv Rinv Ropp exp ln Rpower IZR Rlt_dec Rmax
         schreiner ceiling_compartment ceiling Profile_ascend].

Lemma schreiner_within (pi r dtm ht : Q) (p0 lo hi d lo' hi' : R) :
  0 < ht -> 0 <= dtm ->
  (lo <= p0 <= hi)%R -> (lo <= Q2R pi <= hi)%R ->
  (- d <= Q2R r * Q2R dtm <= d)%R ->
  (lo' <= lo - d)%R -> (hi + d <= hi')%R ->
  (lo' <= schreiner pi r dtm ht p0 <= hi')%R.
Proof.
  intros Hht Hdt Hp0 Hpi Hr Hlo Hhi.
  pose proof (schreiner_bounds pi r dtm ht p0 lo hi d Hht Hdt Hp0 Hpi Hr). lra.
Qed.

Lemma schreiner_zero (pi r dtm ht : Q) :
  Q2R pi = 0%R -> Q2R r = 0%R -> schreiner pi r dtm ht 0 = 0%R.
Proof.
  intros Hpi Hr. unfold schreiner. rewrite Hpi, Hr. unfold Rdiv. ring.
Qed.

Lemma ceiling_compartment_nonpos (gf a_n2 b_n2 a_he b_he : Q) (l_n2 l_he : R) :
  Q2R gf = 1%R -> l_he = 0%R -> (0 < l_n2 <= 12 / 10)%R ->
  (2 / 10 <= Q2R a_n2)%R -> (0 < Q2R b_n2 <= 1)%R ->
  (ceiling_compartment gf a_n2 b_n2 a_he b_he l_n2 l_he <= 0)%R.
Proof.
  intros Hgf -> Hl Ha Hb. unfold ceiling_compartment. rewrite Hgf.
  replace ((l_n2 + 0 - (Q2R a_n2 * l_n2 + Q2R a_he * 0) / (l_n2 + 0) * 1)
           / (1 / ((Q2R b_n2 * l_n2 + Q2R b_he * 0) / (l_n2 + 0)) - 1 + 1))%R
    with ((l_n2 - Q2R a_n2) * Q2R b_n2)%R by (field; lra).
  nra.
Qed.

Lemma ceiling_zero (ip : IntegrationPoint) :
  Forall (fun c => (c <= 0)%R) (ceilings ip) -> ceiling ip = 0%R.
Proof.
  intros H. unfold ceiling.
  destruct (Rlt_dec 0 (np_max (ceilings ip))) as [Hlt|]; [|reflexivity].
  exfalso. destruct (np_max_In (ceilings ip)) as [E|Hin].
  - rewrite E in Hlt. simpl in Hlt. lra.
  - rewrite Forall_forall in H. specialize (H _ Hin). lra.
Qed.

Ltac q2r := unfold Q2R; simpl; lra.

Ltac bound_load :=
  apply (schreiner_within _ _ _ _ _ (58 / 100) (102 / 100) (4 / 100));
    [ reflexivity | discriminate
    | apply (schreiner_within _ _ _ _ _ (62 / 100) (98 / 100) (4 / 100));
        [ reflexivity | discriminate
        | apply (schreiner_within _ _ _ _ _ (7 / 10) (9 / 10) (8 / 100));
            [ reflexivity | discriminate | q2r | q2r | q2r | lra | lra ]
        | q2r | q2r | lra | lra ]
    | q2r | q2r | lra | lra ].

Ltac bound_nitrogen :=
  match goal with
  | |- (0 < ?l <= _)%R =>
      assert (54 / 100 <= l <= 106 / 100)%R by bound_load; lra
  end.

Ltac no_helium :=
  apply schreiner_zero; [q2r | q2r].

(** The decision [deco_dive] of the short dive: the last point of the
    provisional ascent has every compartment ceiling at or below 0. *)
Ltac no_obligation :=
  match goal with
  | |- context [Rlt_dec 0 (ceiling ?e)] =>
      let Hc := fresh "Hc" in
      assert (Hc : ceiling e = 0%R)
        by (apply ceiling_zero; cbn [ceilings];
            repeat (constructor;
                    [ apply ceiling_compartment_nonpos;
                      [ q2r
                      | rewrite schreiner_zero; [|q2r|q2r];
                        rewrite schreiner_zero; [|q2r|q2r];
                        no_helium
                      | bound_nitrogen
                      | q2r | q2r ]
                    | ]);
            constructor);
      rewrite Hc; destruct (Rlt_dec 0 0) as [?|_]; [lra|]
  end.

(** A complete run of the constructor: air to 1 m, stepped every 3 seconds,
    with a safety stop of 3 seconds at 0.5 m.  The provisional ascent ends
    with every compartment ceiling at or below 0, so the regular ascent is
    taken: up to the stop, one step held there, up to the surface.  The
    first integration point has a negative ceiling in compartment 1. *)
Lemma short_profile_constructed :
  exists self,
    Profile_init 64 short_dive [Tank_default] short_params = Ok self
    /\ map (fun ip => depth (waypoint ip)) (_integration_points self)
       = [0; 1; 1 # 2; 1 # 2; 0]
    /\ map (fun wp => (depth wp, _seconds (duration wp), runtime_s wp))
         (_waypoints self)
       = [(0, 3%Z, 0%Z); (1, 0%Z, 3%Z); (1, 3%Z, 3%Z); (1 # 2, 3%Z, 6%Z);
          (1 # 2, 3%Z, 9%Z); (0, 0%Z, 12%Z)]
    /\ exists ip c, nth_error (_integration_points self) 0 = Some ip
                    /\ nth_error (ceilings ip) 0 = Some c
                    /\ (c < 0)%R.
Proof.
  eexists. split; [|split; [|split]].
  - unfold Profile_init. run_steps. no_obligation.
    unfold Profile_ascend. run_steps. reflexivity.
  - reflexivity.
  - reflexivity.
  - eexists. eexists. split; [reflexivity|]. split; [reflexivity|].
    unfold ceiling_compartment, Q2R; simpl. field_simplify. lra.
Qed.

(** The same dive under the default safety stop (5 m for 3 minutes): the
    constructor raises. *)
Lemma short_profile_default_stop :
  Profile_init 64 short_dive [Tank_default] (Parameters_with_dt (Time_s 3))
  = Raise IndexError.
Proof.
  unfold Profile_init. run_steps. no_obligation.
  unfold Profile_ascend. run_steps. reflexivity.
Qed.

(** ** The claims along a constructed profile *)

Lemma getitem_Ok_inv {A : Type} (xs : list A) (i : nat) {B : Type}
    (k : A -> result B) (b : B) :
  bind (getitem xs i) k = Ok b ->
  exists x, nth_error xs i = Some x /\ k x = Ok b.
Proof.
  intros H. apply bind_Ok in H. destruct H as (x & Hx & H).
  exists x. split; [now apply getitem_inv | exact H].
Qed.

Lemma _calculate_compartments_inv (tanks : list Tank)
    (ip prev_ip : IntegrationPoint) (l : list R * list R) :
  _calculate_compartments tanks ip prev_ip = Ok l ->
  exists t, nth_error tanks (tank (waypoint prev_ip)) = Some t
            /\ ~ _minutes (duration (waypoint prev_ip)) == 0.
Proof.
  unfold _calculate_compartments, compartments_gas. intros H.
  apply getitem_Ok_inv in H. destruct H as (t & Ht & H).
  exists t. split; [exact Ht|].
  apply bind_Ok in H. destruct H as (n2 & H & _).
  apply bind_Ok in H. destruct H as (q & Hq & _).
  now apply pydiv_inv in Hq.
Qed.

Lemma _calculate_tank_pressure_inv (tanks : list Tank)
    (ip prev_ip : IntegrationPoint) (sac : Q) (out : list Q) :
  _calculate_tank_pressure tanks ip prev_ip sac = Ok out ->
  exists t p, nth_error tanks (tank (waypoint prev_ip)) = Some t
              /\ ~ _size t == 0
              /\ nth_error (tank_pressure prev_ip) (tank (waypoint prev_ip)) = Some p.
Proof.
  unfold _calculate_tank_pressure. intros H.
  apply getitem_Ok_inv in H. destruct H as (t & Ht & H).
  apply bind_Ok in H. destruct H as (bar_min & Hb & H).
  apply getitem_Ok_inv in H. destruct H as (p & Hp & _).
  exists t, p. split; [exact Ht|]. split; [|exact Hp].
  now apply pydiv_inv in Hb.
Qed.

Lemma _calculate_cns_inv (tanks : list Tank) (ip prev_ip : IntegrationPoint)
    (c : R) :
  _calculate_cns tanks ip prev_ip = Ok c ->
  exists t0 t1, nth_error tanks (tank (waypoint prev_ip)) = Some t0
                /\ nth_error tanks (tank (waypoint ip)) = Some t1.
Proof.
  unfold _calculate_cns. intros H.
  apply getitem_Ok_inv in H. destruct H as (t0 & Ht0 & H).
  apply getitem_Ok_inv in H. destruct H as (t1 & Ht1 & _).
  now exists t0, t1.
Qed.

(** C4.  In every profile the constructor returns, the loads of each
    integration point are, for every compartment and both inert gases, the
    Schreiner closed form of the loads of the point before it, with the
    ambient pressure at the end of the segment, the inert-gas fraction of
    the tank of the point before, and the depth change and duration of the
    segment; and the update is a function of the two waypoints and the
    previous loads alone. *)
Theorem C4_schreiner_along_profile (fuel : nat) (waypoints : list Waypoint)
    (tanks : list Tank) (params : Parameters) (self : Profile) :
  Profile_init fuel waypoints tanks params = Ok self ->
  (forall i prev_ip ip,
     nth_error (_integration_points self) i = Some prev_ip ->
     nth_error (_integration_points self) (S i) = Some ip ->
     exists t,
       nth_error tanks (tank (waypoint prev_ip)) = Some t
       /\ (forall j ht p0,
             nth_error ZH_L16.N2_ht j = Some ht ->
             nth_error (load_N2 prev_ip) j = Some p0 ->
             nth_error (load_N2 ip) j =
               Some (Schreiner_closed_form (Gas_fN2 (_gas t)) (p_amb ip)
                       (depth (waypoint ip) - depth (waypoint prev_ip))
                       (_minutes (duration (waypoint prev_ip))) ht p0))
       /\ (forall j ht p0,
             nth_error ZH_L16.He_ht j = Some ht ->
             nth_error (load_He prev_ip) j = Some p0 ->
             nth_error (load_He ip) j =
               Some (Schreiner_closed_form (Gas_fHe (_gas t)) (p_amb ip)
                       (depth (waypoint ip) - depth (waypoint prev_ip))
                       (_minutes (duration (waypoint prev_ip))) ht p0)))
  /\ (forall ip prev_ip ip' prev_ip',
        waypoint ip' = waypoint ip -> waypoint prev_ip' = waypoint prev_ip ->
        load_N2 prev_ip' = load_N2 prev_ip ->
        load_He prev_ip' = load_He prev_ip ->
        _calculate_compartments tanks ip' prev_ip'
        = _calculate_compartments tanks ip prev_ip).
Proof.
  intros H. split.
  - intros i prev_ip ip Hprev Hip.
    destruct (Profile_init_steps _ _ _ _ _ H i prev_ip ip Hprev Hip) as (Hl & _).
    destruct (_calculate_compartments_inv _ _ _ _ Hl) as (t & Ht & Hdt).
    destruct (_calculate_compartments_step tanks ip prev_ip t Ht Hdt)
      as (n2 & he & Hrun & Hn2 & Hhe & _).
    rewrite Hl in Hrun. inversion Hrun; subst n2 he.
    exists t. split; [exact Ht|]. split; assumption.
  - intros ip prev_ip ip' prev_ip'. apply _calculate_compartments_ext.
Qed.

Lemma C4_schreiner_along_profile_witness :
  exists self,
    Profile_init 64 short_dive [Tank_default] short_params = Ok self
    /\ (forall i prev_ip ip,
          nth_error (_integration_points self) i = Some prev_ip ->
          nth_error (_integration_points self) (S i) = Some ip ->
          exists t,
            nth_error [Tank_default] (tank (waypoint prev_ip)) = Some t
            /\ (forall j ht p0,
                  nth_error ZH_L16.N2_ht j = Some ht ->
                  nth_error (load_N2 prev_ip) j = Some p0 ->
                  nth_error (load_N2 ip) j =
                    Some (Schreiner_closed_form (Gas_fN2 (_gas t)) (p_amb ip)
                            (depth (waypoint ip) - depth (waypoint prev_ip))
                            (_minutes (duration (waypoint prev_ip))) ht p0))
            /\ (forall j ht p0,
                  nth_error ZH_L16.He_ht j = Some ht ->
                  nth_error (load_He prev_ip) j = Some p0 ->
                  nth_error (load_He ip) j =
                    Some (Schreiner_closed_form (Gas_fHe (_gas t)) (p_amb ip)
                            (depth (waypoint ip) - depth (waypoint prev_ip))
                            (_minutes (duration (waypoint prev_ip))) ht p0))).
Proof.
  destruct short_profile_constructed as (self & H & _).
  exists self. split; [exact H|].
  exact (proj1 (C4_schreiner_along_profile 64 short_dive [Tank_default]
                  short_params self H)).
Defined.

(** ** The respiration rate of each phase *)

Lemma bottom_point_sac (self : Profile) (t : Z)
    (pre : list IntegrationPoint) (prev_ip ip : IntegrationPoint) :
  _integration_points self = (pre ++ [prev_ip])%list ->
  bottom_point self t = Ok ip ->
  consumes (_tanks self) (bottom_sac (_params self) prev_ip ip) prev_ip ip.
Proof.
  intros Hips. unfold bottom_point. rewrite Hips, rev_app_distr. cbn [rev app].
  intros H.
  apply bind_Ok in H. destruct H as (d & _ & H).
  apply bind_Ok in H. destruct H as (ip1 & H1 & H).
  apply bind_Ok in H. destruct H as (c & _ & H).
  inversion H; subst ip; clear H.
  apply bind_Ok in H1. destruct H1 as ([n2 he] & _ & H1).
  apply bind_Ok in H1. destruct H1 as (tp & Htp & H1).
  apply bind_Ok in H1. destruct H1 as (cn & _ & H1).
  apply bind_Ok in H1. destruct H1 as (o & _ & H1).
  inversion H1; subst ip1; clear H1.
  unfold consumes, bottom_sac. simpl. exact Htp.
Qed.

(** The points of the bottom phase: descent rate into a deeper point,
    bottom rate otherwise. *)
Lemma bottom_phase_sac (fuel : nat) (waypoints : list Waypoint)
    (tanks : list Tank) (params : Parameters) (self1 : Profile) :
  bottom_phase fuel waypoints tanks params = Ok self1 ->
  chain (fun prev_ip ip => consumes tanks (bottom_sac params prev_ip ip) prev_ip ip)
    (_integration_points self1).
Proof.
  unfold bottom_phase, _calculate_bottom. intros H.
  apply bind_Ok in H. destruct H as (wps & _ & H).
  pose proof (bottom_for_state _ _ _ _ _ H) as (T & P). simpl in T, P.
  rewrite <- T, <- P.
  apply (bottom_for_chain
           (fun tanks params prev_ip ip =>
              consumes tanks (bottom_sac params prev_ip ip) prev_ip ip)
           bottom_point_sac _ _ _ _ _ H).
  apply chain_nil.
Qed.

Section AscentChain.

Variable R : list Tank -> Parameters -> IntegrationPoint -> IntegrationPoint -> Prop.

Hypothesis R_ascent : forall self wp prev_ip ip,
  ascent_point self wp prev_ip = Ok ip ->
  R (_tanks self) (_params self) prev_ip ip.
Hypothesis R_deco_1 : forall self wp prev_ip ip stop_time,
  deco_stop_point_1 self wp prev_ip stop_time = Ok ip ->
  R (_tanks self) (_params self) prev_ip ip.
Hypothesis R_deco_2 : forall self wp prev_ip ip stop_time,
  deco_stop_point_2 self wp prev_ip stop_time = Ok ip ->
  R (_tanks self) (_params self) prev_ip ip.

Lemma _calculate_direct_ascent_tail (fuel : nat) (self self' : Profile) (d : Q)
    (ip : IntegrationPoint) (out : list IntegrationPoint) :
  _calculate_direct_ascent fuel self d ip true = Ok (self', out) ->
  _integration_points self' = (_integration_points self ++ out)%list
  /\ chain (R (_tanks self) (_params self)) (ip :: out).
Proof.
  unfold _calculate_direct_ascent. intros H.
  apply bind_Ok in H. destruct H as (res & Hloop & H).
  apply bind_Ok in H. destruct H as (self1 & Happ & H).
  inversion H; subst self1 out; clear H.
  apply append_segment_points in Happ. destruct Happ as (E & _).
  split; [exact E|].
  apply (direct_ascent_loop_chain R R_ascent _ _ _ [ip] _ _ _ _ Hloop).
  - reflexivity.
  - apply chain_single.
Qed.

Lemma _calculate_regular_ascent_tail (fuel : nat) (self self' : Profile) (d : Q)
    (ip : IntegrationPoint) (out : list IntegrationPoint) :
  _calculate_regular_ascent fuel self d ip true = Ok (self', out) ->
  _integration_points self' = (_integration_points self ++ out)%list
  /\ chain (R (_tanks self) (_params self)) (ip :: out).
Proof.
  unfold _calculate_regular_ascent, _calculate_direct_ascent. intros H.
  apply bind_Ok in H. destruct H as (segments & Hsegs & H).
  apply bind_Ok in H. destruct H as (self1 & Happ & H).
  inversion H; subst self1 out; clear H.
  apply append_segments_points in Happ. destruct Happ as (E & _).
  split; [exact E|]. clear E.
  assert (C0 : chain (R (_tanks self) (_params self)) ([ip] ++ []))
    by apply chain_single.
  destruct (Qlt_bool (safety_stop_depth (_params self)) d).
  - apply bind_Ok in Hsegs. destruct Hsegs as (r & Hr & Hsegs).
    apply bind_Ok in Hr. destruct Hr as (seg1 & H1 & Hr).
    inversion Hr; subst r. inversion Hsegs; subst segments. simpl.
    rewrite app_nil_r.
    exact (direct_ascent_loop_chain R R_ascent _ _ _ [ip] _ _ _ _ H1
             eq_refl C0).
  - apply bind_Ok in Hsegs. destruct Hsegs as (r & Hr & Hsegs).
    apply bind_Ok in Hr. destruct Hr as (seg1 & H1 & Hr).
    inversion Hr; subst r; clear Hr. cbn [snd] in Hsegs.
    apply bind_Ok in Hsegs. destruct Hsegs as (seg & Hseg & Hsegs).
    cbn in Hseg. inversion Hseg; subst seg; clear Hseg.
    apply bind_Ok in Hsegs. destruct Hsegs as (ip1 & Hip1 & Hsegs).
    apply bind_Ok in Hsegs. destruct Hsegs as (seg2 & H2 & Hsegs).
    apply bind_Ok in Hsegs. destruct Hsegs as (seg & Hseg & Hsegs).
    cbn in Hseg. inversion Hseg; subst seg; clear Hseg.
    apply bind_Ok in Hsegs. destruct Hsegs as (ip2 & Hip2 & Hsegs).
    apply bind_Ok in Hsegs. destruct Hsegs as (r & Hr & Hsegs).
    apply bind_Ok in Hr. destruct Hr as (seg3 & H3 & Hr).
    inversion Hr; subst r; clear Hr. inversion Hsegs; subst segments.
    simpl. rewrite app_nil_r.
    pose proof (direct_ascent_loop_chain R R_ascent _ _ _ [ip] _ _ _ _ H1
                  eq_refl C0) as C1.
    assert (C2 : chain (R (_tanks self) (_params self)) (([ip] ++ seg1) ++ seg2)).
    { apply (safety_stop_loop_chain R R_ascent _ _ _ _ _ _ _ _ H2);
        rewrite app_nil_r; [now apply last_item_app_r | exact C1]. }
    change (ip :: seg1 ++ seg2 ++ seg3)%list with ([ip] ++ seg1 ++ seg2 ++ seg3)%list.
    rewrite !app_assoc.
    apply (direct_ascent_loop_chain R R_ascent _ _ _ _ _ _ _ _ H3);
      rewrite app_nil_r; [now apply last_item_app_r | exact C2].
Qed.

Lemma _calculate_deco_ascent_tail (fuel : nat) (self self' : Profile) (d : Q)
    (ip : IntegrationPoint) (out : list IntegrationPoint) :
  _calculate_deco_ascent fuel self d ip true = Ok (self', out) ->
  _integration_points self' = (_integration_points self ++ out)%list
  /\ chain (R (_tanks self) (_params self)) (ip :: out).
Proof.
  unfold _calculate_deco_ascent. intros H.
  apply bind_Ok in H. destruct H as (nds & _ & H).
  apply bind_Ok in H. destruct H as (ngs & Hngs & H).
  apply _calculate_next_gas_stop_zero in Hngs. subst ngs.
  apply bind_Ok in H. destruct H as (st & Hloop & H).
  apply bind_Ok in H. destruct H as (self1 & Happ & H).
  inversion H; subst self1 out; clear H.
  apply append_segments_points in Happ. destruct Happ as (E & _).
  split; [exact E|].
  apply (deco_outer_loop_chain R R_ascent R_deco_1 R_deco_2
           _ _ _ _ [ip] _ _ Hloop); simpl.
  - reflexivity.
  - reflexivity.
  - apply chain_single.
Qed.

(** The points a constructed profile has after its bottom phase continue
    the last point of that phase in the relation. *)
Lemma Profile_init_tail (fuel : nat) (waypoints : list Waypoint)
    (tanks : list Tank) (params : Parameters) (self : Profile) :
  Profile_init fuel waypoints tanks params = Ok self ->
  exists self1 last_ip ascent,
    bottom_phase fuel waypoints tanks params = Ok self1
    /\ last_item (_integration_points self1) = Ok last_ip
    /\ _integration_points self = (_integration_points self1 ++ ascent)%list
    /\ chain (R tanks params) (last_ip :: ascent).
Proof.
  unfold Profile_init, bottom_phase. intros H.
  apply bind_Ok in H. destruct H as (wps & Hwps & H). rewrite Hwps. cbn [bind].
  apply bind_Ok in H. destruct H as (self1 & Hbottom & H).
  apply bind_Ok in H. destruct H as (last_ip & Hlast & H).
  apply bind_Ok in H. destruct H as (r & _ & H).
  apply bind_Ok in H. destruct H as (end_ip & _ & H).
  pose proof (bottom_for_state _ _ _ _ _ Hbottom) as (T & P). simpl in T, P.
  exists self1, last_ip.
  cbv zeta in H. unfold Profile_ascend in H.
  destruct (Rlt_dec 0 (ceiling end_ip));
    [|destruct (safety_stop (_params self1))].
  - apply bind_Ok in H. destruct H as ([self2 out] & Hrun & H).
    inversion H; subst self2; clear H.
    apply _calculate_deco_ascent_tail in Hrun. destruct Hrun as (E & Hc).
    rewrite T, P in Hc. exists out. auto.
  - apply bind_Ok in H. destruct H as ([self2 out] & Hrun & H).
    inversion H; subst self2; clear H.
    apply _calculate_regular_ascent_tail in Hrun. destruct Hrun as (E & Hc).
    rewrite T, P in Hc. exists out. auto.
  - apply bind_Ok in H. destruct H as ([self2 out] & Hrun & H).
    inversion H; subst self2; clear H.
    apply _calculate_direct_ascent_tail in Hrun. destruct Hrun as (E & Hc).
    rewrite T, P in Hc. exists out. auto.
Qed.

End AscentChain.

Lemma ascent_point_sac (self : Profile) (wp : Waypoint)
    (prev_ip ip : IntegrationPoint) :
  ascent_point self wp prev_ip = Ok ip ->
  consumes (_tanks self) (own_ascent_sac (_params self)) prev_ip ip.
Proof. intros H. now apply ascent_point_fields in H. Qed.

Lemma deco_stop_point_1_sac (self : Profile) (wp : Waypoint)
    (prev_ip ip : IntegrationPoint) (stop_time : Z) :
  deco_stop_point_1 self wp prev_ip stop_time = Ok ip ->
  consumes (_tanks self) (own_ascent_sac (_params self)) prev_ip ip.
Proof. intros H. now apply deco_stop_point_1_fields in H. Qed.

Lemma deco_stop_point_2_sac (self : Profile) (wp : Waypoint)
    (prev_ip ip : IntegrationPoint) (stop_time : Z) :
  deco_stop_point_2 self wp prev_ip stop_time = Ok ip ->
  consumes (_tanks self) (own_ascent_sac (_params self)) prev_ip ip.
Proof. intros H. now apply deco_stop_point_2_fields in H. Qed.

(** Two consecutive elements of [(pre ++ [x]) ++ l] the second of which is
    in [l] are consecutive in [x :: l]. *)
Lemma nth_error_tail {A : Type} (pre l : list A) (x a b : A) (i : nat) :
  (List.length (pre ++ [x]) <= S i)%nat ->
  nth_error ((pre ++ [x]) ++ l) i = Some a ->
  nth_error ((pre ++ [x]) ++ l) (S i) = Some b ->
  nth_error (x :: l) (i - List.length pre) = Some a
  /\ nth_error (x :: l) (S (i - List.length pre)) = Some b.
Proof.
  intros Hle Ha Hb. rewrite length_app in Hle. cbn [List.length] in Hle.
  rewrite <- app_assoc in Ha, Hb.
  change ([x] ++ l)%list with (x :: l) in Ha, Hb.
  rewrite nth_error_app2 in Ha by lia.
  rewrite nth_error_app2 in Hb by lia.
  replace (S i - List.length pre)%nat with (S (i - List.length pre)) in Hb by lia.
  auto.
Qed.

(** In a constructed profile the tank pressures of each point are those of
    [_calculate_tank_pressure] at the rate of the phase that made it. *)
Lemma Profile_init_sac (fuel : nat) (waypoints : list Waypoint)
    (tanks : list Tank) (params : Parameters) (self : Profile) :
  Profile_init fuel waypoints tanks params = Ok self ->
  exists self1 ascent,
    bottom_phase fuel waypoints tanks params = Ok self1
    /\ _integration_points self = (_integration_points self1 ++ ascent)%list
    /\ forall i prev_ip ip,
         nth_error (_integration_points self) i = Some prev_ip ->
         nth_error (_integration_points self) (S i) = Some ip ->
         consumes tanks
           (phase_sac params (List.length (_integration_points self1)) (S i)
              prev_ip ip)
           prev_ip ip.
Proof.
  intros H.
  destruct (Profile_init_tail
              (fun tanks params => consumes tanks (own_ascent_sac params))
              ascent_point_sac deco_stop_point_1_sac deco_stop_point_2_sac
              _ _ _ _ _ H)
    as (self1 & last_ip & ascent & Hb & Hlast & E & Hc).
  exists self1, ascent. split; [exact Hb|]. split; [exact E|].
  intros i prev_ip ip Hprev Hip. unfold phase_sac.
  destruct (Nat.ltb_spec (S i) (List.length (_integration_points self1)))
    as [Hlt|Hge].
  - rewrite E in Hprev, Hip.
    rewrite nth_error_app1 in Hprev by lia. rewrite nth_error_app1 in Hip by lia.
    exact (bottom_phase_sac _ _ _ _ _ Hb i prev_ip ip Hprev Hip).
  - apply last_item_inv in Hlast. destruct Hlast as (pre & Epre).
    rewrite E, Epre in Hprev, Hip. rewrite Epre in Hge.
    destruct (nth_error_tail pre ascent last_ip prev_ip ip i Hge Hprev Hip)
      as (Ha & Hb').
    exact (Hc _ _ _ Ha Hb').
Qed.

(** C6.  In every profile the constructor returns, each integration step
    takes, from the pressure of the tank that the point before breathes
    from, the amount rate x average ambient pressure x segment duration /
    tank size, and carries the pressure of every other tank over unchanged.
    The rate is that of the phase of the step: inside the bottom phase the
    descent rate when the step goes deeper and the bottom rate otherwise,
    and the ascent rate for every step after the bottom phase. *)
Theorem C6_tank_pressure_along_profile (fuel : nat) (waypoints : list Waypoint)
    (tanks : list Tank) (params : Parameters) (self : Profile) :
  Profile_init fuel waypoints tanks params = Ok self ->
  exists self1 ascent,
    bottom_phase fuel waypoints tanks params = Ok self1
    /\ _integration_points self = (_integration_points self1 ++ ascent)%list
    /\ forall i prev_ip ip,
         nth_error (_integration_points self) i = Some prev_ip ->
         nth_error (_integration_points self) (S i) = Some ip ->
         exists sac t p v,
           sac = (if (S i <? List.length (_integration_points self1))%nat
                  then if Qlt_bool (depth (waypoint prev_ip)) (depth (waypoint ip))
                       then own_descent_sac params
                       else own_bottom_sac params
                  else own_ascent_sac params)
           /\ nth_error tanks (tank (waypoint prev_ip)) = Some t
           /\ nth_error (tank_pressure prev_ip) (tank (waypoint prev_ip)) = Some p
           /\ nth_error (tank_pressure ip) (tank (waypoint prev_ip)) = Some v
           /\ v == p - sac * ((p_amb ip + p_amb prev_ip) / 2)
                       * _minutes (duration (waypoint prev_ip)) / _size t
           /\ List.length (tank_pressure ip) = List.length (tank_pressure prev_ip)
           /\ forall j, j <> tank (waypoint prev_ip) ->
                nth_error (tank_pressure ip) j
                = nth_error (tank_pressure prev_ip) j.
Proof.
  intros H.
  destruct (Profile_init_sac _ _ _ _ _ H) as (self1 & ascent & Hb & E & Hsac).
  exists self1, ascent. split; [exact Hb|]. split; [exact E|].
  intros i prev_ip ip Hprev Hip.
  specialize (Hsac i prev_ip ip Hprev Hip). unfold consumes in Hsac.
  set (sac := phase_sac params (List.length (_integration_points self1)) (S i)
                prev_ip ip) in *.
  destruct (_calculate_tank_pressure_inv _ _ _ _ _ Hsac) as (t & p & Ht & Hsz & Hp).
  destruct (_calculate_tank_pressure_step tanks ip prev_ip sac t p Ht Hsz Hp)
    as (out & v & Hrun & Hlen & Hv & Heq & Hframe).
  rewrite Hsac in Hrun. inversion Hrun; subst out.
  exists sac, t, p, v. repeat split; assumption.
Qed.

Ltac bound_load_held :=
  apply (schreiner_within _ _ _ _ _ (54 / 100) (106 / 100) (4 / 100));
    [ reflexivity | discriminate | bound_load | q2r | q2r | lra | lra ].

(** The decision [deco_dive] of the dive held at the bottom: one step more
    than in the short dive. *)
Ltac no_obligation_held :=
  match goal with
  | |- context [Rlt_dec 0 (ceiling ?e)] =>
      let Hc := fresh "Hc" in
      assert (Hc : ceiling e = 0%R)
        by (apply ceiling_zero; cbn [ceilings];
            repeat (constructor;
                    [ apply ceiling_compartment_nonpos;
                      [ q2r
                      | rewrite schreiner_zero; [|q2r|q2r];
                        rewrite schreiner_zero; [|q2r|q2r];
                        rewrite schreiner_zero; [|q2r|q2r];
                        no_helium
                      | match goal with
                        | |- (0 < ?l <= _)%R =>
                            assert (50 / 100 <= l <= 110 / 100)%R
                              by bound_load_held;
                            lra
                        end
                      | q2r | q2r ]
                    | ]);
            constructor);
      rewrite Hc; destruct (Rlt_dec 0 0) as [?|_]; [lra|]
  end.

(** A complete run of the constructor with two tanks and the three rates:
    air to 1 m, three seconds there, the safety stop at 0.5 m.  The bottom
    phase makes three points (a descent step at 25 l/min, a bottom step at
    20), the regular ascent three more at 17 l/min; the second tank is
    never breathed from and keeps its 200 bar. *)
Lemma rated_profile_constructed :
  exists self,
    Profile_init 64 held_dive tanks_air_ean50 rated_params = Ok self
    /\ map (fun ip => depth (waypoint ip)) (_integration_points self)
       = [0; 1; 1; 1 # 2; 1 # 2; 0]
    /\ map (fun ip => map Qred (tank_pressure ip)) (_integration_points self)
       = [[200; 200]; [12793 # 64; 200]; [191807 # 960; 200];
          [639113 # 3200; 200]; [25555 # 128; 200]; [239491 # 1200; 200]].
Proof.
  eexists. split; [|split].
  - unfold Profile_init. run_steps. no_obligation_held.
    unfold Profile_ascend. run_steps. reflexivity.
  - reflexivity.
  - reflexivity.
Qed.

(** Its bottom phase: the descent step and the step held at 1 m. *)
Lemma rated_bottom_phase :
  exists self1,
    bottom_phase 64 held_dive tanks_air_ean50 rated_params = Ok self1
    /\ map (fun ip => depth (waypoint ip)) (_integration_points self1)
       = [0; 1; 1].
Proof.
  eexists. split.
  - unfold bottom_phase. run_steps. reflexivity.
  - reflexivity.
Qed.

Lemma C6_tank_pressure_along_profile_witness :
  exists self,
    Profile_init 64 held_dive tanks_air_ean50 rated_params = Ok self
    /\ exists self1 ascent,
         bottom_phase 64 held_dive tanks_air_ean50 rated_params = Ok self1
         /\ _integration_points self = (_integration_points self1 ++ ascent)%list
         /\ forall i prev_ip ip,
              nth_error (_integration_points self) i = Some prev_ip ->
              nth_error (_integration_points self) (S i) = Some ip ->
              exists sac t p v,
                sac = (if (S i <? List.length (_integration_points self1))%nat
                       then if Qlt_bool (depth (waypoint prev_ip))
                                        (depth (waypoint ip))
                            then own_descent_sac rated_params
                            else own_bottom_sac rated_params
                       else own_ascent_sac rated_params)
                /\ nth_error tanks_air_ean50 (tank (waypoint prev_ip)) = Some t
                /\ nth_error (tank_pressure prev_ip) (tank (waypoint prev_ip))
                   = Some p
                /\ nth_error (tank_pressure ip) (tank (waypoint prev_ip)) = Some v
                /\ v == p - sac * ((p_amb ip + p_amb prev_ip) / 2)
                            * _minutes (duration (waypoint prev_ip)) / _size t
                /\ List.length (tank_pressure ip)
                   = List.length (tank_pressure prev_ip)
                /\ forall j, j <> tank (waypoint prev_ip) ->
                     nth_error (tank_pressure ip) j
                     = nth_error (tank_pressure prev_ip) j.
Proof.
  destruct rated_profile_constructed as (self & H & _).
  exists self. split; [exact H|].
  exact (C6_tank_pressure_along_profile 64 held_dive tanks_air_ean50
           rated_params self H).
Defined.

(** C7, as amended.  In every profile the constructor returns, over a step
    of non-negative duration the OTU total does not decrease, and the CNS
    total does not decrease when the depth is constant, or an end of the
    segment is below 0.5 bar of oxygen, or the time limit that the NOAA line
    chosen at the starting pressure gives at the ending pressure is
    positive; and the CNS and OTU values of a step are exactly 0 when the
    oxygen pressure is below 0.5 bar at both ends. *)
Theorem C7_toxicity_along_profile (fuel : nat) (waypoints : list Waypoint)
    (tanks : list Tank) (params : Parameters) (self : Profile) :
  Profile_init fuel waypoints tanks params = Ok self ->
  forall i prev_ip ip,
    nth_error (_integration_points self) i = Some prev_ip ->
    nth_error (_integration_points self) (S i) = Some ip ->
    exists t0 t1,
      nth_error tanks (tank (waypoint prev_ip)) = Some t0
      /\ nth_error tanks (tank (waypoint ip)) = Some t1
      /\ (0 <= _minutes (duration (waypoint prev_ip)) ->
          (otu_cum prev_ip <= otu_cum ip)%R
          /\ (depth (waypoint ip) == depth (waypoint prev_ip)
              \/ Gas_ppO2 (_gas t0) (depth (waypoint prev_ip)) < 0.5
              \/ Gas_ppO2 (_gas t1) (depth (waypoint ip)) < 0.5
              \/ 0 < time_limit_line
                       (Gas_ppO2 (_gas t0) (depth (waypoint prev_ip)))
                       (Gas_ppO2 (_gas t1) (depth (waypoint ip))) ->
              (cns_cum prev_ip <= cns_cum ip)%R))
      /\ (Gas_ppO2 (_gas t0) (depth (waypoint prev_ip)) < 0.5 ->
          Gas_ppO2 (_gas t1) (depth (waypoint ip)) < 0.5 ->
          cns ip = 0%R /\ otu ip = 0%R).
Proof.
  intros H i prev_ip ip Hprev Hip.
  destruct (Profile_init_steps _ _ _ _ _ H i prev_ip ip Hprev Hip)
    as (_ & _ & Hcns & Hccum & Hotu & Hocum).
  destruct (_calculate_cns_inv _ _ _ _ Hcns) as (t0 & t1 & Ht0 & Ht1).
  exists t0, t1. split; [exact Ht0|]. split; [exact Ht1|].
  exact (toxicity_step tanks ip prev_ip t0 t1 Ht0 Ht1 Hotu Hocum Hcns Hccum).
Qed.

Lemma C7_toxicity_along_profile_witness :
  exists self,
    Profile_init 64 short_dive [Tank_default] short_params = Ok self
    /\ forall i prev_ip ip,
         nth_error (_integration_points self) i = Some prev_ip ->
         nth_error (_integration_points self) (S i) = Some ip ->
         exists t0 t1,
           nth_error [Tank_default] (tank (waypoint prev_ip)) = Some t0
           /\ nth_error [Tank_default] (tank (waypoint ip)) = Some t1
           /\ (0 <= _minutes (duration (waypoint prev_ip)) ->
               (otu_cum prev_ip <= otu_cum ip)%R
               /\ (depth (waypoint ip) == depth (waypoint prev_ip)
                   \/ Gas_ppO2 (_gas t0) (depth (waypoint prev_ip)) < 0.5
                   \/ Gas_ppO2 (_gas t1) (depth (waypoint ip)) < 0.5
                   \/ 0 < time_limit_line
                            (Gas_ppO2 (_gas t0) (depth (waypoint prev_ip)))
                            (Gas_ppO2 (_gas t1) (depth (waypoint ip))) ->
                   (cns_cum prev_ip <= cns_cum ip)%R))
           /\ (Gas_ppO2 (_gas t0) (depth (waypoint prev_ip)) < 0.5 ->
               Gas_ppO2 (_gas t1) (depth (waypoint ip)) < 0.5 ->
               cns ip = 0%R /\ otu ip = 0%R).
Proof.
  destruct short_profile_constructed as (self & H & _).
  exists self. split; [exact H|].
  exact (C7_toxicity_along_profile 64 short_dive [Tank_default]
           short_params self H).
Defined.

(** C2, the claim as stated fails.  The constructor returns a profile for the
    short dive, and the first integration point of that profile has a
    negative ceiling in compartment 1. *)
Lemma C2_counterexample :
  exists self ip c,
    Profile_init 64 short_dive [Tank_default] short_params = Ok self
    /\ nth_error (_integration_points self) 0 = Some ip
    /\ nth_error (ceilings ip) 0 = Some c
    /\ (c < 0)%R.
Proof.
  destruct short_profile_constructed as (self & H & _ & _ & ip & c & Hip & Hc & Hneg).
  exists self, ip, c. auto.
Qed.

(** C3 (code defect).  With the safety stop enabled at 5 m and the last
    bottom-phase point shallower than that, the regular ascent to the
    surface does not ascend directly: it raises [IndexError].  The guard
    that bypasses the stop tests the target depth (always 0) and not the
    current depth.  So it is for a point at 4 m handed to
    [_calculate_regular_ascent], and so it is for the constructor run on the
    short dive to 1 m under the default safety stop. *)
Theorem C3_regular_ascent_from_above_the_stop :
  safety_stop (_params shallow_profile) = true
  /\ depth (waypoint shallow_point) < safety_stop_depth (_params shallow_profile)
  /\ _calculate_regular_ascent 64 shallow_profile 0 shallow_point true
     = Raise IndexError
  /\ Profile_init 64 short_dive [Tank_default] (Parameters_with_dt (Time_s 3))
     = Raise IndexError.
Proof.
  split; [reflexivity|]. split; [reflexivity|]. split.
  - apply _calculate_regular_ascent_shallow; [reflexivity | discriminate].
  - exact short_profile_default_stop.
Qed.

(** ** Rounding, time and gas mixtures *)

Lemma Qfloor_bounds (x : Q) :
  inject_Z (Qfloor x) <= x /\ x < inject_Z (Qfloor x) + 1.
Proof.
  split; [apply Qfloor_le|].
  pose proof (Qlt_floor x) as H. now rewrite inject_Z_plus in H.
Qed.

Lemma round_half_even_cases (x : Q) :
  (round_half_even x = Qfloor x /\ x - inject_Z (Qfloor x) <= 1 # 2)
  \/ (round_half_even x = (Qfloor x + 1)%Z /\ 1 # 2 <= x - inject_Z (Qfloor x)).
Proof.
  unfold round_half_even.
  destruct (Qcompare (x - inject_Z (Qfloor x)) (1 # 2)) eqn:E.
  - apply Qeq_alt in E.
    destruct (Z.even (Qfloor x)); [left | right]; split; try reflexivity;
      rewrite E; apply Qle_refl.
  - apply Qlt_alt in E. left. split; [reflexivity | now apply Qlt_le_weak].
  - apply Qgt_alt in E. right. split; [reflexivity | now apply Qlt_le_weak].
Qed.

Lemma round_half_even_near (x : Q) :
  Qabs (inject_Z (round_half_even x) - x) <= 1 # 2.
Proof.
  destruct (Qfloor_bounds x) as (Hlo & Hhi).
  apply Qabs_Qle_condition.
  destruct (round_half_even_cases x) as [(-> & H) | (-> & H)].
  - split; Lqa.lra.
  - rewrite inject_Z_plus. change (inject_Z 1) with 1. split; Lqa.lra.
Qed.

Lemma round_half_even_Z (z : Z) : round_half_even (inject_Z z) = z.
Proof.
  unfold round_half_even. rewrite Qfloor_Z.
  replace (Qcompare (inject_Z z - inject_Z z) (1 # 2)) with Lt; [reflexivity|].
  symmetry. apply (proj1 (Qlt_alt _ _)). Lqa.lra.
Qed.

Lemma Qcompare_spec (a b : Q) :
  match Qcompare a b with Eq => a == b | Lt => a < b | Gt => b < a end.
Proof.
  destruct (Qcompare a b) eqn:E.
  - now apply (proj2 (Qeq_alt _ _)).
  - now apply (proj2 (Qlt_alt _ _)).
  - now apply (proj2 (Qgt_alt _ _)).
Qed.

Lemma round_half_even_mono (x y : Q) :
  x <= y -> (round_half_even x <= round_half_even y)%Z.
Proof.
  intros Hxy.
  pose proof (Qfloor_resp_le _ _ Hxy) as Hf.
  destruct (Z.eq_dec (Qfloor x) (Qfloor y)) as [E|NE].
  - unfold round_half_even. rewrite <- E.
    pose proof (Qcompare_spec (x - inject_Z (Qfloor x)) (1 # 2)) as Hx.
    pose proof (Qcompare_spec (y - inject_Z (Qfloor x)) (1 # 2)) as Hy.
    destruct (Qcompare (x - inject_Z (Qfloor x)) (1 # 2));
      destruct (Qcompare (y - inject_Z (Qfloor x)) (1 # 2));
      try (destruct (Z.even (Qfloor x))); try lia; exfalso; Lqa.lra.
  - destruct (round_half_even_cases x) as [(-> & _) | (-> & _)];
      destruct (round_half_even_cases y) as [(-> & _) | (-> & _)]; lia.
Qed.

Lemma round_half_even_comp (x y : Q) : x == y -> round_half_even x = round_half_even y.
Proof.
  intros E. apply Z.le_antisymm; apply round_half_even_mono; rewrite E; apply Qle_refl.
Qed.

(** X1.  The two units of a [Time] agree.  Built from seconds, its minutes
    are the seconds over 60 and rebuilding it from those minutes gives the
    same seconds; built from minutes, its seconds are within half a second
    of 60 times the minutes. *)
Theorem Time_units_agree :
  (forall s : Z,
     _seconds (Time_s s) = s
     /\ _minutes (Time_s s) * 60 == inject_Z s
     /\ _seconds (Time_m (_minutes (Time_s s))) = s)
  /\ (forall q : Q,
        _minutes (Time_m q) = q
        /\ Qabs (inject_Z (_seconds (Time_m q)) - q * 60) <= 1 # 2).
Proof.
  split.
  - intros s. split; [reflexivity|]. simpl. split; [field|].
    rewrite <- (round_half_even_Z s) at 2. apply round_half_even_comp. field.
  - intros q. split; [reflexivity|]. simpl. apply round_half_even_near.
Qed.

Lemma Time_m_seconds_mono (q q' : Q) :
  q <= q' -> (_seconds (Time_m q) <= _seconds (Time_m q'))%Z.
Proof. intros H. simpl. apply round_half_even_mono. Lqa.lra. Qed.

Lemma fraction_pos (z : Z) : (0 < z)%Z -> 0 < inject_Z z / 100.
Proof.
  intros H. apply Qlt_shift_div_l; [reflexivity|].
  rewrite Qmult_0_l. change 0 with (inject_Z 0). now rewrite <- Zlt_Qlt.
Qed.


Lemma Gas_mod_le_iff (g : Gas) (pp_o2 d m : Q) :
  (0 < _O2 g)%Z -> Gas_mod g pp_o2 = Ok m ->
  (d <= m <-> Gas_ppO2 g d <= pp_o2).
Proof.
  intros Hpos Hm. rewrite Gas_mod_Ok in Hm by lia. inversion Hm; subst m; clear Hm.
  pose proof (fraction_pos _ Hpos) as Hf.
  set (f := inject_Z (_O2 g) / 100) in *.
  assert (Hpp : Gas_ppO2 g d == (d / 10 + 1) * f).
  { unfold Gas_ppO2, f. field. }
  rewrite Hpp.
  assert (Hq : pp_o2 / f * f == pp_o2) by (field; Lqa.lra).
  set (q := pp_o2 / f) in *.
  assert (Hd : d == 10 * (d / 10)) by field.
  set (e := d / 10) in *.
  split; intros H.
  - assert (e + 1 <= q) by Lqa.lra.
    rewrite <- Hq. apply Qmult_le_compat_r; [assumption | Lqa.lra].
  - assert (e + 1 <= q); [|Lqa.lra].
    rewrite <- Hq in H. apply Qmult_lt_0_le_reg_r in H; assumption.
Qed.



(** X4.  For every mix [Gas(o2, he)] the partial pressures of oxygen,
    nitrogen and helium at a depth add up to the absolute pressure there,
    and the three fractions add up to 1. *)
Theorem Gas_partial_pressures_sum (o2 he : Z) (d : Q) :
  Gas_ppO2 (Gas_init o2 he) d + Gas_ppN2 (Gas_init o2 he) d
  + Gas_ppHe (Gas_init o2 he) d == d / 10 + 1
  /\ Gas_fO2 (Gas_init o2 he) + Gas_fN2 (Gas_init o2 he)
     + Gas_fHe (Gas_init o2 he) == 1.
Proof.
  unfold Gas_ppO2, Gas_ppN2, Gas_ppHe, Gas_fO2, Gas_fN2, Gas_fHe, Gas_init.
  cbn [_O2 _N2 _He]. unfold Z.sub. rewrite !inject_Z_plus, !inject_Z_opp.
  change (inject_Z 100) with 100. split; field.
Qed.

(** ** Waypoint normalization *)

Lemma consecutive_nil {A : Type} (R : A -> A -> Prop) : consecutive R [].
Proof. intros [|i] a b H; discriminate. Qed.

Lemma consecutive_single {A : Type} (R : A -> A -> Prop) (x : A) : consecutive R [x].
Proof. intros [|[|i]] a b Ha Hb; discriminate. Qed.

Lemma consecutive_snoc {A : Type} (R : A -> A -> Prop) (l : list A) (x y : A) :
  consecutive R (l ++ [x]) -> R x y -> consecutive R ((l ++ [x]) ++ [y]).
Proof.
  intros Hc Hxy i a b Ha Hb.
  destruct (Nat.lt_ge_cases (S i) (List.length (l ++ [x]))) as [Hlt|Hge].
  - rewrite nth_error_app1 in Ha by lia. rewrite nth_error_app1 in Hb by lia.
    exact (Hc i a b Ha Hb).
  - rewrite length_app in Hge. simpl in Hge.
    assert (Hlen : nth_error ((l ++ [x]) ++ [y]) (S i) <> None) by congruence.
    apply nth_error_Some in Hlen. rewrite !length_app in Hlen. simpl in Hlen.
    assert (i = List.length l) by lia. subst i.
    rewrite nth_error_app1 in Ha by (rewrite length_app; simpl; lia).
    rewrite nth_error_app2 in Ha by lia. rewrite Nat.sub_diag in Ha.
    assert (Hl : List.length (l ++ [x]) = S (List.length l))
      by (rewrite length_app; simpl; lia).
    rewrite nth_error_app2 in Hb by lia.
    rewrite Hl, Nat.sub_diag in Hb.
    simpl in Ha, Hb. inversion Ha; inversion Hb; subst. exact Hxy.
Qed.

Lemma consecutive_cons {A : Type} (R : A -> A -> Prop) (x y : A) (l : list A) :
  R x y -> consecutive R (y :: l) -> consecutive R (x :: y :: l).
Proof.
  intros Hxy Hc [|i] a b Ha Hb.
  - simpl in Ha, Hb. inversion Ha; inversion Hb; subst. exact Hxy.
  - exact (Hc i a b Ha Hb).
Qed.

(** Appending the waypoint that continues [acc]. *)
Lemma normalized_snoc (acc : list Waypoint) (prev_wp : Waypoint) (d : Q) (dur : Time) :
  normalized acc -> last_item acc = Ok prev_wp ->
  normalized (acc ++ [Waypoint_init d (ArgTime dur) (next_runtime prev_wp) 0]).
Proof.
  intros (Hall & Hc) Hlast. apply last_item_inv in Hlast. destruct Hlast as (l & ->).
  split.
  - apply Forall_app. split; [exact Hall|]. constructor; [|constructor].
    split; reflexivity.
  - apply consecutive_snoc; [exact Hc|]. unfold follows. simpl. apply Qeq_refl.
Qed.

Lemma complete_first_normalized (params : Parameters) (w0 : Waypoint) (desc : bool)
    (acc : list Waypoint) :
  complete_first params w0 desc = Ok acc ->
  normalized acc
  /\ (exists w rest, acc = w :: rest /\ runtime w = Time_m 0)
  /\ (exists w, last_item acc = Ok w /\ depth w = depth w0 /\ duration w = duration w0).
Proof.
  unfold complete_first. intros H.
  assert (Hsingle :
    let acc := [Waypoint_init (depth w0) (ArgTime (duration w0)) (ArgTime (Time_m 0)) 0] in
    normalized acc
    /\ (exists w rest, acc = w :: rest /\ runtime w = Time_m 0)
    /\ (exists w, last_item acc = Ok w /\ depth w = depth w0 /\ duration w = duration w0)).
  { split; [split|split].
    - constructor; [|constructor]. split; reflexivity.
    - apply consecutive_single.
    - eexists. eexists. split; reflexivity.
    - eexists. split; [reflexivity|]. split; reflexivity. }
  destruct (negb (Qeq_bool (depth w0) 0)).
  - apply bind_Ok in H. destruct H as (q & _ & H). destruct desc.
    + inversion H; subst acc; clear H. split; [split|split].
      * constructor; [|constructor; [|constructor]]; split; reflexivity.
      * apply consecutive_cons; [|apply consecutive_single].
        unfold follows. simpl. Lqa.lra.
      * eexists. eexists. split; reflexivity.
      * eexists. split; [reflexivity|]. split; reflexivity.
    + inversion H; subst acc. exact Hsingle.
  - inversion H; subst acc. exact Hsingle.
Qed.

Lemma complete_loop_normalized (params : Parameters) (n : nat) (rest : list Waypoint) :
  forall idx acc res,
    complete_loop params n rest idx acc = Ok res ->
    normalized acc ->
    normalized res /\ exists new, res = (acc ++ new)%list.
Proof.
  induction rest as [|wp rest IH]; intros idx acc res H Hn; simpl in H.
  - inversion H; subst. split; [exact Hn|]. exists []. now rewrite app_nil_r.
  - apply bind_Ok in H. destruct H as (prev_wp & Hprev & H).
    apply bind_Ok in H. destruct H as (acc1 & Hacc1 & H).
    apply bind_Ok in H. destruct H as (prev_wp1 & Hprev1 & H).
    assert (Hn1 : normalized acc1 /\ exists new, acc1 = (acc ++ new)%list).
    { destruct (Qlt_bool (depth prev_wp) (depth wp)).
      - apply bind_Ok in Hacc1. destruct Hacc1 as (q & _ & Hacc1).
        inversion Hacc1; subst acc1. split; [now apply normalized_snoc|]. eauto.
      - destruct (Qlt_bool (depth wp) (depth prev_wp)).
        + apply bind_Ok in Hacc1. destruct Hacc1 as (q & _ & Hacc1).
          inversion Hacc1; subst acc1. split; [now apply normalized_snoc|]. eauto.
        + inversion Hacc1; subst acc1. split; [exact Hn|].
          exists []. now rewrite app_nil_r. }
    destruct Hn1 as (Hn1 & new1 & E1).
    apply IH in H; [|now apply normalized_snoc].
    destruct H as (Hres & new & ->). split; [exact Hres|].
    subst acc1. rewrite <- !app_assoc. eauto.
Qed.

Lemma last_item_cons {A : Type} (x y : A) (l : list A) :
  last_item (x :: y :: l) = last_item (y :: l).
Proof.
  unfold last_item. simpl.
  destruct (rev l ++ [y])%list as [|z r] eqn:E; [now destruct (rev l)|].
  reflexivity.
Qed.

Lemma complete_loop_last (params : Parameters) (n : nat) (rest : list Waypoint) :
  forall idx acc res wl,
    complete_loop params n rest idx acc = Ok res ->
    last_item rest = Ok wl ->
    (idx + List.length rest = n)%nat \/ duration wl = Time_m 0 ->
    exists l, last_item res = Ok l /\ depth l = depth wl /\ duration l = Time_m 0.
Proof.
  induction rest as [|wp rest IH]; intros idx acc res wl H Hwl Hcase; [discriminate|].
  simpl in H.
  apply bind_Ok in H. destruct H as (prev_wp & _ & H).
  apply bind_Ok in H. destruct H as (acc1 & _ & H).
  apply bind_Ok in H. destruct H as (prev_wp1 & _ & H).
  destruct rest as [|wp' rest].
  - simpl in H. inversion H; subst res; clear H.
    inversion Hwl; subst wl; clear Hwl.
    eexists. split; [apply last_item_app|]. split; [reflexivity|]. simpl.
    destruct Hcase as [Hidx|Hdur].
    + simpl in Hidx. replace (idx =? n - 1)%nat with true; [reflexivity|].
      symmetry. apply Nat.eqb_eq. lia.
    + destruct (idx =? n - 1)%nat; [reflexivity | exact Hdur].
  - rewrite last_item_cons in Hwl.
    apply (IH _ _ _ _ H Hwl).
    destruct Hcase as [Hidx|Hdur]; [left; simpl in *; lia | now right].
Qed.

(** X7.  What normalization returns: the first realized waypoint is at
    runtime 0, every runtime is the runtime of the waypoint before plus its
    duration, every realized waypoint names tank 0 whatever the plan named,
    and the last one is at the depth of the last planned waypoint with
    duration 0. *)
Theorem _complete_waypoints_realized (params : Parameters)
    (waypoints : list Waypoint) (desc : bool) (res : list Waypoint) :
  _complete_waypoints params waypoints desc = Ok res ->
  (exists w rest, res = w :: rest /\ runtime w = Time_m 0)
  /\ (forall i a b,
        nth_error res i = Some a -> nth_error res (S i) = Some b ->
        _minutes (runtime b) == _minutes (runtime a) + _minutes (duration a))
  /\ Forall (fun w => tank w = 0%nat) res
  /\ (exists l wl, last_item res = Ok l /\ last_item waypoints = Ok wl
                   /\ depth l = depth wl /\ duration l = Time_m 0).
Proof.
  unfold _complete_waypoints. intros H.
  apply bind_Ok in H. destruct H as (w0 & Hw0 & H).
  apply bind_Ok in H. destruct H as (acc & Hacc & H).
  apply complete_first_normalized in Hacc.
  destruct Hacc as (Hn & (w & rest & -> & Hrt) & _).
  destruct (complete_loop_normalized _ _ _ _ _ _ H Hn) as ((Hall & Hc) & new & Hres).
  split; [|split; [|split]].
  - exists w, (rest ++ new)%list. split; [exact Hres | exact Hrt].
  - exact Hc.
  - eapply Forall_impl; [|exact Hall]. now intros a (Ha & _).
  - destruct waypoints as [|w0' [|w1 ws]]; [discriminate| |].
    + inversion Hw0; subst w0'. cbn [List.length Nat.eqb tl app] in H.
      destruct (complete_loop_last _ _ _ _ _ _ _ H eq_refl) as (l & Hl & Hd & Hdur);
        [now right|].
      exists l, w0. repeat split; assumption.
    + cbn [List.length Nat.eqb tl] in H.
      destruct (last_item (w1 :: ws)) as [wl|e] eqn:Hwl;
        [|unfold last_item in Hwl; simpl in Hwl; now destruct (rev ws)].
      destruct (complete_loop_last _ _ _ _ _ _ _ H Hwl) as (l & Hl & Hd & Hdur);
        [left; simpl; lia|].
      exists l, wl. rewrite last_item_cons. repeat split; assumption.
Qed.

Lemma _complete_waypoints_realized_witness :
  exists res,
    _complete_waypoints Parameters_default stepped_plan true = Ok res
    /\ (forall i a b,
          nth_error res i = Some a -> nth_error res (S i) = Some b ->
          _minutes (runtime b) == _minutes (runtime a) + _minutes (duration a))
    /\ Forall (fun w => tank w = 0%nat) res.
Proof.
  eexists. split; [reflexivity|].
  refine (let H := _complete_waypoints_realized Parameters_default stepped_plan
                     true _ eq_refl in _).
  split; [exact (proj1 (proj2 H)) | exact (proj1 (proj2 (proj2 H)))].
Defined.

Lemma pydiv_pos (a b q : Q) : 0 <= a -> 0 < b -> pydiv a b = Ok q -> 0 <= q.
Proof.
  intros Ha Hb H. apply pydiv_inv in H. destruct H as (_ & ->).
  apply Qle_shift_div_l; [exact Hb|]. now rewrite Qmult_0_l.
Qed.

Lemma complete_loop_durations (params : Parameters) (n : nat) (rest : list Waypoint) :
  0 < v_desc params -> 0 < v_asc params ->
  forall idx acc res,
    complete_loop params n rest idx acc = Ok res ->
    Forall (fun w => 0 <= _minutes (duration w)) rest ->
    Forall (fun w => 0 <= _minutes (duration w)) acc ->
    Forall (fun w => 0 <= _minutes (duration w)) res.
Proof.
  intros Hd Ha.
  induction rest as [|wp rest IH]; intros idx acc res H Hrest Hacc; simpl in H.
  - inversion H; now subst.
  - apply bind_Ok in H. destruct H as (prev_wp & _ & H).
    apply bind_Ok in H. destruct H as (acc1 & Hacc1 & H).
    apply bind_Ok in H. destruct H as (prev_wp1 & _ & H).
    inversion Hrest as [|? ? Hwp Hrest']; subst.
    apply (IH _ _ _ H Hrest'). apply Forall_app. split.
    + destruct (Qlt_bool (depth prev_wp) (depth wp)) eqn:E1.
      * apply bind_Ok in Hacc1. destruct Hacc1 as (q & Hq & Hacc1).
        inversion Hacc1; subst acc1. apply Forall_app. split; [exact Hacc|].
        constructor; [|constructor]. simpl.
        apply Qlt_bool_iff in E1. refine (pydiv_pos _ _ _ _ Hd Hq). Lqa.lra.
      * destruct (Qlt_bool (depth wp) (depth prev_wp)) eqn:E2.
        -- apply bind_Ok in Hacc1. destruct Hacc1 as (q & Hq & Hacc1).
           inversion Hacc1; subst acc1. apply Forall_app. split; [exact Hacc|].
           constructor; [|constructor]. simpl.
           apply Qlt_bool_iff in E2. refine (pydiv_pos _ _ _ _ Ha Hq). Lqa.lra.
        -- inversion Hacc1; now subst.
    + constructor; [|constructor]. simpl.
      destruct (idx =? n - 1)%nat; [simpl; Lqa.lra | exact Hwp].
Qed.

(** X8.  With positive speeds, no planned depth above the surface and no
    negative duration in the plan, every realized waypoint that is followed
    by another has a non-negative duration, and the realized runtimes never
    decrease, in minutes and in seconds. *)
Theorem _complete_waypoints_sorted (params : Parameters)
    (waypoints : list Waypoint) (desc : bool) (res : list Waypoint) :
  0 < v_desc params -> 0 < v_asc params ->
  Forall (fun w => 0 <= depth w /\ 0 <= _minutes (duration w)) waypoints ->
  _complete_waypoints params waypoints desc = Ok res ->
  forall i a b,
    nth_error res i = Some a -> nth_error res (S i) = Some b ->
    0 <= _minutes (duration a)
    /\ _minutes (runtime a) <= _minutes (runtime b)
    /\ (runtime_s a <= runtime_s b)%Z.
Proof.
  intros Hd Ha Hplan H.
  assert (Hdur : Forall (fun w => 0 <= _minutes (duration w)) res).
  { unfold _complete_waypoints in H.
    apply bind_Ok in H. destruct H as (w0 & Hw0 & H).
    apply bind_Ok in H. destruct H as (acc & Hacc & H).
    destruct waypoints as [|w0' ws]; [discriminate|].
    inversion Hw0; subst w0'. inversion Hplan as [|? ? (Hdep & Hdur0) Hws]; subst.
    apply (complete_loop_durations _ _ _ Hd Ha _ _ _ H).
    - destruct ws; cbn [List.length Nat.eqb tl app].
      + constructor; [simpl; Lqa.lra | constructor].
      + eapply Forall_impl; [|exact Hws]. now intros x (_ & Hx).
    - unfold complete_first in Hacc.
      destruct (negb (Qeq_bool (depth w0) 0)).
      + apply bind_Ok in Hacc. destruct Hacc as (q & Hq & Hacc).
        pose proof (pydiv_pos _ _ _ Hdep Hd Hq) as Hq0.
        destruct desc; inversion Hacc; subst acc;
          repeat (constructor; [simpl; assumption|]); constructor.
      + inversion Hacc; subst acc. constructor; [exact Hdur0 | constructor]. }
  unfold _complete_waypoints in H.
  apply bind_Ok in H. destruct H as (w0 & Hw0 & H).
  apply bind_Ok in H. destruct H as (acc & Hacc & H).
  apply complete_first_normalized in Hacc. destruct Hacc as (Hn & _).
  destruct (complete_loop_normalized _ _ _ _ _ _ H Hn) as ((Hall & Hc) & _).
  intros i a b Hia Hib.
  rewrite Forall_forall in Hdur, Hall.
  pose proof (Hdur a (nth_error_In _ _ Hia)) as Hda.
  pose proof (Hc i a b Hia Hib) as Hab. unfold follows in Hab.
  destruct (Hall a (nth_error_In _ _ Hia)) as (_ & Hra).
  destruct (Hall b (nth_error_In _ _ Hib)) as (_ & Hrb).
  split; [exact Hda|]. split; [Lqa.lra|].
  unfold runtime_s. rewrite Hra, Hrb. apply Time_m_seconds_mono. Lqa.lra.
Qed.

Lemma _complete_waypoints_sorted_witness :
  exists res,
    _complete_waypoints Parameters_default stepped_plan true = Ok res
    /\ forall i a b,
         nth_error res i = Some a -> nth_error res (S i) = Some b ->
         0 <= _minutes (duration a)
         /\ _minutes (runtime a) <= _minutes (runtime b)
         /\ (runtime_s a <= runtime_s b)%Z.
Proof.
  eexists. split; [reflexivity|].
  apply (_complete_waypoints_sorted Parameters_default stepped_plan true);
    [reflexivity | reflexivity | | reflexivity].
  repeat (constructor; [split; discriminate|]). constructor.
Defined.

Lemma complete_loop_total (params : Parameters) (n : nat) (rest : list Waypoint) :
  ~ v_desc params == 0 -> ~ v_asc params == 0 ->
  forall idx acc, acc <> [] ->
    exists res, complete_loop params n rest idx acc = Ok res
                /\ (List.length acc + List.length rest <= List.length res)%nat.
Proof.
  intros Hd Ha.
  assert (Hlast : forall acc : list Waypoint, acc <> [] -> exists w, last_item acc = Ok w).
  { intros acc Hne. destruct (exists_last Hne) as (l & w & ->).
    exists w. apply last_item_app. }
  induction rest as [|wp rest IH]; intros idx acc Hne; simpl.
  - exists acc. split; [reflexivity | lia].
  - destruct (Hlast acc Hne) as (prev_wp & ->). cbn [bind].
    assert (H1 : exists acc1,
      (if Qlt_bool (depth prev_wp) (depth wp)
       then q <- pydiv (depth wp - depth prev_wp) (v_desc params);;
            Ok (acc ++ [Waypoint_init (depth prev_wp) (ArgTime (Time_m q))
                          (next_runtime prev_wp) 0])
       else if Qlt_bool (depth wp) (depth prev_wp)
            then q <- pydiv (depth prev_wp - depth wp) (v_asc params);;
                 Ok (acc ++ [Waypoint_init (depth prev_wp) (ArgTime (Time_m q))
                               (next_runtime prev_wp) 0])
            else Ok acc) = Ok acc1
      /\ acc1 <> [] /\ (List.length acc <= List.length acc1)%nat).
    { destruct (Qlt_bool (depth prev_wp) (depth wp)).
      - rewrite pydiv_Ok by assumption. eexists. split; [reflexivity|].
        split; [now destruct acc | rewrite length_app; lia].
      - destruct (Qlt_bool (depth wp) (depth prev_wp)).
        + rewrite pydiv_Ok by assumption. eexists. split; [reflexivity|].
          split; [now destruct acc | rewrite length_app; lia].
        + exists acc. auto. }
    destruct H1 as (acc1 & -> & Hne1 & Hlen1). cbn [bind].
    destruct (Hlast acc1 Hne1) as (prev_wp1 & ->). cbn [bind].
    match goal with |- context [complete_loop _ _ _ _ ?a] =>
      destruct (IH (S idx) a) as (res & Hres & Hlen); [now destruct acc1|] end.
    exists res. split; [exact Hres|].
    rewrite length_app in Hlen. simpl in *. lia.
Qed.

(** X9.  Normalization returns for every non-empty plan when neither speed
    is zero; the realized list has at least two waypoints and at least as
    many as the plan. *)
Theorem _complete_waypoints_total (params : Parameters)
    (waypoints : list Waypoint) (desc : bool) :
  waypoints <> [] -> ~ v_desc params == 0 -> ~ v_asc params == 0 ->
  exists res, _complete_waypoints params waypoints desc = Ok res
              /\ (List.length waypoints <= List.length res)%nat
              /\ (2 <= List.length res)%nat.
Proof.
  intros Hne Hd Ha. unfold _complete_waypoints.
  destruct waypoints as [|w0 ws]; [congruence|]. cbn [getitem nth_error bind].
  assert (H1 : exists acc, complete_first params w0 desc = Ok acc /\ acc <> []).
  { unfold complete_first. destruct (negb _).
    - rewrite pydiv_Ok by assumption. cbn [bind].
      destruct desc; eexists; (split; [reflexivity | discriminate]).
    - eexists. split; [reflexivity | discriminate]. }
  destruct H1 as (acc & -> & Hacc). cbn [bind].
  match goal with |- context [complete_loop _ ?n ?r ?i _] =>
    destruct (complete_loop_total params n r Hd Ha i acc Hacc) as (res & Hres & Hlen)
  end.
  exists res. split; [exact Hres|].
  assert (1 <= List.length acc)%nat by (destruct acc; [congruence | simpl; lia]).
  destruct ws; cbn [List.length Nat.eqb tl app] in *; lia.
Qed.

Lemma _complete_waypoints_total_witness :
  exists res, _complete_waypoints Parameters_default stepped_plan true = Ok res
              /\ (List.length stepped_plan <= List.length res)%nat
              /\ (2 <= List.length res)%nat.
Proof.
  apply (_complete_waypoints_total Parameters_default stepped_plan true);
    discriminate.
Defined.

(** X10.  The descent time to the first planned waypoint is computed whether
    or not the descent is to be synthesized: with a zero descent speed and a
    first waypoint away from the surface, normalization raises
    [ZeroDivisionError] under either setting; and an empty plan raises
    [IndexError]. *)
Theorem _complete_waypoints_raises (params : Parameters) (w0 : Waypoint)
    (rest : list Waypoint) (desc : bool) :
  ~ depth w0 == 0 -> v_desc params == 0 ->
  _complete_waypoints params (w0 :: rest) desc = Raise ZeroDivisionError
  /\ _complete_waypoints params [] desc = Raise IndexError.
Proof.
  intros Hdep Hv. split; [|reflexivity].
  unfold _complete_waypoints, complete_first. cbn [getitem nth_error bind].
  apply Qeq_bool_false_iff in Hdep. rewrite Hdep. cbn [negb].
  now rewrite pydiv_zero.
Qed.

(** ** The next decompression stop *)

Lemma Rceil_bounds (x : R) : (x <= IZR (Rceil x) < x + 1)%R.
Proof.
  unfold Rceil. destruct (archimed (- x)) as (H1 & H2).
  rewrite opp_IZR, minus_IZR. lra.
Qed.

Lemma Rceil_0 : Rceil 0 = 0%Z.
Proof.
  pose proof (Rceil_bounds 0) as (H1 & H2).
  apply le_IZR in H1. rewrite Rplus_0_l in H2. apply lt_IZR in H2. lia.
Qed.

Lemma Q2R_inject_Z (z : Z) : Q2R (inject_Z z) = IZR z.
Proof. unfold Q2R. simpl. field. Qed.

(** X11.  With a positive stop increment and a ceiling that is not negative,
    [_calculate_next_deco_stop] returns a depth that is not shallower than
    the ceiling: the surface for a zero ceiling, and for a positive one a
    depth not shallower than the last stop, which is the last-stop depth or
    a whole multiple of the increment. *)
Theorem _calculate_next_deco_stop_covers (params : Parameters) (c : R) :
  0 < stop_depth_incr params -> (0 <= c)%R ->
  exists out,
    _calculate_next_deco_stop params c = Ok out
    /\ (c <= Q2R out)%R
    /\ (c = 0%R -> out == 0)
    /\ ((0 < c)%R -> last_stop_depth params <= out)
    /\ (out = last_stop_depth params
        \/ exists k : Z, out == inject_Z k * stop_depth_incr params).
Proof.
  intros Hincr Hc. unfold _calculate_next_deco_stop.
  replace (Qeq_bool (stop_depth_incr params) 0) with false
    by (symmetry; apply Qeq_bool_false_iff; Lqa.lra).
  set (incr := stop_depth_incr params) in *.
  set (last := last_stop_depth params).
  set (z := Rceil (c / Q2R incr)).
  assert (Hi : (0 < Q2R incr)%R) by now apply Q2R_pos.
  assert (Hz : (c <= IZR z * Q2R incr)%R).
  { destruct (Rceil_bounds (c / Q2R incr)) as (H1 & _). fold z in H1.
    apply (Rmult_le_compat_r (Q2R incr)) in H1; [|lra].
    replace (c / Q2R incr * Q2R incr)%R with c in H1 by (field; lra). exact H1. }
  assert (Hout : Q2R (inject_Z z * incr) = (IZR z * Q2R incr)%R)
    by now rewrite Q2R_mult, Q2R_inject_Z.
  destruct (Rlt_dec 0 c) as [Hpos|Hzero].
  - destruct (Qle_bool (inject_Z z * incr) last
              || Qlt_bool (inject_Z z * incr - last) incr) eqn:E; cbn [andb].
    + destruct (Rlt_dec c (Q2R last)) as [Hlt|Hge].
      * exists last. split; [reflexivity|]. split; [lra|]. split; [lra|].
        split; [intros _; apply Qle_refl | now left].
      * exists (inject_Z z * incr + incr). split; [reflexivity|].
        assert (E2 : Q2R (inject_Z z * incr + incr) = (IZR z * Q2R incr + Q2R incr)%R)
          by now rewrite Q2R_plus, Hout.
        split; [lra|]. split; [lra|]. split.
        -- intros _. apply Rle_Qle. lra.
        -- right. exists (z + 1)%Z. rewrite inject_Z_plus. change (inject_Z 1) with 1.
           ring.
    + exists (inject_Z z * incr). split; [reflexivity|]. split; [lra|]. split; [lra|].
      split.
      * intros _. apply orb_false_iff in E. destruct E as (E1 & _).
        assert (~ inject_Z z * incr <= last).
        { intros H. apply Qle_bool_iff in H. congruence. }
        Lqa.lra.
      * right. exists z. apply Qeq_refl.
  - assert (c = 0%R) by lra. subst c.
    rewrite andb_false_r.
    exists (inject_Z z * incr). split; [reflexivity|]. split; [lra|].
    assert (Ez : z = 0%Z).
    { unfold z. replace (0 / Q2R incr)%R with 0%R by (field; lra). apply Rceil_0. }
    split; [intros _; rewrite Ez; ring|]. split; [lra|].
    right. exists z. apply Qeq_refl.
Qed.

Lemma _calculate_next_deco_stop_covers_witness :
  exists out,
    _calculate_next_deco_stop Parameters_default 4 = Ok out
    /\ (4 <= Q2R out)%R
    /\ (4%R = 0%R -> out == 0)
    /\ ((0 < 4)%R -> last_stop_depth Parameters_default <= out)
    /\ (out = last_stop_depth Parameters_default
        \/ exists k : Z, out == inject_Z k * stop_depth_incr Parameters_default).
Proof.
  apply (_calculate_next_deco_stop_covers Parameters_default 4); [reflexivity | lra].
Defined.

(** ** Tank selection and oxygen-free tanks *)

Lemma admits_inv (d pp_o2 : Q) (t : Tank) :
  admits d pp_o2 t = true ->
  (0 < _O2 (_gas t))%Z /\ Gas_ppO2 (_gas t) d <= pp_o2.
Proof.
  unfold admits. intros H. apply andb_true_iff in H. destruct H as (Hpos & H).
  apply Z.ltb_lt in Hpos. split; [exact Hpos|].
  destruct (Gas_mod (_gas t) pp_o2) as [m|e] eqn:Hm; [|discriminate].
  apply Qle_bool_iff in H.
  now apply (Gas_mod_le_iff _ _ _ _ Hpos Hm).
Qed.

(** X5.  [_select_tank] never raises, also with an oxygen-free tank in the
    list; the index it returns is 0, or the position of a tank that holds
    oxygen and whose oxygen pressure at the depth does not exceed the
    reference pressure. *)
Theorem _select_tank_breathable (tanks : list Tank) (d pp_o2 : Q) :
  exists tk,
    _select_tank tanks d pp_o2 = Ok tk
    /\ (tk = 0%nat
        \/ exists t, nth_error tanks tk = Some t
                     /\ (0 < _O2 (_gas t))%Z
                     /\ Gas_ppO2 (_gas t) d <= pp_o2).
Proof.
  unfold _select_tank.
  destruct (_select_tank_loop_total tanks 0 d pp_o2 0) as (tk & H).
  exists tk. split; [exact H|].
  destruct (_select_tank_loop_last _ _ _ _ _ _ H)
    as [(-> & _) | (pre & t & post & -> & -> & Ha & _)]; [now left|].
  right. exists t. split.
  - rewrite nth_error_app2 by (simpl; lia). simpl.
    now rewrite Nat.sub_diag.
  - now apply admits_inv.
Qed.

Lemma next_gas_stop_scan_raises (ts : list Tank) (d pp_o2 : Q) :
  forall out,
    if existsb (fun t => (_O2 (_gas t) =? 0)%Z) ts
    then next_gas_stop_scan ts d pp_o2 out = Raise ZeroDivisionError
    else exists r, next_gas_stop_scan ts d pp_o2 out = Ok r.
Proof.
  induction ts as [|t ts IH]; intros out; simpl.
  - now exists out.
  - destruct (_O2 (_gas t) =? 0)%Z eqn:E; simpl.
    + apply Z.eqb_eq in E. now rewrite Gas_mod_oxygen_free.
    + apply Z.eqb_neq in E. rewrite Gas_mod_Ok by assumption. cbn [bind].
      destruct (Qlt_bool _ d); [destruct (Qlt_bool out _)|]; apply IH.
Qed.

(** X6.  [_calculate_next_gas_stop] raises [ZeroDivisionError] exactly when
    some tank holds no oxygen, and returns 0 otherwise. *)
Theorem _calculate_next_gas_stop_oxygen_free (tanks : list Tank)
    (params : Parameters) (d pp_o2 : Q) :
  _calculate_next_gas_stop tanks params d pp_o2
  = if existsb (fun t => (_O2 (_gas t) =? 0)%Z) tanks
    then Raise ZeroDivisionError else Ok 0.
Proof.
  unfold _calculate_next_gas_stop.
  pose proof (next_gas_stop_scan_raises tanks d pp_o2 0) as H.
  destruct (existsb _ tanks).
  - now rewrite H.
  - destruct H as (r & ->). reflexivity.
Qed.

(** ** Timing along the loops *)

Lemma bottom_point_waypoint (self : Profile) (t : Z) (ip : IntegrationPoint) :
  bottom_point self t = Ok ip ->
  exists d,
    _interpolate_depth (_waypoints self) (Time_s t) = Ok d
    /\ waypoint ip = mkWaypoint d (dt (_params self)) (Time_s t) 0.
Proof.
  unfold bottom_point. intros H.
  apply bind_Ok in H. destruct H as (d & Hd & H).
  apply bind_Ok in H. destruct H as (ip1 & H1 & H).
  apply bind_Ok in H. destruct H as (c & _ & H).
  inversion H; subst ip; clear H.
  exists d. split; [exact Hd|].
  destruct (rev (_integration_points self)) as [|prev_ip r].
  - inversion H1; subst ip1. reflexivity.
  - apply bind_Ok in H1. destruct H1 as (l & _ & H1).
    apply bind_Ok in H1. destruct H1 as (tp & _ & H1).
    apply bind_Ok in H1. destruct H1 as (cn & _ & H1).
    apply bind_Ok in H1. destruct H1 as (o & _ & H1).
    inversion H1; subst ip1. reflexivity.
Qed.

Lemma deco_stop_point_1_waypoint (self : Profile) (wp : Waypoint)
    (prev_ip ip : IntegrationPoint) (stop_time : Z) :
  deco_stop_point_1 self wp prev_ip stop_time = Ok ip ->
  depth (waypoint ip) = depth wp /\ duration (waypoint ip) = duration wp
  /\ runtime (waypoint ip) = runtime wp.
Proof.
  unfold deco_stop_point_1. intros H.
  apply bind_Ok in H. destruct H as ([n2 he] & Hl & H).
  apply bind_Ok in H. destruct H as (c & _ & H).
  apply bind_Ok in H. destruct H as (ip1 & H1 & H).
  apply bind_Ok in H. destruct H as (tp & Htp & H).
  apply bind_Ok in H. destruct H as (cn & Hcn & H).
  apply bind_Ok in H. destruct H as (o & Ho & H).
  inversion H; subst ip; clear H.
  destruct (switch_due (_params self) stop_time).
  - apply bind_Ok in H1. destruct H1 as (tk & _ & H1).
    inversion H1; subst ip1; clear H1. simpl. auto.
  - inversion H1; subst ip1; clear H1. simpl. auto.
Qed.

Lemma deco_stop_point_2_waypoint (self : Profile) (wp : Waypoint)
    (prev_ip ip : IntegrationPoint) (stop_time : Z) :
  deco_stop_point_2 self wp prev_ip stop_time = Ok ip ->
  depth (waypoint ip) = depth wp /\ duration (waypoint ip) = duration wp
  /\ runtime (waypoint ip) = runtime wp.
Proof.
  unfold deco_stop_point_2. intros H.
  apply bind_Ok in H. destruct H as ([n2 he] & Hl & H).
  apply bind_Ok in H. destruct H as (c & _ & H).
  apply bind_Ok in H. destruct H as (tp & Htp & H).
  apply bind_Ok in H. destruct H as (ip1 & H1 & H).
  apply bind_Ok in H. destruct H as (cn & Hcn & H).
  apply bind_Ok in H. destruct H as (o & Ho & H).
  inversion H; subst ip; clear H.
  destruct (switch_due (_params self) stop_time).
  - apply bind_Ok in H1. destruct H1 as (tk & _ & H1).
    inversion H1; subst ip1; clear H1. simpl. auto.
  - inversion H1; subst ip1; clear H1. simpl. auto.
Qed.

Section TimedChain.

Variable R : list Tank -> Parameters -> IntegrationPoint -> IntegrationPoint -> Prop.

Hypothesis R_ascent : forall self wp prev_ip ip,
  ascent_point self wp prev_ip = Ok ip ->
  stepped (_params self) prev_ip wp ->
  R (_tanks self) (_params self) prev_ip ip.
Hypothesis R_bottom : forall self t pre prev_ip ip,
  _integration_points self = (pre ++ [prev_ip])%list ->
  bottom_point self t = Ok ip ->
  t = (runtime_s (waypoint prev_ip) + _seconds (dt (_params self)))%Z ->
  R (_tanks self) (_params self) prev_ip ip.
Hypothesis R_deco_1 : forall self wp prev_ip ip stop_time,
  deco_stop_point_1 self wp prev_ip stop_time = Ok ip ->
  stepped (_params self) prev_ip wp ->
  R (_tanks self) (_params self) prev_ip ip.
Hypothesis R_deco_2 : forall self wp prev_ip ip stop_time,
  deco_stop_point_2 self wp prev_ip stop_time = Ok ip ->
  stepped (_params self) prev_ip wp ->
  R (_tanks self) (_params self) prev_ip ip.

Lemma stepped_intro (params : Parameters) (prev_ip : IntegrationPoint)
    (t : Z) (d : Q) (tk : nat) :
  t = runtime_s (waypoint prev_ip) ->
  stepped params prev_ip
    (Waypoint_init d (ArgTime (dt params))
       (ArgTime (Time_s (t + _seconds (dt params)))) tk).
Proof. intros ->. split; reflexivity. Qed.

Lemma ascent_point_runtime (self : Profile) (wp : Waypoint)
    (prev_ip ip : IntegrationPoint) (t : Z) :
  ascent_point self wp prev_ip = Ok ip -> runtime wp = Time_s t ->
  t = runtime_s (waypoint ip).
Proof.
  intros H Hrt. apply ascent_point_fields in H. destruct H as (-> & _).
  unfold runtime_s. now rewrite Hrt.
Qed.

Lemma direct_ascent_loop_timed (fuel : nat) (self : Profile) (d : Q)
    (base : list IntegrationPoint) :
  forall prev_ip t out res,
    direct_ascent_loop fuel self d prev_ip t out = Ok res ->
    t = runtime_s (waypoint prev_ip) ->
    last_item (base ++ out) = Ok prev_ip ->
    chain (R (_tanks self) (_params self)) (base ++ out) ->
    chain (R (_tanks self) (_params self)) (base ++ res).
Proof.
  induction fuel as [|fuel IH]; intros prev_ip t out res H Ht Hlast Hc;
    simpl in H; [discriminate|].
  destruct (Qlt_bool d (depth (waypoint prev_ip))).
  - apply bind_Ok in H. destruct H as (ip & Hip & H).
    pose proof (R_ascent _ _ _ _ Hip (stepped_intro _ _ _ _ _ Ht)) as Hr.
    destruct (chain_step R _ _ _ _ _ ip Hlast Hc Hr) as (Hc' & Hlast').
    exact (IH _ _ _ _ H (ascent_point_runtime _ _ _ _ _ Hip eq_refl) Hlast' Hc').
  - inversion H. now subst.
Qed.

Lemma safety_stop_loop_timed (fuel : nat) (self : Profile)
    (base : list IntegrationPoint) :
  forall prev_ip t timer out res,
    safety_stop_loop fuel self prev_ip t timer out = Ok res ->
    t = runtime_s (waypoint prev_ip) ->
    last_item (base ++ out) = Ok prev_ip ->
    chain (R (_tanks self) (_params self)) (base ++ out) ->
    chain (R (_tanks self) (_params self)) (base ++ res).
Proof.
  induction fuel as [|fuel IH]; intros prev_ip t timer out res H Ht Hlast Hc;
    simpl in H; [discriminate|].
  destruct (timer <? _)%Z.
  - apply bind_Ok in H. destruct H as (ip & Hip & H).
    pose proof (R_ascent _ _ _ _ Hip (stepped_intro _ _ _ _ _ Ht)) as Hr.
    destruct (chain_step R _ _ _ _ _ ip Hlast Hc Hr) as (Hc' & Hlast').
    exact (IH _ _ _ _ _ H (ascent_point_runtime _ _ _ _ _ Hip eq_refl) Hlast' Hc').
  - inversion H. now subst.
Qed.

Lemma deco_stop_point_1_runtime (self : Profile) (wp : Waypoint)
    (prev_ip ip : IntegrationPoint) (stop_time t : Z) :
  deco_stop_point_1 self wp prev_ip stop_time = Ok ip -> runtime wp = Time_s t ->
  t = runtime_s (waypoint ip).
Proof.
  intros H Hrt. apply deco_stop_point_1_waypoint in H. destruct H as (_ & _ & H).
  unfold runtime_s. now rewrite H, Hrt.
Qed.

Lemma deco_stop_point_2_runtime (self : Profile) (wp : Waypoint)
    (prev_ip ip : IntegrationPoint) (stop_time t : Z) :
  deco_stop_point_2 self wp prev_ip stop_time = Ok ip -> runtime wp = Time_s t ->
  t = runtime_s (waypoint ip).
Proof.
  intros H Hrt. apply deco_stop_point_2_waypoint in H. destruct H as (_ & _ & H).
  unfold runtime_s. now rewrite H, Hrt.
Qed.

Lemma deco_hold_loop_timed (fuel : nat) (self : Profile) (d : Q)
    (base : list IntegrationPoint) :
  forall next_deco_stop st st',
    deco_hold_loop fuel self d next_deco_stop st = Ok st' ->
    ss_t st = runtime_s (waypoint (ss_prev_ip st)) ->
    stop_inv (R (_tanks self) (_params self)) base st ->
    ss_t st' = runtime_s (waypoint (ss_prev_ip st'))
    /\ stop_inv (R (_tanks self) (_params self)) base st'.
Proof.
  induction fuel as [|fuel IH]; intros nds st st' H Ht (Hlast & Hc);
    simpl in H; [discriminate|].
  destruct (Rlt_dec _ _).
  - apply bind_Ok in H. destruct H as (ip & Hip & H).
    apply bind_Ok in H. destruct H as (nds' & _ & H).
    pose proof (R_deco_1 _ _ _ _ _ Hip (stepped_intro _ _ _ _ _ Ht)) as Hr.
    pose proof (deco_stop_point_1_runtime _ _ _ _ _ _ Hip eq_refl) as Ht'.
    destruct (chain_step R _ _ _ _ _ ip Hlast Hc Hr) as (Hc' & Hlast').
    destruct (Qlt_bool nds' d).
    + inversion H. subst. split; [exact Ht' | split; assumption].
    + apply (IH _ _ _ H); [exact Ht' | split; assumption].
  - inversion H. subst. split; [exact Ht | split; assumption].
Qed.

Lemma deco_minute_loop_timed (fuel : nat) (self : Profile) (d : Q)
    (base : list IntegrationPoint) :
  forall st st',
    deco_minute_loop fuel self d st = Ok st' ->
    ss_t st = runtime_s (waypoint (ss_prev_ip st)) ->
    stop_inv (R (_tanks self) (_params self)) base st ->
    stop_inv (R (_tanks self) (_params self)) base st'.
Proof.
  induction fuel as [|fuel IH]; intros st st' H Ht (Hlast & Hc);
    simpl in H; [discriminate|].
  destruct (negb _).
  - apply bind_Ok in H. destruct H as (ip & Hip & H).
    pose proof (R_deco_2 _ _ _ _ _ Hip (stepped_intro _ _ _ _ _ Ht)) as Hr.
    pose proof (deco_stop_point_2_runtime _ _ _ _ _ _ Hip eq_refl) as Ht'.
    destruct (chain_step R _ _ _ _ _ ip Hlast Hc Hr) as (Hc' & Hlast').
    apply (IH _ _ H); [exact Ht' | split; assumption].
  - inversion H. subst. split; assumption.
Qed.

Lemma _add_deco_stop_timed (fuel : nat) (self : Profile) (d : Q)
    (base s : list IntegrationPoint) (prev_ip : IntegrationPoint) :
  _add_deco_stop fuel self d prev_ip = Ok s ->
  last_item base = Ok prev_ip ->
  chain (R (_tanks self) (_params self)) base ->
  chain (R (_tanks self) (_params self)) (base ++ s).
Proof.
  unfold _add_deco_stop. intros H Hlast Hc.
  apply bind_Ok in H. destruct H as (nds & _ & H).
  apply bind_Ok in H. destruct H as (st1 & H1 & H).
  apply bind_Ok in H. destruct H as (st2 & H2 & H).
  inversion H; subst s.
  apply (deco_hold_loop_timed _ _ _ base) in H1.
  - destruct H1 as (Ht1 & Hinv1).
    apply (deco_minute_loop_timed _ _ _ base) in H2; [apply H2 | exact Ht1 | exact Hinv1].
  - reflexivity.
  - split; simpl; rewrite app_nil_r; assumption.
Qed.

Lemma deco_travel_loop_timed (fuel : nat) (self : Profile)
    (base : list IntegrationPoint) :
  forall st out st' out',
    deco_travel_loop fuel self st out = Ok (st', out') ->
    ds_t st = runtime_s (waypoint (ds_prev_ip st)) ->
    last_item (base ++ out) = Ok (ds_prev_ip st) ->
    chain (R (_tanks self) (_params self)) (base ++ out) ->
    last_item (base ++ out') = Ok (ds_prev_ip st')
    /\ chain (R (_tanks self) (_params self)) (base ++ out')
    /\ ds_segments st' = ds_segments st
    /\ ds_next_gas_stop st' = ds_next_gas_stop st.
Proof.
  induction fuel as [|fuel IH]; intros st out st' out' H Ht Hlast Hc;
    simpl in H; [discriminate|].
  destruct (Qlt_bool _ _).
  - apply bind_Ok in H. destruct H as (ip & Hip & H).
    apply bind_Ok in H. destruct H as (nds & _ & H).
    pose proof (R_ascent _ _ _ _ Hip (stepped_intro _ _ _ _ _ Ht)) as Hr.
    pose proof (ascent_point_runtime _ _ _ _ _ Hip eq_refl) as Ht'.
    destruct (chain_step R _ _ _ _ _ ip Hlast Hc Hr) as (Hc' & Hlast').
    apply IH in H; [exact H | exact Ht' | exact Hlast' | exact Hc'].
  - inversion H. subst. repeat split; assumption.
Qed.

Lemma deco_outer_body_timed (fuel : nat) (self : Profile)
    (base : list IntegrationPoint) (st st' : deco_state) :
  deco_outer_body fuel self st = Ok st' ->
  ds_next_gas_stop st = 0 ->
  ds_t st = runtime_s (waypoint (ds_prev_ip st)) ->
  last_item (base ++ List.concat (ds_segments st)) = Ok (ds_prev_ip st) ->
  chain (R (_tanks self) (_params self)) (base ++ List.concat (ds_segments st)) ->
  ds_next_gas_stop st' = 0
  /\ ds_t st' = runtime_s (waypoint (ds_prev_ip st'))
  /\ last_item (base ++ List.concat (ds_segments st')) = Ok (ds_prev_ip st')
  /\ chain (R (_tanks self) (_params self))
       (base ++ List.concat (ds_segments st')).
Proof.
  intros H Hgas Ht Hlast Hc.
  split; [exact (deco_outer_body_gas_stop _ _ _ _ Hgas H)|].
  unfold deco_outer_body in H.
  apply bind_Ok in H. destruct H as ([st1 out] & Htravel & H).
  cbn [fst snd] in H.
  apply (deco_travel_loop_timed _ _ (base ++ List.concat (ds_segments st)))
    in Htravel;
    [|exact Ht | rewrite app_nil_r; exact Hlast | rewrite app_nil_r; exact Hc].
  destruct Htravel as (_ & Hc1 & Hsegs & Hgas1).
  rewrite Hgas in Hgas1. rewrite Hgas1 in H.
  set (segments1 := match out with
                    | [] => ds_segments st1
                    | _ :: _ => (ds_segments st1 ++ [out])%list
                    end) in H.
  assert (Hc1' : chain (R (_tanks self) (_params self))
                   (base ++ List.concat segments1)).
  { unfold segments1. rewrite Hsegs. destruct out as [|x out].
    - now rewrite app_nil_r in Hc1.
    - rewrite concat_app. simpl. rewrite app_nil_r.
      now rewrite <- app_assoc in Hc1. }
  clearbody segments1. clear Hc1 Hsegs Hlast Hc.
  apply bind_Ok in H. destruct H as (((segments2 & nds2) & ns2) & H2 & H).
  assert (Hc2 : chain (R (_tanks self) (_params self))
                  (base ++ List.concat segments2)).
  { destruct (Qlt_bool 0 (ds_next_deco_stop st1)
              && Qlt_bool 0 (ds_next_deco_stop st1)).
    - apply bind_Ok in H2. destruct H2 as (from_ip & Hfrom & H2).
      apply bind_Ok in H2. destruct H2 as (s & Hs & H2).
      apply bind_Ok in H2. destruct H2 as (ip & _ & H2).
      apply bind_Ok in H2. destruct H2 as (nds & _ & H2).
      inversion H2; subst.
      rewrite concat_app. simpl. rewrite app_nil_r, app_assoc.
      apply (_add_deco_stop_timed _ _ _ _ _ _ Hs); [|exact Hc1'].
      now apply last_of_last_concat.
    - inversion H2; subst. exact Hc1'. }
  clear H2 Hc1'.
  change (Qlt_bool 0 0) with false in H. cbn [andb bind] in H.
  apply bind_Ok in H. destruct H as (prev_ip & Hprev & H).
  inversion H; subst st'; clear H. cbn [ds_segments ds_prev_ip ds_t].
  split; [reflexivity|].
  split; [now apply last_of_last_concat | exact Hc2].
Qed.

Lemma deco_outer_loop_timed (fuel inner : nat) (self : Profile) (d : Q)
    (base : list IntegrationPoint) :
  forall st st',
    deco_outer_loop fuel inner self d st = Ok st' ->
    ds_next_gas_stop st = 0 ->
    ds_t st = runtime_s (waypoint (ds_prev_ip st)) ->
    last_item (base ++ List.concat (ds_segments st)) = Ok (ds_prev_ip st) ->
    chain (R (_tanks self) (_params self)) (base ++ List.concat (ds_segments st)) ->
    chain (R (_tanks self) (_params self)) (base ++ List.concat (ds_segments st'))
    /\ last_item (base ++ List.concat (ds_segments st')) = Ok (ds_prev_ip st')
    /\ depth (waypoint (ds_prev_ip st')) <= d.
Proof.
  induction fuel as [|fuel IH]; intros st st' H Hgas Ht Hlast Hc;
    simpl in H; [discriminate|].
  destruct (Qlt_bool _ _) eqn:E.
  - apply bind_Ok in H. destruct H as (st1 & Hbody & H).
    destruct (deco_outer_body_timed _ _ _ _ _ Hbody Hgas Ht Hlast Hc)
      as (Hgas1 & Ht1 & Hlast1 & Hc1).
    exact (IH _ _ H Hgas1 Ht1 Hlast1 Hc1).
  - inversion H. subst. repeat split; try assumption.
    now apply Qlt_bool_false_iff.
Qed.

Lemma _calculate_deco_ascent_timed (fuel : nat) (self self' : Profile) (d : Q)
    (ip : IntegrationPoint) (out : list IntegrationPoint) :
  _calculate_deco_ascent fuel self d ip true = Ok (self', out) ->
  last_item (_integration_points self) = Ok ip ->
  chain (R (_tanks self) (_params self)) (_integration_points self) ->
  chain (R (_tanks self') (_params self')) (_integration_points self').
Proof.
  unfold _calculate_deco_ascent. intros H Hlast Hc.
  apply bind_Ok in H. destruct H as (nds & _ & H).
  apply bind_Ok in H. destruct H as (ngs & Hngs & H).
  apply _calculate_next_gas_stop_zero in Hngs. subst ngs.
  apply bind_Ok in H. destruct H as (st & Hloop & H).
  apply bind_Ok in H. destruct H as (self1 & Happ & H).
  inversion H; subst self1 out; clear H.
  apply append_segments_points in Happ. destruct Happ as (-> & -> & ->).
  apply (deco_outer_loop_timed _ _ _ _ _ _ _ Hloop); simpl;
    [reflexivity | reflexivity | rewrite app_nil_r; assumption ..].
Qed.

Lemma _calculate_direct_ascent_timed (fuel : nat) (self self' : Profile) (d : Q)
    (ip : IntegrationPoint) (out : list IntegrationPoint) :
  _calculate_direct_ascent fuel self d ip true = Ok (self', out) ->
  last_item (_integration_points self) = Ok ip ->
  chain (R (_tanks self) (_params self)) (_integration_points self) ->
  chain (R (_tanks self') (_params self')) (_integration_points self').
Proof.
  unfold _calculate_direct_ascent. intros H Hlast Hc.
  apply bind_Ok in H. destruct H as (res & Hloop & H).
  apply bind_Ok in H. destruct H as (self1 & Happ & H).
  inversion H; subst self1 out; clear H.
  apply append_segment_points in Happ. destruct Happ as (-> & -> & ->).
  apply (direct_ascent_loop_timed _ _ _ _ _ _ _ _ Hloop);
    [reflexivity | rewrite app_nil_r; assumption ..].
Qed.

Lemma _calculate_regular_ascent_timed (fuel : nat) (self self' : Profile) (d : Q)
    (ip : IntegrationPoint) (out : list IntegrationPoint) :
  _calculate_regular_ascent fuel self d ip true = Ok (self', out) ->
  last_item (_integration_points self) = Ok ip ->
  chain (R (_tanks self) (_params self)) (_integration_points self) ->
  chain (R (_tanks self') (_params self')) (_integration_points self').
Proof.
  unfold _calculate_regular_ascent, _calculate_direct_ascent.
  intros H Hlast Hc.
  apply bind_Ok in H. destruct H as (segments & Hsegs & H).
  apply bind_Ok in H. destruct H as (self1 & Happ & H).
  inversion H; subst self1 out; clear H.
  apply append_segments_points in Happ. destruct Happ as (-> & -> & ->).
  destruct (Qlt_bool (safety_stop_depth (_params self)) d).
  - apply bind_Ok in Hsegs. destruct Hsegs as (r & Hr & Hsegs).
    apply bind_Ok in Hr. destruct Hr as (seg1 & H1 & Hr).
    inversion Hr; subst r. inversion Hsegs; subst segments. simpl.
    rewrite app_nil_r.
    apply (direct_ascent_loop_timed _ _ _ _ _ _ _ _ H1);
      [reflexivity | rewrite app_nil_r; assumption ..].
  - apply bind_Ok in Hsegs. destruct Hsegs as (r & Hr & Hsegs).
    apply bind_Ok in Hr. destruct Hr as (seg1 & H1 & Hr).
    inversion Hr; subst r; clear Hr. cbn [snd] in Hsegs.
    apply bind_Ok in Hsegs. destruct Hsegs as (seg & Hseg & Hsegs).
    cbn in Hseg. inversion Hseg; subst seg; clear Hseg.
    apply bind_Ok in Hsegs. destruct Hsegs as (ip1 & Hip1 & Hsegs).
    apply bind_Ok in Hsegs. destruct Hsegs as (seg2 & H2 & Hsegs).
    apply bind_Ok in Hsegs. destruct Hsegs as (seg & Hseg & Hsegs).
    cbn in Hseg. inversion Hseg; subst seg; clear Hseg.
    apply bind_Ok in Hsegs. destruct Hsegs as (ip2 & Hip2 & Hsegs).
    apply bind_Ok in Hsegs. destruct Hsegs as (r & Hr & Hsegs).
    apply bind_Ok in Hr. destruct Hr as (seg3 & H3 & Hr).
    inversion Hr; subst r; clear Hr. inversion Hsegs; subst segments.
    simpl. rewrite app_nil_r.
    assert (C1 : chain (R (_tanks self) (_params self))
                   (_integration_points self ++ seg1)).
    { apply (direct_ascent_loop_timed _ _ _ _ _ _ _ _ H1);
        [reflexivity | rewrite app_nil_r; assumption ..]. }
    assert (C2 : chain (R (_tanks self) (_params self))
                   ((_integration_points self ++ seg1) ++ seg2)).
    { apply (safety_stop_loop_timed _ _ _ _ _ _ _ _ H2);
        [reflexivity | rewrite app_nil_r; now apply last_item_app_r
        | rewrite app_nil_r; exact C1]. }
    rewrite !app_assoc.
    apply (direct_ascent_loop_timed _ _ _ _ _ _ _ _ H3);
      [reflexivity | rewrite app_nil_r; now apply last_item_app_r
      | rewrite app_nil_r; exact C2].
Qed.

Lemma bottom_while_timed (fuel : nat) :
  forall self bound t t' self',
    bottom_while fuel self bound t = Ok (t', self') ->
    bottom_clock self t ->
    chain (R (_tanks self) (_params self)) (_integration_points self) ->
    chain (R (_tanks self') (_params self')) (_integration_points self')
    /\ bottom_clock self' t'.
Proof.
  induction fuel as [|fuel IH]; intros self bound t t' self' H Ht Hc;
    simpl in H; [discriminate|].
  destruct (t <=? bound)%Z.
  - apply bind_Ok in H. destruct H as (ip & Hip & H).
    apply IH in H; [exact H| |].
    + unfold bottom_clock. simpl. rewrite rev_app_distr. simpl.
      destruct (bottom_point_waypoint _ _ _ Hip) as (d & _ & ->). reflexivity.
    + simpl. unfold bottom_clock in Ht.
      destruct (_integration_points self) as [|x xs] eqn:E using rev_ind.
      * apply chain_single.
      * clear IHxs. apply chain_snoc; [exact Hc|].
        rewrite rev_app_distr in Ht. simpl in Ht.
        exact (R_bottom _ _ _ _ _ E Hip Ht).
  - inversion H. subst. auto.
Qed.

Lemma bottom_for_timed (fuel : nat) (wps : list Waypoint) :
  forall self t self',
    bottom_for fuel self wps t = Ok self' ->
    bottom_clock self t ->
    chain (R (_tanks self) (_params self)) (_integration_points self) ->
    chain (R (_tanks self') (_params self')) (_integration_points self').
Proof.
  induction wps as [|wp wps IH]; intros self t self' H Ht Hc; simpl in H.
  - inversion H. now subst.
  - destruct (_ <? t)%Z.
    + exact (IH _ _ _ H Ht Hc).
    + apply bind_Ok in H. destruct H as ([t1 self1] & Hw & H).
      apply bottom_while_timed in Hw; [|exact Ht|exact Hc].
      destruct Hw as (Hc1 & Ht1). exact (IH _ _ _ H Ht1 Hc1).
Qed.

Lemma Profile_init_timed (fuel : nat) (waypoints : list Waypoint)
    (tanks : list Tank) (params : Parameters) (self : Profile) :
  Profile_init fuel waypoints tanks params = Ok self ->
  chain (R (_tanks self) (_params self)) (_integration_points self).
Proof.
  unfold Profile_init. intros H.
  apply bind_Ok in H. destruct H as (wps & _ & H).
  apply bind_Ok in H. destruct H as (self1 & Hbottom & H).
  apply bind_Ok in H. destruct H as (last_ip & Hlast & H).
  apply bind_Ok in H. destruct H as (r & _ & H).
  apply bind_Ok in H. destruct H as (end_ip & _ & H).
  assert (Hc : chain (R (_tanks self1) (_params self1))
                 (_integration_points self1)).
  { apply (bottom_for_timed _ _ _ _ _ Hbottom); [reflexivity | apply chain_nil]. }
  cbv zeta in H. unfold Profile_ascend in H.
  destruct (Rlt_dec 0 (ceiling end_ip));
    [|destruct (safety_stop (_params self1))].
  - apply bind_Ok in H. destruct H as ([self2 out] & Hrun & H).
    inversion H; subst self2.
    exact (_calculate_deco_ascent_timed _ _ _ _ _ _ Hrun Hlast Hc).
  - apply bind_Ok in H. destruct H as ([self2 out] & Hrun & H).
    inversion H; subst self2.
    exact (_calculate_regular_ascent_timed _ _ _ _ _ _ Hrun Hlast Hc).
  - apply bind_Ok in H. destruct H as ([self2 out] & Hrun & H).
    inversion H; subst self2.
    exact (_calculate_direct_ascent_timed _ _ _ _ _ _ Hrun Hlast Hc).
Qed.

End TimedChain.

(** ** The phases of the constructor *)

Lemma bottom_point_ceilings (self : Profile) (t : Z) (ip : IntegrationPoint) :
  bottom_point self t = Ok ip ->
  _calculate_ceilings (_waypoints self) (_params self) ip = Ok (ceilings ip).
Proof.
  unfold bottom_point. intros H.
  apply bind_Ok in H. destruct H as (d & _ & H).
  apply bind_Ok in H. destruct H as (ip1 & _ & H).
  apply bind_Ok in H. destruct H as (c & Hc & H).
  inversion H; subst ip. exact Hc.
Qed.

Lemma bottom_point_first (self : Profile) (t : Z) (ip : IntegrationPoint) :
  _integration_points self = [] ->
  bottom_point self t = Ok ip ->
  exists d c,
    _interpolate_depth (_waypoints self) (Time_s t) = Ok d
    /\ ip = mkIntegrationPoint (mkWaypoint d (dt (_params self)) (Time_s t) 0)
              (map start_pressure (_tanks self))
              (repeat (Q2R (0.79 * (1 - pw))) 16) (repeat 0%R 16) c
              0%R 0%R 0%R 0%R.
Proof.
  intros Hips. unfold bottom_point. rewrite Hips. cbn [rev]. intros H.
  apply bind_Ok in H. destruct H as (d & Hd & H). cbn [bind] in H.
  apply bind_Ok in H. destruct H as (c & _ & H).
  inversion H. exists d, c. split; [exact Hd | reflexivity].
Qed.

Lemma bottom_while_head (fuel : nat) :
  forall self bound t t' self',
    bottom_while fuel self bound t = Ok (t', self') ->
    _waypoints self' = _waypoints self
    /\ exists new,
         _integration_points self' = (_integration_points self ++ new)%list
         /\ (new = [] -> t' = t /\ self' = self)
         /\ (forall ip0 rest, new = ip0 :: rest -> bottom_point self t = Ok ip0).
Proof.
  induction fuel as [|fuel IH]; intros self bound t t' self' H;
    simpl in H; [discriminate|].
  destruct (t <=? bound)%Z.
  - apply bind_Ok in H. destruct H as (ip & Hip & H).
    apply IH in H. destruct H as (Hw & new & Hnew & _ & _). simpl in Hw, Hnew.
    split; [exact Hw|]. exists (ip :: new). split; [|split].
    + rewrite Hnew, <- app_assoc. reflexivity.
    + discriminate.
    + intros ip0 rest E. inversion E; subst. exact Hip.
  - inversion H; subst. split; [reflexivity|]. exists [].
    split; [now rewrite app_nil_r|]. split; [auto | discriminate].
Qed.

Lemma bottom_for_head (fuel : nat) (wps : list Waypoint) :
  forall self t self',
    bottom_for fuel self wps t = Ok self' ->
    _waypoints self' = _waypoints self
    /\ exists new,
         _integration_points self' = (_integration_points self ++ new)%list
         /\ (forall ip0 rest, new = ip0 :: rest -> bottom_point self t = Ok ip0).
Proof.
  induction wps as [|wp wps IH]; intros self t self' H; simpl in H.
  - inversion H; subst. split; [reflexivity|]. exists [].
    split; [now rewrite app_nil_r | discriminate].
  - destruct (_ <? t)%Z.
    + exact (IH _ _ _ H).
    + apply bind_Ok in H. destruct H as ([t1 self1] & Hw & H). cbn [fst snd] in H.
      apply bottom_while_head in Hw.
      destruct Hw as (Hw1 & new1 & Hnew1 & Hnil & Hhead).
      apply IH in H. destruct H as (Hw2 & new2 & Hnew2 & Hhead2).
      split; [congruence|]. exists (new1 ++ new2)%list. split.
      * rewrite Hnew2, Hnew1, <- app_assoc. reflexivity.
      * destruct new1 as [|x new1].
        -- destruct (Hnil eq_refl) as (-> & ->). exact Hhead2.
        -- intros ip0 rest E. inversion E; subst. now apply (Hhead ip0 new1).
Qed.

(** The constructor runs the bottom phase and then only appends to its
    integration points. *)
Lemma Profile_init_phases (fuel : nat) (waypoints : list Waypoint)
    (tanks : list Tank) (params : Parameters) (self : Profile) :
  Profile_init fuel waypoints tanks params = Ok self ->
  exists self1 last_ip ascent,
    bottom_phase fuel waypoints tanks params = Ok self1
    /\ last_item (_integration_points self1) = Ok last_ip
    /\ 0 < depth (waypoint last_ip)
    /\ _integration_points self = (_integration_points self1 ++ ascent)%list.
Proof.
  unfold Profile_init, bottom_phase. intros H.
  apply bind_Ok in H. destruct H as (wps & Hwps & H). rewrite Hwps. cbn [bind].
  apply bind_Ok in H. destruct H as (self1 & Hbottom & H).
  apply bind_Ok in H. destruct H as (last_ip & Hlast & H).
  apply bind_Ok in H. destruct H as (r & Hr & H).
  apply bind_Ok in H. destruct H as (end_ip & Hend & H).
  exists self1, last_ip.
  assert (Hdeep : 0 < depth (waypoint last_ip)).
  { unfold _calculate_direct_ascent in Hr.
    apply bind_Ok in Hr. destruct Hr as (out & Hout & Hr).
    inversion Hr; subst r; clear Hr. cbn [snd] in Hend.
    destruct fuel as [|fuel]; [discriminate|]. simpl in Hout.
    destruct (Qlt_bool 0 (depth (waypoint last_ip))) eqn:E.
    - now apply Qlt_bool_iff.
    - inversion Hout; subst out. discriminate. }
  cbv zeta in H. unfold Profile_ascend in H.
  destruct (Rlt_dec 0 (ceiling end_ip));
    [|destruct (safety_stop (_params self1))].
  - apply bind_Ok in H. destruct H as ([self2 out] & Hrun & H).
    inversion H; subst self2; clear H.
    unfold _calculate_deco_ascent in Hrun.
    apply bind_Ok in Hrun. destruct Hrun as (nds & _ & Hrun).
    apply bind_Ok in Hrun. destruct Hrun as (ngs & _ & Hrun).
    apply bind_Ok in Hrun. destruct Hrun as (st & _ & Hrun).
    apply bind_Ok in Hrun. destruct Hrun as (self2 & Happ & Hrun).
    inversion Hrun; subst self2.
    apply append_segments_points in Happ. destruct Happ as (E & _).
    eexists. repeat split; eassumption.
  - apply bind_Ok in H. destruct H as ([self2 out] & Hrun & H).
    inversion H; subst self2; clear H.
    unfold _calculate_regular_ascent in Hrun.
    apply bind_Ok in Hrun. destruct Hrun as (segments & _ & Hrun).
    apply bind_Ok in Hrun. destruct Hrun as (self2 & Happ & Hrun).
    inversion Hrun; subst self2.
    apply append_segments_points in Happ. destruct Happ as (E & _).
    eexists. repeat split; eassumption.
  - apply bind_Ok in H. destruct H as ([self2 out] & Hrun & H).
    inversion H; subst self2; clear H.
    unfold _calculate_direct_ascent in Hrun.
    apply bind_Ok in Hrun. destruct Hrun as (res & _ & Hrun).
    apply bind_Ok in Hrun. destruct Hrun as (self2 & Happ & Hrun).
    inversion Hrun; subst self2.
    apply append_segment_points in Happ. destruct Happ as (E & _).
    eexists. repeat split; eassumption.
Qed.

Lemma bottom_phase_first (fuel : nat) (waypoints : list Waypoint)
    (tanks : list Tank) (params : Parameters) (self1 : Profile)
    (ip0 : IntegrationPoint) :
  bottom_phase fuel waypoints tanks params = Ok self1 ->
  nth_error (_integration_points self1) 0 = Some ip0 ->
  initial_point tanks params ip0.
Proof.
  unfold bottom_phase, _calculate_bottom. intros H Hip0.
  apply bind_Ok in H. destruct H as (wps & _ & H).
  apply bottom_for_head in H. destruct H as (_ & new & Hnew & Hhead).
  simpl in Hnew. rewrite Hnew in Hip0.
  destruct new as [|x rest]; [discriminate|]. inversion Hip0; subst x.
  specialize (Hhead ip0 rest eq_refl).
  pose proof (bottom_point_ceilings _ _ _ Hhead) as Hc.
  apply bottom_point_first in Hhead; [|reflexivity].
  destruct Hhead as (d & c & _ & E). cbn [_waypoints _params _tanks] in *.
  clear Hnew. subst ip0. unfold initial_point.
  do 10 (split; [reflexivity|]). exists wps. exact Hc.
Qed.

Lemma Profile_init_first (fuel : nat) (waypoints : list Waypoint)
    (tanks : list Tank) (params : Parameters) (self : Profile) :
  Profile_init fuel waypoints tanks params = Ok self ->
  exists ip0, nth_error (_integration_points self) 0 = Some ip0
              /\ initial_point tanks params ip0.
Proof.
  intros H. apply Profile_init_phases in H.
  destruct H as (self1 & last_ip & ascent & Hb & Hlast & _ & E).
  apply last_item_inv in Hlast. destruct Hlast as (pre & Hpre).
  destruct (_integration_points self1) as [|ip0 rest] eqn:E1;
    [now destruct pre|].
  exists ip0. rewrite E. split; [reflexivity|].
  apply (bottom_phase_first _ _ _ _ _ _ Hb). now rewrite E1.
Qed.

Lemma Profile_init_timing (fuel : nat) (waypoints : list Waypoint)
    (tanks : list Tank) (params : Parameters) (self : Profile) :
  Profile_init fuel waypoints tanks params = Ok self ->
  chain (timed tanks params) (_integration_points self).
Proof.
  intros H. destruct (Profile_init_state _ _ _ _ _ H) as (T & P).
  rewrite <- T, <- P.
  apply (Profile_init_timed timed) with (5 := H).
  - intros self0 wp prev_ip ip Hip Hwp.
    apply ascent_point_fields in Hip. destruct Hip as (E & _).
    unfold timed. now rewrite E.
  - intros self0 t pre prev_ip ip _ Hip ->.
    destruct (bottom_point_waypoint _ _ _ Hip) as (d & _ & E).
    unfold timed, stepped. rewrite E. split; reflexivity.
  - intros self0 wp prev_ip ip st Hip (Hrt & Hdur).
    apply deco_stop_point_1_waypoint in Hip. destruct Hip as (_ & Hd & Hr).
    unfold timed, stepped. rewrite Hd, Hr. split; assumption.
  - intros self0 wp prev_ip ip st Hip (Hrt & Hdur).
    apply deco_stop_point_2_waypoint in Hip. destruct Hip as (_ & Hd & Hr).
    unfold timed, stepped. rewrite Hd, Hr. split; assumption.
Qed.

(** X12.  Along every profile the constructor returns, the integration
    points are one time step apart from runtime 0 on: the point at position
    [i] is at [i] time steps, and each lasts one time step. *)
Theorem Profile_init_runtimes (fuel : nat) (waypoints : list Waypoint)
    (tanks : list Tank) (params : Parameters) (self : Profile) :
  Profile_init fuel waypoints tanks params = Ok self ->
  forall i ip,
    nth_error (_integration_points self) i = Some ip ->
    runtime (waypoint ip) = Time_s (Z.of_nat i * _seconds (dt params))
    /\ duration (waypoint ip) = dt params.
Proof.
  intros H. pose proof (Profile_init_timing _ _ _ _ _ H) as Hc.
  destruct (Profile_init_first _ _ _ _ _ H) as (ip0 & Hip0 & Hrt0 & Hd0 & _).
  induction i as [|i IH]; intros ip Hip.
  - rewrite Hip0 in Hip. inversion Hip; subst ip. now split.
  - destruct (nth_error (_integration_points self) i) as [prev_ip|] eqn:Hprev.
    + destruct (IH _ eq_refl) as (Hrt & _).
      destruct (Hc i prev_ip ip Hprev Hip) as (Hr & Hd).
      split; [|exact Hd]. rewrite Hr. unfold runtime_s. rewrite Hrt.
      f_equal. cbn [Time_s _seconds]. lia.
    + exfalso. apply nth_error_None in Hprev.
      assert (nth_error (_integration_points self) (S i) <> None) by congruence.
      apply nth_error_Some in H0. lia.
Qed.

Lemma Profile_init_runtimes_witness :
  exists self,
    Profile_init 64 short_dive [Tank_default] short_params = Ok self
    /\ forall i ip,
         nth_error (_integration_points self) i = Some ip ->
         runtime (waypoint ip) = Time_s (Z.of_nat i * _seconds (dt short_params))
         /\ duration (waypoint ip) = dt short_params.
Proof.
  destruct short_profile_constructed as (self & H & _).
  exists self. split; [exact H|].
  exact (Profile_init_runtimes 64 short_dive [Tank_default] short_params self H).
Defined.

(** X13.  The first integration point of every profile the constructor
    returns is the initial state: runtime 0, tank 0, every tank at its start
    pressure, every compartment at the nitrogen pressure of air at the
    surface and free of helium, and no oxygen exposure. *)
Theorem Profile_init_initial_state (fuel : nat) (waypoints : list Waypoint)
    (tanks : list Tank) (params : Parameters) (self : Profile) :
  Profile_init fuel waypoints tanks params = Ok self ->
  exists ip0,
    nth_error (_integration_points self) 0 = Some ip0
    /\ runtime (waypoint ip0) = Time_s 0
    /\ tank (waypoint ip0) = 0%nat
    /\ tank_pressure ip0 = map start_pressure tanks
    /\ load_N2 ip0 = repeat (Q2R (0.79 * (1 - pw))) 16
    /\ load_He ip0 = repeat 0%R 16
    /\ cns_cum ip0 = 0%R /\ otu_cum ip0 = 0%R.
Proof.
  intros H. destruct (Profile_init_first _ _ _ _ _ H)
    as (ip0 & Hip0 & Hrt & _ & Htk & Htp & Hn2 & Hhe & _ & Hc & _ & Ho & _).
  exists ip0. repeat split; assumption.
Qed.

(** ** Where a profile ends *)

Lemma last_item_last {A : Type} (l : list A) (e x : A) :
  last_item l = Ok e -> List.last l x = e.
Proof.
  intros H. apply last_item_inv in H. destruct H as (l' & ->). apply last_last.
Qed.

Lemma append_segment_last (self self' : Profile) (s : list IntegrationPoint) :
  append_segment self s = Ok self' ->
  exists e, last_item s = Ok e
            /\ last_item (_waypoints self') = Ok (closing_waypoint e).
Proof.
  unfold append_segment. intros H.
  apply bind_Ok in H. destruct H as (s_last & Hlast & H).
  apply bind_Ok in H. destruct H as (s_first & _ & H).
  apply bind_Ok in H. destruct H as (w_last & _ & H).
  inversion H; subst self'; clear H. exists s_last. split; [exact Hlast|].
  cbn [_waypoints]. apply last_item_app.
Qed.

Lemma append_segments_last (segments : list (list IntegrationPoint)) :
  forall self self',
    append_segments self segments = Ok self' -> segments <> [] ->
    exists e, last_of_last segments = Ok e
              /\ last_item (_waypoints self') = Ok (closing_waypoint e).
Proof.
  induction segments as [|s segments IH]; intros self self' H Hne; [congruence|].
  simpl in H. apply bind_Ok in H. destruct H as (self1 & H1 & H).
  destruct segments as [|s' segments].
  - simpl in H. inversion H; subst self1. apply append_segment_last in H1.
    destruct H1 as (e & He & Hw). exists e. split; [|exact Hw].
    unfold last_of_last. cbn. exact He.
  - destruct (IH _ _ H) as (e & He & Hw); [discriminate|].
    exists e. split; [|exact Hw].
    unfold last_of_last in *. now rewrite last_item_cons.
Qed.

(** Where each ascent leaves the profile when it appends its points. *)
Lemma _calculate_direct_ascent_end (fuel : nat) (self self' : Profile) (d : Q)
    (ip : IntegrationPoint) (out : list IntegrationPoint) :
  _calculate_direct_ascent fuel self d ip true = Ok (self', out) ->
  exists e, last_item (_integration_points self') = Ok e
            /\ depth (waypoint e) <= d
            /\ last_item (_waypoints self') = Ok (closing_waypoint e).
Proof.
  unfold _calculate_direct_ascent. intros H.
  apply bind_Ok in H. destruct H as (res & Hloop & H).
  apply bind_Ok in H. destruct H as (self1 & Happ & H).
  inversion H; subst self1 out; clear H.
  destruct (append_segment_last _ _ _ Happ) as (e & He & Hw).
  apply append_segment_points in Happ. destruct Happ as (-> & _).
  exists e. split; [now apply last_item_app_r|]. split; [|exact Hw].
  apply direct_ascent_loop_reaches in Hloop. destruct Hloop as (new & E & Hd).
  simpl in E. subst new. now rewrite (last_item_last _ _ ip He) in Hd.
Qed.

Lemma _calculate_regular_ascent_end (fuel : nat) (self self' : Profile) (d : Q)
    (ip : IntegrationPoint) (out : list IntegrationPoint) :
  _calculate_regular_ascent fuel self d ip true = Ok (self', out) ->
  exists e, last_item (_integration_points self') = Ok e
            /\ depth (waypoint e) <= d
            /\ last_item (_waypoints self') = Ok (closing_waypoint e).
Proof.
  unfold _calculate_regular_ascent, _calculate_direct_ascent. intros H.
  apply bind_Ok in H. destruct H as (segments & Hsegs & H).
  apply bind_Ok in H. destruct H as (self1 & Happ & H).
  inversion H; subst self1 out; clear H.
  assert (Hend : exists from seg, last_item segments = Ok seg
                   /\ direct_ascent_loop fuel self d from
                        (_seconds (runtime (waypoint from))) [] = Ok seg).
  { destruct (Qlt_bool (safety_stop_depth (_params self)) d).
    - apply bind_Ok in Hsegs. destruct Hsegs as (r & Hr & Hsegs).
      apply bind_Ok in Hr. destruct Hr as (seg1 & H1 & Hr).
      inversion Hr; subst r. inversion Hsegs; subst segments.
      exists ip, seg1. split; [reflexivity | exact H1].
    - apply bind_Ok in Hsegs. destruct Hsegs as (r & Hr & Hsegs).
      apply bind_Ok in Hr. destruct Hr as (seg1 & H1 & Hr).
      inversion Hr; subst r; clear Hr. cbn [snd] in Hsegs.
      apply bind_Ok in Hsegs. destruct Hsegs as (seg & Hseg & Hsegs).
      apply bind_Ok in Hsegs. destruct Hsegs as (ip1 & Hip1 & Hsegs).
      apply bind_Ok in Hsegs. destruct Hsegs as (seg2 & H2 & Hsegs).
      apply bind_Ok in Hsegs. destruct Hsegs as (seg' & Hseg' & Hsegs).
      apply bind_Ok in Hsegs. destruct Hsegs as (ip2 & Hip2 & Hsegs).
      apply bind_Ok in Hsegs. destruct Hsegs as (r & Hr & Hsegs).
      apply bind_Ok in Hr. destruct Hr as (seg3 & H3 & Hr).
      inversion Hr; subst r; clear Hr. inversion Hsegs; subst segments.
      exists ip2, seg3. split; [reflexivity | exact H3]. }
  destruct Hend as (from & seg & Hseg & Hloop).
  destruct (append_segments_last _ _ _ Happ) as (e & He & Hw);
    [intros ->; discriminate|].
  pose proof (last_of_last_concat _ _ (_integration_points self) He) as Hlast.
  apply append_segments_points in Happ. destruct Happ as (-> & _).
  exists e. split; [exact Hlast|]. split; [|exact Hw].
  unfold last_of_last in He. rewrite Hseg in He. cbn [bind] in He.
  apply direct_ascent_loop_reaches in Hloop. destruct Hloop as (new & E & Hd).
  simpl in E. subst new. now rewrite (last_item_last _ _ from He) in Hd.
Qed.

Lemma _calculate_deco_ascent_end (fuel : nat) (self self' : Profile) (d : Q)
    (ip : IntegrationPoint) (out : list IntegrationPoint) :
  _calculate_deco_ascent fuel self d ip true = Ok (self', out) ->
  last_item (_integration_points self) = Ok ip ->
  d < depth (waypoint ip) ->
  exists e, last_item (_integration_points self') = Ok e
            /\ depth (waypoint e) <= d
            /\ last_item (_waypoints self') = Ok (closing_waypoint e).
Proof.
  unfold _calculate_deco_ascent. intros H Hlast Hdeep.
  apply bind_Ok in H. destruct H as (nds & _ & H).
  apply bind_Ok in H. destruct H as (ngs & Hngs & H).
  apply _calculate_next_gas_stop_zero in Hngs. subst ngs.
  apply bind_Ok in H. destruct H as (st & Hloop & H).
  apply bind_Ok in H. destruct H as (self1 & Happ & H).
  inversion H; subst self1 out; clear H.
  apply (deco_outer_loop_timed (fun _ _ _ _ => True)) with (base := _integration_points self)
    in Hloop; try (intros; exact I); try reflexivity;
    [|simpl; rewrite app_nil_r; exact Hlast | simpl; rewrite app_nil_r; intros i a b _ _; exact I].
  destruct Hloop as (_ & Hlast' & Hd).
  destruct (ds_segments st) as [|s segs] eqn:Esegs.
  - simpl in Hlast'. rewrite app_nil_r, Hlast in Hlast'.
    inversion Hlast'; subst ip. exfalso. Lqa.lra.
  - destruct (append_segments_last _ _ _ Happ) as (e & He & Hw); [discriminate|].
    pose proof (last_of_last_concat _ _ (_integration_points self) He) as Hl.
    rewrite Hl in Hlast'. inversion Hlast'; subst e.
    apply append_segments_points in Happ. destruct Happ as (-> & _).
    exists (ds_prev_ip st). repeat split; assumption.
Qed.

(** X14.  Every profile the constructor returns ends at or above the
    surface: its last integration point is not deeper than 0, and the last
    realized waypoint is at the depth and runtime of that point, with
    duration 0. *)
Theorem Profile_init_ends_at_surface (fuel : nat) (waypoints : list Waypoint)
    (tanks : list Tank) (params : Parameters) (self : Profile) :
  Profile_init fuel waypoints tanks params = Ok self ->
  exists e w,
    last_item (_integration_points self) = Ok e
    /\ depth (waypoint e) <= 0
    /\ last_item (_waypoints self) = Ok w
    /\ depth w = depth (waypoint e)
    /\ runtime w = runtime (waypoint e)
    /\ duration w = Time_m 0.
Proof.
  intros H.
  destruct (Profile_init_phases _ _ _ _ _ H) as (self1 & last_ip & _ & Hb & Hl & Hdeep & _).
  unfold Profile_init in H. unfold bottom_phase in Hb.
  apply bind_Ok in H. destruct H as (wps & Hwps & H).
  rewrite Hwps in Hb. cbn [bind] in Hb. rewrite Hb in H. cbn [bind] in H.
  rewrite Hl in H. cbn [bind] in H.
  apply bind_Ok in H. destruct H as (r & _ & H).
  apply bind_Ok in H. destruct H as (end_ip & _ & H).
  cbv zeta in H. unfold Profile_ascend in H.
  assert (Hend : exists e, last_item (_integration_points self) = Ok e
                   /\ depth (waypoint e) <= 0
                   /\ last_item (_waypoints self) = Ok (closing_waypoint e)).
  { destruct (Rlt_dec 0 (ceiling end_ip));
      [|destruct (safety_stop (_params self1))];
      apply bind_Ok in H; destruct H as ([self2 out] & Hrun & H);
      inversion H; subst self2.
    - exact (_calculate_deco_ascent_end _ _ _ _ _ _ Hrun Hl Hdeep).
    - exact (_calculate_regular_ascent_end _ _ _ _ _ _ Hrun).
    - exact (_calculate_direct_ascent_end _ _ _ _ _ _ Hrun). }
  destruct Hend as (e & He & Hd & Hw).
  exists e, (closing_waypoint e). repeat split; assumption.
Qed.

Lemma Profile_init_ends_at_surface_witness :
  exists self e w,
    Profile_init 64 short_dive [Tank_default] short_params = Ok self
    /\ last_item (_integration_points self) = Ok e
    /\ depth (waypoint e) <= 0
    /\ last_item (_waypoints self) = Ok w
    /\ depth w = depth (waypoint e)
    /\ runtime w = runtime (waypoint e)
    /\ duration w = Time_m 0.
Proof.
  destruct short_profile_constructed as (self & H & _).
  destruct (Profile_init_ends_at_surface 64 short_dive [Tank_default]
              short_params self H) as (e & w & Hrest).
  exists self, e, w. split; [exact H | exact Hrest].
Defined.

(** X15.  A plan whose bottom phase ends at or above the surface makes the
    constructor raise [IndexError]: the provisional ascent has no point, and
    the constructor reads its last one. *)
Theorem Profile_init_surfaced_plan (fuel : nat) (waypoints : list Waypoint)
    (tanks : list Tank) (params : Parameters) (self1 : Profile)
    (last_ip : IntegrationPoint) :
  bottom_phase (S fuel) waypoints tanks params = Ok self1 ->
  last_item (_integration_points self1) = Ok last_ip ->
  depth (waypoint last_ip) <= 0 ->
  Profile_init (S fuel) waypoints tanks params = Raise IndexError.
Proof.
  unfold bottom_phase, Profile_init. intros Hb Hl Hd.
  destruct (_complete_waypoints params waypoints (calc_descent params))
    as [wps|e]; [|discriminate].
  cbn [bind] in *. rewrite Hb. cbn [bind]. rewrite Hl. cbn [bind].
  unfold _calculate_direct_ascent. cbn [direct_ascent_loop].
  apply Qlt_bool_false_iff in Hd. rewrite Hd. reflexivity.
Qed.

Lemma Profile_init_surfaced_plan_witness :
  Profile_init 64 return_dive [Tank_default] short_params = Raise IndexError.
Proof.
  eapply (Profile_init_surfaced_plan 63 return_dive [Tank_default] short_params).
  - unfold bottom_phase. run_steps. reflexivity.
  - reflexivity.
  - discriminate.
Defined.

(** ** The time step and the bottom phase *)

Lemma bottom_while_stuck (fuel : nat) :
  forall self bound t t' self',
    (_seconds (dt (_params self)) <= 0)%Z ->
    bottom_while fuel self bound t = Ok (t', self') ->
    (bound < t)%Z /\ self' = self.
Proof.
  induction fuel as [|fuel IH]; intros self bound t t' self' Hdt H;
    simpl in H; [discriminate|].
  destruct (t <=? bound)%Z eqn:E.
  - apply bind_Ok in H. destruct H as (ip & _ & H).
    apply IH in H; [|exact Hdt]. apply Z.leb_le in E. simpl in H. lia.
  - inversion H; subst. apply Z.leb_gt in E. auto.
Qed.

Lemma bottom_for_stuck (fuel : nat) (wps : list Waypoint) :
  forall self t self',
    (_seconds (dt (_params self)) <= 0)%Z ->
    bottom_for fuel self wps t = Ok self' -> self' = self.
Proof.
  induction wps as [|wp wps IH]; intros self t self' Hdt H; simpl in H.
  - now inversion H.
  - destruct (_ <? t)%Z.
    + exact (IH _ _ _ Hdt H).
    + apply bind_Ok in H. destruct H as ([t1 self1] & Hw & H).
      apply bottom_while_stuck in Hw; [|exact Hdt]. destruct Hw as (_ & ->).
      exact (IH _ _ _ Hdt H).
Qed.

(** X16.  With a time step of zero seconds, or a negative one, the
    constructor returns no profile for any plan.  ([OutOfFuel] among the
    outcomes stands for the bottom loop that never ends.) *)
Theorem Profile_init_needs_positive_step (fuel : nat) (waypoints : list Waypoint)
    (tanks : list Tank) (params : Parameters) :
  (_seconds (dt params) <= 0)%Z ->
  exists e, Profile_init fuel waypoints tanks params = Raise e.
Proof.
  intros Hdt.
  destruct (Profile_init fuel waypoints tanks params) as [self|e] eqn:H;
    [|now exists e].
  exfalso. unfold Profile_init in H.
  apply bind_Ok in H. destruct H as (wps & _ & H).
  apply bind_Ok in H. destruct H as (self1 & Hbottom & H).
  apply bind_Ok in H. destruct H as (last_ip & Hlast & _).
  apply bottom_for_stuck in Hbottom; [|exact Hdt]. subst self1. discriminate.
Qed.

Lemma Profile_init_needs_positive_step_witness :
  exists e, Profile_init 64 short_dive [Tank_default] (Parameters_with_dt (Time_s 0))
            = Raise e.
Proof.
  apply (Profile_init_needs_positive_step 64 short_dive [Tank_default]
           (Parameters_with_dt (Time_s 0))).
  discriminate.
Defined.

Lemma bottom_while_points (P : IntegrationPoint -> Prop) (fuel : nat) :
  forall self bound t t' self',
    (forall t ip, (exists d, _interpolate_depth (_waypoints self) (Time_s t) = Ok d
                     /\ waypoint ip = mkWaypoint d (dt (_params self)) (Time_s t) 0)
                  -> P ip) ->
    bottom_while fuel self bound t = Ok (t', self') ->
    Forall P (_integration_points self) ->
    Forall P (_integration_points self').
Proof.
  induction fuel as [|fuel IH]; intros self bound t t' self' HP H Hall;
    simpl in H; [discriminate|].
  destruct (t <=? bound)%Z.
  - apply bind_Ok in H. destruct H as (ip & Hip & H).
    apply IH in H; [exact H | exact HP |]. simpl.
    apply Forall_app. split; [exact Hall|]. constructor; [|constructor].
    apply (HP t). exact (bottom_point_waypoint _ _ _ Hip).
  - inversion H; now subst.
Qed.

Lemma bottom_for_points (P : IntegrationPoint -> Prop) (fuel : nat)
    (wps : list Waypoint) :
  forall self t self',
    (forall t ip, (exists d, _interpolate_depth (_waypoints self) (Time_s t) = Ok d
                     /\ waypoint ip = mkWaypoint d (dt (_params self)) (Time_s t) 0)
                  -> P ip) ->
    bottom_for fuel self wps t = Ok self' ->
    Forall P (_integration_points self) ->
    Forall P (_integration_points self').
Proof.
  induction wps as [|wp wps IH]; intros self t self' HP H Hall; simpl in H.
  - inversion H; now subst.
  - destruct (_ <? t)%Z.
    + exact (IH _ _ _ HP H Hall).
    + apply bind_Ok in H. destruct H as ([t1 self1] & Hw & H).
      pose proof (bottom_while_points P _ _ _ _ _ _ HP Hw Hall) as Hall1.
      destruct (bottom_while_state _ _ _ _ _ _ Hw) as (_ & Hp).
      destruct (bottom_while_head _ _ _ _ _ _ Hw) as (Hwp & _).
      apply (IH _ _ _ ) with (2 := H); [|exact Hall1].
      cbn [snd]. rewrite Hwp, Hp. exact HP.
Qed.

(** X17.  The bottom phase leaves the realized waypoints as normalization
    made them, and every integration point it produces lies on the plan: its
    depth is the interpolated depth at its runtime, it breathes tank 0, and
    it lasts one time step. *)
Theorem bottom_phase_on_plan (fuel : nat) (waypoints : list Waypoint)
    (tanks : list Tank) (params : Parameters) (self1 : Profile) :
  bottom_phase fuel waypoints tanks params = Ok self1 ->
  _complete_waypoints params waypoints (calc_descent params) = Ok (_waypoints self1)
  /\ Forall (fun ip =>
               _interpolate_depth (_waypoints self1) (runtime (waypoint ip))
               = Ok (depth (waypoint ip))
               /\ tank (waypoint ip) = 0%nat
               /\ duration (waypoint ip) = dt params)
       (_integration_points self1).
Proof.
  unfold bottom_phase, _calculate_bottom. intros H.
  apply bind_Ok in H. destruct H as (wps & Hwps & H). cbn [_waypoints] in H.
  destruct (bottom_for_head _ _ _ _ _ H) as (Hw & _). cbn [_waypoints] in Hw.
  rewrite Hw. split; [exact Hwps|].
  apply (bottom_for_points _ _ _ _ _ _) with (2 := H); [|constructor].
  cbn [_waypoints _params]. intros t ip (d & Hd & E). rewrite E. cbn.
  repeat split. exact Hd.
Qed.

Lemma bottom_phase_on_plan_witness :
  exists self1,
    bottom_phase 64 short_dive [Tank_default] short_params = Ok self1
    /\ Forall (fun ip =>
                 _interpolate_depth (_waypoints self1) (runtime (waypoint ip))
                 = Ok (depth (waypoint ip))
                 /\ tank (waypoint ip) = 0%nat
                 /\ duration (waypoint ip) = dt short_params)
         (_integration_points self1).
Proof.
  eexists. split; [unfold bottom_phase; run_steps; reflexivity|].
  refine (proj2 (bottom_phase_on_plan 64 short_dive [Tank_default] short_params _ _)).
  unfold bottom_phase. run_steps. reflexivity.
Defined.

(** ** Array sizes *)

Lemma deco_stop_point_1_ceilings (self : Profile) (wp : Waypoint)
    (prev_ip ip : IntegrationPoint) (stop_time : Z) :
  deco_stop_point_1 self wp prev_ip stop_time = Ok ip ->
  _calculate_ceilings (_waypoints self) (_params self) ip = Ok (ceilings ip).
Proof.
  unfold deco_stop_point_1. intros H.
  apply bind_Ok in H. destruct H as ([n2 he] & Hl & H).
  apply bind_Ok in H. destruct H as (c & Hc & H).
  apply bind_Ok in H. destruct H as (ip1 & H1 & H).
  apply bind_Ok in H. destruct H as (tp & Htp & H).
  apply bind_Ok in H. destruct H as (cn & Hcn & H).
  apply bind_Ok in H. destruct H as (o & Ho & H).
  inversion H; subst ip; clear H.
  destruct (switch_due (_params self) stop_time).
  - apply bind_Ok in H1. destruct H1 as (tk & _ & H1).
    inversion H1; subst ip1; clear H1. exact Hc.
  - inversion H1; subst ip1; clear H1. exact Hc.
Qed.

Lemma deco_stop_point_2_ceilings (self : Profile) (wp : Waypoint)
    (prev_ip ip : IntegrationPoint) (stop_time : Z) :
  deco_stop_point_2 self wp prev_ip stop_time = Ok ip ->
  _calculate_ceilings (_waypoints self) (_params self) ip = Ok (ceilings ip).
Proof.
  unfold deco_stop_point_2. intros H.
  apply bind_Ok in H. destruct H as ([n2 he] & Hl & H).
  apply bind_Ok in H. destruct H as (c & Hc & H).
  apply bind_Ok in H. destruct H as (tp & Htp & H).
  apply bind_Ok in H. destruct H as (ip1 & H1 & H).
  apply bind_Ok in H. destruct H as (cn & Hcn & H).
  apply bind_Ok in H. destruct H as (o & Ho & H).
  inversion H; subst ip; clear H.
  destruct (switch_due (_params self) stop_time).
  - apply bind_Ok in H1. destruct H1 as (tk & _ & H1).
    inversion H1; subst ip1; clear H1. exact Hc.
  - inversion H1; subst ip1; clear H1. exact Hc.
Qed.

Lemma Profile_init_ceilings (fuel : nat) (waypoints : list Waypoint)
    (tanks : list Tank) (params : Parameters) (self : Profile) :
  Profile_init fuel waypoints tanks params = Ok self ->
  chain (ceilings_computed tanks params) (_integration_points self).
Proof.
  intros H. destruct (Profile_init_state _ _ _ _ _ H) as (T & P).
  rewrite <- T, <- P.
  apply (Profile_init_chain ceilings_computed) with (5 := H).
  - intros self0 wp prev_ip ip Hip. exists (_waypoints self0).
    now apply ascent_point_fields in Hip.
  - intros self0 t pre prev_ip ip _ Hip. exists (_waypoints self0).
    now apply bottom_point_ceilings in Hip.
  - intros self0 wp prev_ip ip st Hip. exists (_waypoints self0).
    now apply deco_stop_point_1_ceilings in Hip.
  - intros self0 wp prev_ip ip st Hip. exists (_waypoints self0).
    now apply deco_stop_point_2_ceilings in Hip.
Qed.

Lemma chain_Forall (R : IntegrationPoint -> IntegrationPoint -> Prop)
    (P : IntegrationPoint -> Prop) (l : list IntegrationPoint) :
  chain R l ->
  (forall ip0, nth_error l 0 = Some ip0 -> P ip0) ->
  (forall a b, R a b -> P a -> P b) ->
  Forall P l.
Proof.
  intros Hc H0 Hstep. apply Forall_forall. intros x Hin.
  apply In_nth_error in Hin. destruct Hin as (i & Hi).
  revert x Hi. induction i as [|i IH]; intros x Hi; [now apply H0|].
  destruct (nth_error l i) as [a|] eqn:Ha.
  - exact (Hstep a x (Hc i a x Ha Hi) (IH a eq_refl)).
  - exfalso. apply nth_error_None in Ha.
    assert (Hs : nth_error l (S i) <> None) by congruence.
    apply nth_error_Some in Hs. lia.
Qed.

Lemma compartments_gas_length (f_ig : Q) (hts : list Q) (p0s : list R)
    (ip prev_ip : IntegrationPoint) (l : list R) :
  compartments_gas f_ig hts p0s ip prev_ip = Ok l ->
  List.length l = Nat.min (List.length hts) (List.length p0s).
Proof.
  unfold compartments_gas. intros H.
  apply bind_Ok in H. destruct H as (q & _ & H). injection H as <-.
  now rewrite length_map, length_combine.
Qed.

Lemma _calculate_ceilings_length (wps : list Waypoint) (params : Parameters)
    (ip : IntegrationPoint) (c : list R) :
  _calculate_ceilings wps params ip = Ok c ->
  List.length (load_N2 ip) = 16%nat -> List.length (load_He ip) = 16%nat ->
  List.length c = 16%nat.
Proof.
  unfold _calculate_ceilings. intros H Hn Hh.
  destruct (gradient_factor wps params ip) as [gf|e]; [|discriminate].
  cbn [bind] in H.
  apply (f_equal (fun r => match r with Ok l => List.length l | Raise _ => O end)) in H.
  cbv beta iota in H. rewrite <- H.
  rewrite length_map, !length_combine, Hn, Hh. reflexivity.
Qed.

(** X18.  Every integration point of a profile the constructor returns
    carries 16 loads of each inert gas, 16 ceilings and one pressure for
    each tank. *)
Theorem Profile_init_array_sizes (fuel : nat) (waypoints : list Waypoint)
    (tanks : list Tank) (params : Parameters) (self : Profile) :
  Profile_init fuel waypoints tanks params = Ok self ->
  Forall (fun ip =>
            List.length (load_N2 ip) = 16%nat
            /\ List.length (load_He ip) = 16%nat
            /\ List.length (ceilings ip) = 16%nat
            /\ List.length (tank_pressure ip) = List.length tanks)
    (_integration_points self).
Proof.
  intros H.
  pose proof (Profile_init_steps _ _ _ _ _ H) as Hsteps.
  pose proof (Profile_init_ceilings _ _ _ _ _ H) as Hceil.
  destruct (Profile_init_first _ _ _ _ _ H) as (ip0 & Hip0 & Hinit).
  assert (Hloads : Forall (fun ip => List.length (load_N2 ip) = 16%nat
                                     /\ List.length (load_He ip) = 16%nat
                                     /\ List.length (tank_pressure ip)
                                        = List.length tanks)
                     (_integration_points self)).
  { apply (chain_Forall _ _ _ Hsteps).
    - intros x Hx. rewrite Hip0 in Hx. inversion Hx; subst x.
      destruct Hinit as (_ & _ & _ & -> & -> & -> & _).
      rewrite !repeat_length, length_map. auto.
    - intros a b (Hl & (sac & _ & Htp) & _) (Hn & Hh & Ht).
      unfold _calculate_compartments in Hl.
      apply bind_Ok in Hl. destruct Hl as (t & _ & Hl).
      apply bind_Ok in Hl. destruct Hl as (n2 & Hn2 & Hl).
      apply bind_Ok in Hl. destruct Hl as (he & Hhe & Hl).
      inversion Hl; subst n2 he; clear Hl.
      apply compartments_gas_length in Hn2, Hhe. rewrite Hn in Hn2. rewrite Hh in Hhe.
      split; [exact Hn2|]. split; [exact Hhe|].
      destruct (_calculate_tank_pressure_inv _ _ _ _ _ Htp) as (t' & p & Ht' & Hsz & Hp).
      destruct (_calculate_tank_pressure_step tanks b a sac t' p Ht' Hsz Hp)
        as (out & v & Hrun & Hlen & _).
      rewrite Htp in Hrun. inversion Hrun; subst out. congruence. }
  rewrite Forall_forall in Hloads |- *. intros ip Hin.
  destruct (Hloads ip Hin) as (Hn & Hh & Ht).
  repeat split; try assumption.
  apply In_nth_error in Hin. destruct Hin as (i & Hi).
  destruct i as [|i].
  - rewrite Hip0 in Hi. inversion Hi; subst ip.
    destruct Hinit as (_ & _ & _ & _ & _ & _ & _ & _ & _ & _ & wps & Hc).
    exact (_calculate_ceilings_length _ _ _ _ Hc Hn Hh).
  - destruct (nth_error (_integration_points self) i) as [a|] eqn:Ha.
    + destruct (Hceil i a ip Ha Hi) as (wps & Hc).
      exact (_calculate_ceilings_length _ _ _ _ Hc Hn Hh).
    + exfalso. apply nth_error_None in Ha.
      assert (Hs : nth_error (_integration_points self) (S i) <> None) by congruence.
      apply nth_error_Some in Hs. lia.
Qed.

(** ** Direct ascent and decompression stops *)

Lemma direct_ascent_loop_steps (fuel : nat) (self : Profile) (d : Q) :
  forall prev_ip t out res,
    direct_ascent_loop fuel self d prev_ip t out = Ok res ->
    exists new,
      res = (out ++ new)%list
      /\ consecutive (ascent_step (_params self)) (prev_ip :: new)
      /\ (new = [] <-> depth (waypoint prev_ip) <= d).
Proof.
  induction fuel as [|fuel IH]; intros prev_ip t out res H; simpl in H;
    [discriminate|].
  destruct (Qlt_bool d (depth (waypoint prev_ip))) eqn:E.
  - apply bind_Ok in H. destruct H as (ip & Hip & H).
    destruct (IH _ _ _ _ H) as (new & -> & Hc & _).
    exists (ip :: new). split; [now rewrite <- app_assoc|]. split.
    + apply consecutive_cons; [|exact Hc].
      apply ascent_point_fields in Hip. destruct Hip as (Hw & _).
      unfold ascent_step. rewrite Hw. split; reflexivity.
    + apply Qlt_bool_iff in E. split; [discriminate|].
      intros Hle. exfalso. Lqa.lra.
  - inversion H; subst res. exists []. split; [now rewrite app_nil_r|].
    split; [apply consecutive_single|].
    apply Qlt_bool_false_iff in E. split; auto.
Qed.


Lemma deco_hold_loop_held (fuel : nat) (self : Profile) (d : Q) :
  forall next_deco_stop st st',
    deco_hold_loop fuel self d next_deco_stop st = Ok st' ->
    Forall (fun ip => depth (waypoint ip) = d) (ss_out st) ->
    ss_stop_time st
    = (_seconds (dt (_params self)) * (Z.of_nat (List.length (ss_out st)) + 1))%Z ->
    Forall (fun ip => depth (waypoint ip) = d) (ss_out st')
    /\ exists n,
         (n = List.length (ss_out st') \/ n = S (List.length (ss_out st')))
         /\ ss_stop_time st' = (_seconds (dt (_params self)) * Z.of_nat n)%Z.
Proof.
  induction fuel as [|fuel IH]; intros nds st st' H Hall Htime;
    simpl in H; [discriminate|].
  destruct (Rlt_dec _ _).
  - apply bind_Ok in H. destruct H as (ip & Hip & H).
    apply bind_Ok in H. destruct H as (nds' & _ & H).
    apply deco_stop_point_1_waypoint in Hip. destruct Hip as (Hd & _).
    assert (Hall' : Forall (fun ip => depth (waypoint ip) = d) (ss_out st ++ [ip])).
    { apply Forall_app. split; [exact Hall|]. constructor; [exact Hd | constructor]. }
    destruct (Qlt_bool nds' d).
    + inversion H; subst st'; clear H. cbn [ss_out ss_stop_time].
      split; [exact Hall'|]. exists (List.length (ss_out st ++ [ip])).
      split; [now left|]. rewrite Htime, length_app. simpl. f_equal. lia.
    + apply (IH _ _ _ H); cbn [ss_out ss_stop_time]; [exact Hall'|].
      rewrite Htime, length_app. simpl. lia.
  - inversion H; subst st'. split; [exact Hall|].
    exists (S (List.length (ss_out st))). split; [now right|].
    rewrite Htime. f_equal. lia.
Qed.

Lemma deco_minute_loop_held (fuel : nat) (self : Profile) (d : Q) (k : nat) :
  forall st st',
    deco_minute_loop fuel self d st = Ok st' ->
    Forall (fun ip => depth (waypoint ip) = d) (ss_out st) ->
    ss_stop_time st
    = (_seconds (dt (_params self)) * Z.of_nat (List.length (ss_out st) + k))%Z ->
    Forall (fun ip => depth (waypoint ip) = d) (ss_out st')
    /\ ss_stop_time st'
       = (_seconds (dt (_params self)) * Z.of_nat (List.length (ss_out st') + k))%Z
    /\ (ss_stop_time st' mod 60 = 0)%Z.
Proof.
  induction fuel as [|fuel IH]; intros st st' H Hall Htime;
    simpl in H; [discriminate|].
  destruct (ss_stop_time st mod 60 =? 0)%Z eqn:E; cbn [negb] in H.
  - inversion H; subst st'. apply Z.eqb_eq in E. auto.
  - apply bind_Ok in H. destruct H as (ip & Hip & H).
    apply deco_stop_point_2_waypoint in Hip. destruct Hip as (Hd & _).
    apply (IH _ _ H); cbn [ss_out ss_stop_time].
    + apply Forall_app. split; [exact Hall|]. constructor; [exact Hd | constructor].
    + rewrite Htime, length_app. simpl. lia.
Qed.

(** X20.  A decompression stop: every point is at the stop depth, and the
    stop is a whole number of minutes long counting either its points or its
    points and one more (the stop clock starts at one time step). *)
Theorem _add_deco_stop_whole_minutes (fuel : nat) (self : Profile) (d : Q)
    (prev_ip : IntegrationPoint) (out : list IntegrationPoint) :
  _add_deco_stop fuel self d prev_ip = Ok out ->
  Forall (fun ip => depth (waypoint ip) = d) out
  /\ exists n,
       (n = List.length out \/ n = S (List.length out))
       /\ ((_seconds (dt (_params self)) * Z.of_nat n) mod 60 = 0)%Z.
Proof.
  unfold _add_deco_stop. intros H.
  apply bind_Ok in H. destruct H as (nds & _ & H).
  apply bind_Ok in H. destruct H as (st1 & H1 & H).
  apply bind_Ok in H. destruct H as (st2 & H2 & H).
  inversion H; subst out; clear H.
  apply deco_hold_loop_held in H1; [|constructor | simpl; lia].
  destruct H1 as (Hall1 & n & Hn & Htime1).
  destruct Hn as [->| ->].
  - apply (deco_minute_loop_held _ _ _ 0) in H2;
      [|exact Hall1 | now rewrite Nat.add_0_r].
    destruct H2 as (Hall2 & Htime2 & Hmod). split; [exact Hall2|].
    exists (List.length (ss_out st2)). split; [now left|].
    now rewrite Htime2, Nat.add_0_r in Hmod.
  - apply (deco_minute_loop_held _ _ _ 1) in H2;
      [|exact Hall1 | now rewrite Nat.add_1_r].
    destruct H2 as (Hall2 & Htime2 & Hmod). split; [exact Hall2|].
    exists (S (List.length (ss_out st2))). split; [now right|].
    now rewrite Htime2, Nat.add_1_r in Hmod.
Qed.

(** ** Oxygen pressures outside the formulas *)

Lemma Qle_bool_false_iff (a b : Q) : Qle_bool a b = false <-> b < a.
Proof.
  split; intros H.
  - apply Qnot_le_lt. intros Hle. apply Qle_bool_iff in Hle. congruence.
  - destruct (Qle_bool a b) eqn:E; [|reflexivity].
    apply Qle_bool_iff in E. exfalso. Lqa.lra.
Qed.

Lemma Qeq_bool_true (a b : Q) : a == b -> Qeq_bool a b = true.
Proof. intros H. now apply Qeq_bool_iff. Qed.

(** The OTU of a segment whose higher oxygen pressure is exactly 0.5 bar. *)
Lemma otu_segment_half_bar (segment_time pp_o2_ini pp_o2_end : Q)
    (same_depth : bool) :
  (if same_depth then pp_o2_ini == 0.5
   else pymax pp_o2_ini pp_o2_end == 0.5) ->
  otu_segment segment_time pp_o2_ini pp_o2_end same_depth
  = Raise ZeroDivisionError.
Proof.
  unfold otu_segment. destruct same_depth; intros H.
  - replace (Qle_bool 0.5 pp_o2_ini) with true
      by (symmetry; apply Qle_bool_iff; Lqa.lra).
    rewrite pydiv_zero; [reflexivity | Lqa.lra].
  - replace (Qlt_bool (pymax pp_o2_ini pp_o2_end) 0.5) with false
      by (symmetry; apply Qlt_bool_false_iff; Lqa.lra).
    assert (Hi : pp_o2_ini <= 0.5 /\ pp_o2_end <= 0.5).
    { destruct (pymax_cases pp_o2_ini pp_o2_end) as [(Hle & E)|(Hle & E)];
        rewrite E in H; split; Lqa.lra. }
    destruct Hi as (Hi & He).
    destruct (pydiv _ (pymax pp_o2_ini pp_o2_end - pymin pp_o2_ini pp_o2_end))
      as [q|e] eqn:Hq.
    + cbn [bind].
      assert (Ep : forall x, x <= 0.5 -> pymax 0.5 x = 0.5).
      { intros x Hx. unfold pymax.
        now replace (Qlt_bool 0.5 x) with false
          by (symmetry; apply Qlt_bool_false_iff; exact Hx). }
      rewrite !(Ep _ Hi), !(Ep _ He). reflexivity.
    + cbn [bind]. unfold pydiv in Hq. destruct (Qeq_bool _ 0); congruence.
Qed.

Lemma noaa_lookup_above (pp : Q) :
  1.6 < pp -> noaa_lookup noaa_cns_equations pp = (0, 0).
Proof.
  intros H. unfold noaa_lookup, noaa_cns_equations.
  repeat match goal with
         | |- context [Qle_bool pp ?hi] =>
             replace (Qle_bool pp hi) with false
               by (symmetry; apply Qle_bool_false_iff; Lqa.lra)
         end.
  rewrite !andb_false_r. reflexivity.
Qed.

(** The CNS fraction of a segment that starts above the last row of the
    NOAA table. *)
Lemma cns_segment_above_table (segment_time pp_o2_ini pp_o2_end : Q)
    (same_depth : bool) :
  1.6 < pp_o2_ini -> 0.5 <= pp_o2_end ->
  exists e, cns_segment segment_time pp_o2_ini pp_o2_end same_depth = Raise e
            /\ (e = ZeroDivisionError \/ e = ValueError).
Proof.
  intros Hi He. unfold cns_segment.
  replace (Qlt_bool pp_o2_ini 0.5) with false
    by (symmetry; apply Qlt_bool_false_iff; Lqa.lra).
  replace (Qlt_bool pp_o2_end 0.5) with false
    by (symmetry; apply Qlt_bool_false_iff; Lqa.lra).
  cbn [orb]. rewrite (noaa_lookup_above _ Hi). cbn [fst snd].
  destruct same_depth.
  - rewrite pydiv_zero by ring. cbn [bind]. eauto.
  - destruct (pydiv (pp_o2_end - pp_o2_ini) segment_time) as [k|e] eqn:Hk.
    + cbn [bind]. unfold pylog at 1.
      replace (Qle_bool (Qabs (0 * pp_o2_ini + 0 + 0 * k * segment_time)) 0)
        with true; [cbn [bind]; eauto|].
      symmetry. apply Qle_bool_iff.
      assert (E : 0 * pp_o2_ini + 0 + 0 * k * segment_time == 0) by ring.
      rewrite E. discriminate.
    + cbn [bind]. unfold pydiv in Hk. destruct (Qeq_bool segment_time 0); [|discriminate].
      inversion Hk. eauto.
Qed.

(** X21.  [_calculate_otu] raises [ZeroDivisionError] on a segment at
    constant depth whose oxygen pressure is exactly 0.5 bar, and on a
    segment of changing depth whose higher oxygen pressure is exactly
    0.5 bar. *)
Theorem _calculate_otu_half_bar (tanks : list Tank) (ip prev_ip : IntegrationPoint)
    (t0 t1 : Tank) :
  nth_error tanks (tank (waypoint prev_ip)) = Some t0 ->
  nth_error tanks (tank (waypoint ip)) = Some t1 ->
  (if Qeq_bool (depth (waypoint ip)) (depth (waypoint prev_ip))
   then Gas_ppO2 (_gas t0) (depth (waypoint prev_ip)) == 0.5
   else pymax (Gas_ppO2 (_gas t0) (depth (waypoint prev_ip)))
          (Gas_ppO2 (_gas t1) (depth (waypoint ip))) == 0.5) ->
  _calculate_otu tanks ip prev_ip = Raise ZeroDivisionError.
Proof.
  intros Ht0 Ht1 H. unfold _calculate_otu.
  rewrite (getitem_Ok _ _ _ Ht0), (getitem_Ok _ _ _ Ht1). cbn [bind].
  now apply otu_segment_half_bar.
Qed.

(** X22.  [_calculate_cns] raises on a segment that starts above 1.6 bar of
    oxygen, the end of the NOAA table, and does not end below 0.5 bar:
    [ZeroDivisionError] or [ValueError]. *)
Theorem _calculate_cns_above_table (tanks : list Tank)
    (ip prev_ip : IntegrationPoint) (t0 t1 : Tank) :
  nth_error tanks (tank (waypoint prev_ip)) = Some t0 ->
  nth_error tanks (tank (waypoint ip)) = Some t1 ->
  1.6 < Gas_ppO2 (_gas t0) (depth (waypoint prev_ip)) ->
  0.5 <= Gas_ppO2 (_gas t1) (depth (waypoint ip)) ->
  exists e, _calculate_cns tanks ip prev_ip = Raise e
            /\ (e = ZeroDivisionError \/ e = ValueError).
Proof.
  intros Ht0 Ht1 Hi He. unfold _calculate_cns.
  rewrite (getitem_Ok _ _ _ Ht0), (getitem_Ok _ _ _ Ht1). cbn [bind].
  now apply cns_segment_above_table.
Qed.

(** X23.  No profile the constructor returns has a step that starts above
    1.6 bar of oxygen and ends at 0.5 bar or more, nor a step of constant
    depth at exactly 0.5 bar, nor a step of changing depth whose higher
    oxygen pressure is exactly 0.5 bar. *)
Theorem Profile_init_oxygen_window (fuel : nat) (waypoints : list Waypoint)
    (tanks : list Tank) (params : Parameters) (self : Profile) :
  Profile_init fuel waypoints tanks params = Ok self ->
  forall i prev_ip ip,
    nth_error (_integration_points self) i = Some prev_ip ->
    nth_error (_integration_points self) (S i) = Some ip ->
    exists t0 t1,
      nth_error tanks (tank (waypoint prev_ip)) = Some t0
      /\ nth_error tanks (tank (waypoint ip)) = Some t1
      /\ (Gas_ppO2 (_gas t0) (depth (waypoint prev_ip)) <= 1.6
          \/ Gas_ppO2 (_gas t1) (depth (waypoint ip)) < 0.5)
      /\ (if Qeq_bool (depth (waypoint ip)) (depth (waypoint prev_ip))
          then ~ Gas_ppO2 (_gas t0) (depth (waypoint prev_ip)) == 0.5
          else ~ pymax (Gas_ppO2 (_gas t0) (depth (waypoint prev_ip)))
                   (Gas_ppO2 (_gas t1) (depth (waypoint ip))) == 0.5).
Proof.
  intros H i prev_ip ip Hprev Hip.
  destruct (Profile_init_steps _ _ _ _ _ H i prev_ip ip Hprev Hip)
    as (_ & _ & Hcns & _ & Hotu & _).
  destruct (_calculate_cns_inv _ _ _ _ Hcns) as (t0 & t1 & Ht0 & Ht1).
  exists t0, t1. split; [exact Ht0|]. split; [exact Ht1|]. split.
  - destruct (Qlt_le_dec 1.6 (Gas_ppO2 (_gas t0) (depth (waypoint prev_ip))))
      as [Hhi|Hlo]; [|now left].
    destruct (Qlt_le_dec (Gas_ppO2 (_gas t1) (depth (waypoint ip))) 0.5)
      as [Hend|Hend]; [now right|].
    exfalso. unfold _calculate_cns in Hcns.
    rewrite (getitem_Ok _ _ _ Ht0), (getitem_Ok _ _ _ Ht1) in Hcns. cbn [bind] in Hcns.
    destruct (cns_segment_above_table
                (_minutes (duration (waypoint prev_ip))) _ _
                (Qeq_bool (depth (waypoint ip)) (depth (waypoint prev_ip)))
                Hhi Hend) as (e & He & _).
    congruence.
  - unfold _calculate_otu in Hotu.
    rewrite (getitem_Ok _ _ _ Ht0), (getitem_Ok _ _ _ Ht1) in Hotu. cbn [bind] in Hotu.
    destruct (Qeq_bool (depth (waypoint ip)) (depth (waypoint prev_ip))) eqn:E;
      intros Hhalf;
      rewrite (otu_segment_half_bar _ _ _ _) in Hotu; try discriminate;
      exact Hhalf.
Qed.

(** ** Bounds on the tissue loads *)

(** The closed form is a weighted mean of the previous load, the inspired
    pressure and the inspired pressure moved by the pressure change of the
    segment. *)
Lemma schreiner_between (pi r dtm ht : Q) (p0 lo hi : R) :
  0 < ht -> 0 <= dtm ->
  (lo <= p0 <= hi)%R -> (lo <= Q2R pi <= hi)%R ->
  (lo <= Q2R pi + Q2R r * Q2R dtm <= hi)%R ->
  (lo <= schreiner pi r dtm ht p0 <= hi)%R.
Proof.
  intros Hht Hdt Hp0 Hpi Hr. unfold schreiner.
  assert (Hh : (0 < Q2R ht)%R) by (rewrite <- RMicromega.Q2R_0; now apply Qlt_Rlt).
  assert (HT : (0 <= Q2R dtm)%R) by (rewrite <- RMicromega.Q2R_0; now apply Qle_Rle).
  pose proof ln2_pos as Hln.
  set (k := (ln 2 / Q2R ht)%R).
  assert (Hk : (0 < k)%R) by (unfold k; now apply Rdiv_lt_0_compat).
  set (T := Q2R dtm) in *. set (P := Q2R pi) in *. set (rr := Q2R r) in *.
  set (e := exp (- k * T)).
  assert (He0 : (0 < e)%R) by apply exp_pos.
  assert (He1 : (e <= 1)%R).
  { unfold e. rewrite <- exp_0.
    destruct (Req_dec (k * T) 0) as [E|E].
    - replace (- k * T)%R with 0%R by lra. lra.
    - left. apply exp_increasing. nra. }
  assert (He2 : (1 - e <= k * T)%R).
  { pose proof (exp_ineq1_le (- k * T)). fold e in H. lra. }
  assert (He3 : (e * (1 + k * T) <= 1)%R).
  { pose proof (exp_ineq1_le (k * T)) as H.
    assert (Hee : (e * exp (k * T) = 1)%R).
    { unfold e. rewrite <- exp_plus. replace (- k * T + k * T)%R with 0%R by ring.
      apply exp_0. }
    rewrite <- Hee. apply Rmult_le_compat_l; lra. }
  set (u := (T - (1 - e) / k)%R).
  assert (Hinv : (0 < / k)%R) by now apply Rinv_0_lt_compat.
  assert (Hku : (k * u = k * T - (1 - e))%R) by (unfold u; field; lra).
  assert (Hu0 : (0 <= k * u)%R) by lra.
  assert (Hu1 : (k * u <= k * T * (1 - e))%R) by nra.
  assert (E : (P + rr * (T - 1 / k) - (P - p0 - rr / k) * e
               = P * (1 - e) + p0 * e + rr * u)%R).
  { unfold u. field. lra. }
  rewrite E.
  destruct (Req_dec T 0) as [HT0|HT0].
  - assert (Hu : u = 0%R).
    { assert (k * u = 0)%R by nra. nra. }
    assert (He : e = 1%R) by (unfold e; rewrite HT0, Rmult_0_r; apply exp_0).
    rewrite Hu, He. lra.
  - assert (HTpos : (0 < T)%R) by lra.
    set (s := (u / T)%R).
    assert (Hs : (u = s * T)%R) by (unfold s; field; lra).
    assert (Hs0 : (0 <= s)%R).
    { unfold s. apply Rmult_le_pos; [nra|]. left. now apply Rinv_0_lt_compat. }
    assert (Hs1 : (s <= 1 - e)%R).
    { assert (k * T * s <= k * T * (1 - e))%R by (rewrite Hs in Hu1; nra).
      apply (Rmult_le_reg_l (k * T)); [nra | exact H]. }
    replace (P * (1 - e) + p0 * e + rr * u)%R
      with (P * (1 - e - s) + p0 * e + (P + rr * T) * s)%R by (rewrite Hs; ring).
    assert (Hw : (0 <= 1 - e - s)%R) by lra.
    split.
    + assert (lo * (1 - e - s) <= P * (1 - e - s))%R by nra.
      assert (lo * e <= p0 * e)%R by nra.
      assert (lo * s <= (P + rr * T) * s)%R by nra.
      lra.
    + assert (P * (1 - e - s) <= hi * (1 - e - s))%R by nra.
      assert (p0 * e <= hi * e)%R by nra.
      assert ((P + rr * T) * s <= hi * s)%R by nra.
      lra.
Qed.

Lemma compartments_gas_between (f_ig : Q) (hts : list Q) (p0s : list R)
    (ip prev_ip : IntegrationPoint) (l : list R) (lo hi : R) :
  compartments_gas f_ig hts p0s ip prev_ip = Ok l ->
  Forall (fun ht => 0 < ht) hts ->
  0 <= _minutes (duration (waypoint prev_ip)) ->
  inspired_within f_ig ip prev_ip lo hi ->
  Forall (fun p0 => (lo <= p0 <= hi)%R) p0s ->
  Forall (fun p => (lo <= p <= hi)%R) l.
Proof.
  unfold compartments_gas. intros H Hhts HT (Hpi & Hend) Hp0s.
  apply bind_Ok in H. destruct H as (q & Hq & H).
  apply pydiv_inv in Hq. destruct Hq as (Hne & ->).
  injection H as <-.
  revert p0s Hp0s. induction Hhts as [|ht hts Hht _ IH]; intros p0s Hp0s.
  - constructor.
  - destruct Hp0s as [|p0 p0s Hp0 Hp0s]; [constructor|].
    cbn [combine map]. constructor; [|now apply IH].
    cbn [fst snd]. apply schreiner_between; try assumption.
    rewrite <- Q2R_mult, <- Q2R_plus.
    erewrite Qeq_eqR; [exact Hend|]. field. exact Hne.
Qed.

Lemma half_times_positive :
  Forall (fun ht => 0 < ht) ZH_L16.N2_ht /\ Forall (fun ht => 0 < ht) ZH_L16.He_ht.
Proof. split; repeat (constructor; [reflexivity|]); constructor. Qed.

(** X24.  Over a segment of non-negative duration, a bracket that holds the
    previous loads of an inert gas, the inspired pressure of that gas at the
    new depth, and that pressure moved by the change of inspired pressure
    over the segment, holds the new loads as well; for nitrogen and for
    helium. *)
Theorem _calculate_compartments_between (tanks : list Tank)
    (ip prev_ip : IntegrationPoint) (n2 he : list R) (t : Tank) :
  _calculate_compartments tanks ip prev_ip = Ok (n2, he) ->
  nth_error tanks (tank (waypoint prev_ip)) = Some t ->
  0 <= _minutes (duration (waypoint prev_ip)) ->
  (forall lo hi,
     inspired_within (Gas_fN2 (_gas t)) ip prev_ip lo hi ->
     Forall (fun p0 => (lo <= p0 <= hi)%R) (load_N2 prev_ip) ->
     Forall (fun p => (lo <= p <= hi)%R) n2)
  /\ (forall lo hi,
        inspired_within (Gas_fHe (_gas t)) ip prev_ip lo hi ->
        Forall (fun p0 => (lo <= p0 <= hi)%R) (load_He prev_ip) ->
        Forall (fun p => (lo <= p <= hi)%R) he).
Proof.
  unfold _calculate_compartments. intros H Ht HT.
  rewrite (getitem_Ok _ _ _ Ht) in H. cbn [bind] in H.
  apply bind_Ok in H. destruct H as (n2' & Hn2 & H).
  apply bind_Ok in H. destruct H as (he' & Hhe & H).
  inversion H; subst n2' he'; clear H.
  destruct half_times_positive as (Hn & Hh).
  split; intros lo hi Hin Hp0.
  - exact (compartments_gas_between _ _ _ _ _ _ _ _ Hn2 Hn HT Hin Hp0).
  - exact (compartments_gas_between _ _ _ _ _ _ _ _ Hhe Hh HT Hin Hp0).
Qed.

Lemma _calculate_compartments_between_witness :
  exists n2 he,
    _calculate_compartments [Tank_default] rising_point shallow_point = Ok (n2, he)
    /\ (forall lo hi,
          inspired_within (Gas_fN2 (_gas Tank_default)) rising_point shallow_point
            lo hi ->
          Forall (fun p0 => (lo <= p0 <= hi)%R) (load_N2 shallow_point) ->
          Forall (fun p => (lo <= p <= hi)%R) n2).
Proof.
  eexists. eexists. split; [reflexivity|].
  refine (proj1 (_calculate_compartments_between [Tank_default] rising_point
                   shallow_point _ _ Tank_default eq_refl eq_refl _)).
  discriminate.
Defined.

(** ** Gradient factor and safety stop *)

(** X25.  The gradient factor is [gf_high] at the surface and [gf_low] at
    the deepest waypoint, and it is [gf_high] at every depth when the two
    are equal. *)
Theorem gradient_factor_endpoints (wps : list Waypoint) (params : Parameters)
    (ip : IntegrationPoint) (gf : Q) :
  gradient_factor wps params ip = Ok gf ->
  (depth (waypoint ip) == 0 -> gf == gf_high params)
  /\ (depth (waypoint ip) == max_depth wps -> gf == gf_low params)
  /\ (gf_high params == gf_low params -> gf == gf_high params).
Proof.
  unfold gradient_factor. intros H.
  apply bind_Ok in H. destruct H as (q & Hq & H).
  apply pydiv_inv in Hq. destruct Hq as (Hne & ->). injection H as <-.
  assert (Hm : ~ max_depth wps == 0) by now rewrite <- gf_divisor_zero_iff.
  unfold gf_divisor, p_amb in *.
  assert (Hf : ~ 10 - (max_depth wps + 10) == 0).
  { intros Hz. apply Hm. Lqa.lra. }
  split; [|split]; intros E; rewrite E; field; exact Hf.
Qed.

Lemma gradient_factor_endpoints_witness :
  exists gf,
    gradient_factor two_waypoints Parameters_default
      (IntegrationPoint_init (Waypoint_init 10 ArgNone ArgNone 0)) = Ok gf
    /\ gf == gf_low Parameters_default.
Proof.
  eexists. split; [reflexivity|].
  refine (proj1 (proj2 (gradient_factor_endpoints two_waypoints Parameters_default
                          (IntegrationPoint_init (Waypoint_init 10 ArgNone ArgNone 0))
                          _ eq_refl)) _).
  reflexivity.
Defined.

Lemma last_app_cons {A : Type} (l : list A) (x : A) (l' : list A) (a b : A) :
  List.last (l ++ x :: l') a = List.last (x :: l') b.
Proof.
  induction l as [|y l IH]; [apply last_cons_default|].
  rewrite <- IH. destruct l; reflexivity.
Qed.

Lemma safety_stop_loop_count (fuel : nat) (self : Profile) :
  forall prev_ip t timer out res,
    safety_stop_loop fuel self prev_ip t timer out = Ok res ->
    exists new,
      res = (out ++ new)%list
      /\ (_seconds (Time_m (safety_stop_duration (_params self)))
          <= timer + Z.of_nat (List.length new) * _seconds (dt (_params self)))%Z
      /\ (new <> [] ->
          timer + (Z.of_nat (List.length new) - 1) * _seconds (dt (_params self))
          < _seconds (Time_m (safety_stop_duration (_params self))))%Z.
Proof.
  induction fuel as [|fuel IH]; intros prev_ip t timer out res H; simpl in H;
    [discriminate|].
  destruct (timer <? _)%Z eqn:E.
  - apply bind_Ok in H. destruct H as (ip & Hip & H).
    destruct (IH _ _ _ _ _ H) as (new & -> & Hge & Hlt).
    exists (ip :: new). split; [now rewrite <- app_assoc|].
    apply Z.ltb_lt in E. cbn [List.length]. split; [lia|]. intros _.
    destruct new as [|x new]; [simpl; lia|].
    specialize (Hlt ltac:(discriminate)). cbn [List.length] in *. lia.
  - inversion H; subst res. exists []. split; [now rewrite app_nil_r|].
    apply Z.ltb_ge in E. simpl. split; [lia | congruence].
Qed.

(** X26.  A regular ascent to a target that is not deeper than the safety
    stop returns, in this order: an ascent of at least one point that ends
    not deeper than the stop; a held part of at least one point, all at the
    stop depth, as many as the time steps needed to cover the stop
    duration; and the ascent to the target.  The last point is not deeper
    than the target. *)
Theorem _calculate_regular_ascent_stop (fuel : nat) (self : Profile) (d : Q)
    (ip : IntegrationPoint) (append : bool)
    (self' : Profile) (out : list IntegrationPoint) :
  _calculate_regular_ascent fuel self d ip append = Ok (self', out) ->
  d <= safety_stop_depth (_params self) ->
  exists seg1 seg2 seg3,
    out = (seg1 ++ seg2 ++ seg3)%list
    /\ seg1 <> [] /\ seg2 <> []
    /\ depth (waypoint (List.last seg1 ip)) <= safety_stop_depth (_params self)
    /\ Forall (fun p => depth (waypoint p) = safety_stop_depth (_params self)) seg2
    /\ ((Z.of_nat (List.length seg2) - 1) * _seconds (dt (_params self))
        < _seconds (Time_m (safety_stop_duration (_params self)))
        <= Z.of_nat (List.length seg2) * _seconds (dt (_params self)))%Z
    /\ depth (waypoint (List.last (seg1 ++ seg2 ++ seg3) ip)) <= d.
Proof.
  unfold _calculate_regular_ascent, _calculate_direct_ascent. intros H Hd.
  apply Qlt_bool_false_iff in Hd. rewrite Hd in H.
  apply bind_Ok in H. destruct H as (segments & Hsegs & H).
  apply bind_Ok in Hsegs. destruct Hsegs as (r & Hr & Hsegs).
  apply bind_Ok in Hr. destruct Hr as (seg1 & H1 & Hr).
  inversion Hr; subst r; clear Hr. cbn [snd] in Hsegs.
  apply bind_Ok in Hsegs. destruct Hsegs as (seg & Hseg & Hsegs).
  cbn in Hseg. inversion Hseg; subst seg; clear Hseg.
  apply bind_Ok in Hsegs. destruct Hsegs as (ip1 & Hip1 & Hsegs).
  apply bind_Ok in Hsegs. destruct Hsegs as (seg2 & H2 & Hsegs).
  apply bind_Ok in Hsegs. destruct Hsegs as (seg & Hseg & Hsegs).
  cbn in Hseg. inversion Hseg; subst seg; clear Hseg.
  apply bind_Ok in Hsegs. destruct Hsegs as (ip2 & Hip2 & Hsegs).
  apply bind_Ok in Hsegs. destruct Hsegs as (r & Hr & Hsegs).
  apply bind_Ok in Hr. destruct Hr as (seg3 & H3 & Hr).
  inversion Hr; subst r; clear Hr. inversion Hsegs; subst segments; clear Hsegs.
  assert (Hout : out = (seg1 ++ seg2 ++ seg3)%list).
  { destruct append.
    - apply bind_Ok in H. destruct H as (self1 & _ & H). inversion H.
      simpl. now rewrite app_nil_r.
    - inversion H. simpl. now rewrite app_nil_r. }
  exists seg1, seg2, seg3. split; [exact Hout|].
  split; [intros ->; discriminate|]. split; [intros ->; discriminate|].
  destruct (direct_ascent_loop_reaches _ _ _ _ _ _ _ H1) as (n1 & E1 & Hd1).
  simpl in E1. subst n1. split; [exact Hd1|].
  split; [apply (safety_stop_loop_depth _ _ _ _ _ _ _ H2); constructor|].
  destruct (safety_stop_loop_count _ _ _ _ _ _ _ H2) as (n2 & E2 & Hge & Hlt).
  simpl in E2. subst n2.
  split; [split; [apply Hlt; intros ->; discriminate | lia]|].
  destruct (direct_ascent_loop_reaches _ _ _ _ _ _ _ H3) as (n3 & E3 & Hd3).
  simpl in E3. subst n3.
  destruct seg3 as [|x seg3].
  - simpl in Hd3. rewrite app_nil_r.
    apply last_item_inv in Hip2. destruct Hip2 as (s & ->).
    rewrite app_assoc, last_last. exact Hd3.
  - rewrite app_assoc.
    now rewrite (last_app_cons _ _ _ ip ip2).
Qed.

Lemma _calculate_regular_ascent_stop_witness :
  exists seg1 seg2 seg3 out,
    _calculate_regular_ascent 64 short_profile 0 short_point false
    = Ok (short_profile, out)
    /\ out = (seg1 ++ seg2 ++ seg3)%list
    /\ seg1 <> [] /\ seg2 <> []
    /\ depth (waypoint (List.last seg1 short_point))
       <= safety_stop_depth (_params short_profile)
    /\ Forall (fun p => depth (waypoint p) = safety_stop_depth (_params short_profile))
         seg2
    /\ ((Z.of_nat (List.length seg2) - 1) * _seconds (dt (_params short_profile))
        < _seconds (Time_m (safety_stop_duration (_params short_profile)))
        <= Z.of_nat (List.length seg2) * _seconds (dt (_params short_profile)))%Z
    /\ depth (waypoint (List.last (seg1 ++ seg2 ++ seg3) short_point)) <= 0.
Proof.
  assert (H : exists out, _calculate_regular_ascent 64 short_profile 0 short_point false
                          = Ok (short_profile, out)).
  { eexists. run_steps. reflexivity. }
  destruct H as (out & H).
  destruct (_calculate_regular_ascent_stop 64 short_profile 0 short_point false
              short_profile out H ltac:(discriminate))
    as (seg1 & seg2 & seg3 & Hrest).
  exists seg1, seg2, seg3, out. split; [exact H | exact Hrest].
Defined.

(** ** Gas-switch stop *)

Lemma gas_switch_loop_points (fuel : nat) (self : Profile) (d : Q) (tk : nat) :
  forall st st',
    gas_switch_loop fuel self d st = Ok st' ->
    tank (waypoint (ss_prev_ip st)) = tk ->
    Forall (fun p => depth (waypoint p) = d /\ tank (waypoint p) = tk) (ss_out st) ->
    Forall (fun p => depth (waypoint p) = d /\ tank (waypoint p) = tk) (ss_out st').
Proof.
  induction fuel as [|fuel IH]; intros st st' H Htk Hall; simpl in H;
    [discriminate|].
  destruct (Qle_bool _ _).
  - apply bind_Ok in H. destruct H as (ip & Hip & H).
    apply ascent_point_fields in Hip. destruct Hip as (Hw & _).
    apply (IH _ _ H); cbn [ss_prev_ip ss_out].
    + rewrite Hw. exact Htk.
    + apply Forall_app. split; [exact Hall|]. constructor; [|constructor].
      rewrite Hw. split; [reflexivity | exact Htk].
  - inversion H; now subst.
Qed.

(** X27.  A gas-switch stop has at least one point, all at the stop depth;
    the points before the last keep the tank of the point the stop starts
    from, and the last carries the tank [_select_tank] gives for the stop
    depth. *)
Theorem _add_gas_switch_stop_switches_last (fuel : nat) (self : Profile) (d : Q)
    (prev_ip : IntegrationPoint) (out : list IntegrationPoint) :
  _add_gas_switch_stop fuel self d prev_ip = Ok out ->
  exists pre l,
    out = (pre ++ [l])%list
    /\ Forall (fun p => depth (waypoint p) = d) out
    /\ Forall (fun p => tank (waypoint p) = tank (waypoint prev_ip)) pre
    /\ _select_tank (_tanks self) d 1.6 = Ok (tank (waypoint l)).
Proof.
  unfold _add_gas_switch_stop. intros H.
  apply bind_Ok in H. destruct H as (st & Hloop & H).
  apply bind_Ok in H. destruct H as (out_last & Hlast & H).
  apply bind_Ok in H. destruct H as (tk & Htk & H).
  inversion H; subst out; clear H.
  apply (gas_switch_loop_points _ _ _ (tank (waypoint prev_ip))) in Hloop;
    [|reflexivity | constructor].
  apply last_item_inv in Hlast. destruct Hlast as (pre & E). rewrite E in *.
  rewrite removelast_last.
  apply Forall_app in Hloop. destruct Hloop as (Hpre & Hl).
  inversion Hl as [|? ? (Hd & _) _]; subst.
  exists pre, (set_tank out_last tk). split; [reflexivity|]. split; [|split].
  - apply Forall_app. split.
    + eapply Forall_impl; [|exact Hpre]. now intros p (Hp & _).
    + constructor; [reflexivity | constructor].
  - eapply Forall_impl; [|exact Hpre]. now intros p (_ & Hp).
  - exact Htk.
Qed.

Lemma _add_gas_switch_stop_switches_last_witness :
  exists out pre l,
    _add_gas_switch_stop 64 switch_profile 21 switch_point = Ok out
    /\ out = (pre ++ [l])%list
    /\ Forall (fun p => depth (waypoint p) = 21) out
    /\ Forall (fun p => tank (waypoint p) = tank (waypoint switch_point)) pre
    /\ _select_tank (_tanks switch_profile) 21 1.6 = Ok (tank (waypoint l)).
Proof.
  assert (H : exists out, _add_gas_switch_stop 64 switch_profile 21 switch_point
                          = Ok out).
  { eexists. run_steps. reflexivity. }
  destruct H as (out & H).
  destruct (_add_gas_switch_stop_switches_last 64 switch_profile 21 switch_point
              out H) as (pre & l & Hrest).
  exists out, pre, l. split; [exact H | exact Hrest].
Defined.

(** ** Instances of the properties above *)

Lemma _complete_waypoints_raises_witness :
  _complete_waypoints still_params stepped_plan false = Raise ZeroDivisionError
  /\ _complete_waypoints still_params [] false = Raise IndexError.
Proof.
  apply (_complete_waypoints_raises still_params
           (Waypoint_init 1 (ArgFloat 2) ArgNone 3)); [discriminate | reflexivity].
Defined.

Lemma Profile_init_initial_state_witness :
  exists self ip0,
    Profile_init 64 short_dive [Tank_default] short_params = Ok self
    /\ nth_error (_integration_points self) 0 = Some ip0
    /\ runtime (waypoint ip0) = Time_s 0
    /\ tank (waypoint ip0) = 0%nat
    /\ tank_pressure ip0 = map start_pressure [Tank_default]
    /\ load_N2 ip0 = repeat (Q2R (0.79 * (1 - pw))) 16
    /\ load_He ip0 = repeat 0%R 16
    /\ cns_cum ip0 = 0%R /\ otu_cum ip0 = 0%R.
Proof.
  destruct short_profile_constructed as (self & H & _).
  destruct (Profile_init_initial_state 64 short_dive [Tank_default] short_params
              self H) as (ip0 & Hrest).
  exists self, ip0. split; [exact H | exact Hrest].
Defined.

Lemma Profile_init_array_sizes_witness :
  exists self,
    Profile_init 64 short_dive [Tank_default] short_params = Ok self
    /\ Forall (fun ip =>
                 List.length (load_N2 ip) = 16%nat
                 /\ List.length (load_He ip) = 16%nat
                 /\ List.length (ceilings ip) = 16%nat
                 /\ List.length (tank_pressure ip) = List.length [Tank_default])
         (_integration_points self).
Proof.
  destruct short_profile_constructed as (self & H & _).
  exists self. split; [exact H|].
  exact (Profile_init_array_sizes 64 short_dive [Tank_default] short_params self H).
Defined.

Lemma Profile_init_oxygen_window_witness :
  exists self,
    Profile_init 64 short_dive [Tank_default] short_params = Ok self
    /\ forall i prev_ip ip,
         nth_error (_integration_points self) i = Some prev_ip ->
         nth_error (_integration_points self) (S i) = Some ip ->
         exists t0 t1,
           nth_error [Tank_default] (tank (waypoint prev_ip)) = Some t0
           /\ nth_error [Tank_default] (tank (waypoint ip)) = Some t1
           /\ (Gas_ppO2 (_gas t0) (depth (waypoint prev_ip)) <= 1.6
               \/ Gas_ppO2 (_gas t1) (depth (waypoint ip)) < 0.5)
           /\ (if Qeq_bool (depth (waypoint ip)) (depth (waypoint prev_ip))
               then ~ Gas_ppO2 (_gas t0) (depth (waypoint prev_ip)) == 0.5
               else ~ pymax (Gas_ppO2 (_gas t0) (depth (waypoint prev_ip)))
                        (Gas_ppO2 (_gas t1) (depth (waypoint ip))) == 0.5).
Proof.
  destruct short_profile_constructed as (self & H & _).
  exists self. split; [exact H|].
  exact (Profile_init_oxygen_window 64 short_dive [Tank_default] short_params self H).
Defined.

Lemma _calculate_otu_half_bar_witness :
  _calculate_otu [mkTank EAN25 200 15] level_point level_point
  = Raise ZeroDivisionError.
Proof.
  apply (_calculate_otu_half_bar [mkTank EAN25 200 15] level_point level_point
           (mkTank EAN25 200 15) (mkTank EAN25 200 15));
    reflexivity.
Defined.

Lemma _calculate_cns_above_table_witness :
  exists e, _calculate_cns [mkTank EAN50 200 10] deep_point deep_point = Raise e
            /\ (e = ZeroDivisionError \/ e = ValueError).
Proof.
  apply (_calculate_cns_above_table [mkTank EAN50 200 10] deep_point deep_point
           (mkTank EAN50 200 10) (mkTank EAN50 200 10));
    [reflexivity | reflexivity | reflexivity | discriminate].
Defined.


Lemma _calculate_next_deco_stop_clear (params : Parameters) :
  ~ stop_depth_incr params == 0 ->
  _calculate_next_deco_stop params 0 = Ok (inject_Z 0 * stop_depth_incr params).
Proof.
  intros H. unfold _calculate_next_deco_stop.
  apply Qeq_bool_false_iff in H. rewrite H.
  replace (0 / Q2R (stop_depth_incr params))%R with 0%R by (unfold Rdiv; ring).
  rewrite Rceil_0.
  destruct (Rlt_dec 0 0) as [Hlt|_]; [lra|].
  now rewrite andb_false_r.
Qed.

Lemma obliged_point_ceiling : ceiling obliged_point = 1%R.
Proof.
  unfold ceiling, np_max. cbn [ceilings obliged_point set_ceilings repeat fold_left].
  repeat (rewrite (Rmax_left 1 0) by lra).
  destruct (Rlt_dec 0 1) as [_|H]; [reflexivity | lra].
Qed.

(** A ceiling of 1 m asks for the last stop, at 3 m. *)
Lemma next_stop_of_1 :
  _calculate_next_deco_stop (Parameters_with_dt (Time_s 30)) 1 = Ok 3.
Proof.
  unfold _calculate_next_deco_stop.
  cbn [stop_depth_incr last_stop_depth Parameters_with_dt Qeq_bool].
  assert (E : Rceil (1 / Q2R 3) = 1%Z).
  { pose proof (Rceil_bounds (1 / Q2R 3)) as (H1 & H2).
    assert (Q2R 3 = 3%R) by q2r. rewrite H in *.
    assert (0 < IZR (Rceil (1 / 3)))%R by lra.
    assert (IZR (Rceil (1 / 3)) < 2)%R by lra.
    apply lt_IZR in H0, H3. lia. }
  rewrite E.
  destruct (Rlt_dec 0 1) as [_|H]; [|lra].
  destruct (Rlt_dec 1 (Q2R 3)) as [_|H]; [reflexivity | exfalso; apply H; q2r].
Qed.

(** Evaluates the point a stop loop makes, leaving the real-valued loads
    and ceilings as they are. *)
Ltac eval_point f :=
  match goal with
  | |- context [f ?a ?b ?c ?d] =>
      let p := eval lazy -[Q2R Rplus Rmult Rminus Rdiv Rinv Ropp exp ln Rpower
                           IZR Rlt_dec Rmax schreiner ceiling_compartment ceiling]
               in (f a b c d) in
      change (f a b c d) with p
  end.

(** After one step at 3 m from surface-saturated tissues every compartment
    ceiling is at or below 0. *)
Ltac cleared_ceiling :=
  match goal with
  | |- context [ceiling ?e] =>
      let Hc := fresh "Hc" in
      assert (Hc : ceiling e = 0%R)
        by (apply ceiling_zero; cbn [ceilings];
            repeat (constructor;
                    [ apply ceiling_compartment_nonpos;
                      [ q2r | no_helium
                      | match goal with
                        | |- (0 < ?l <= _)%R =>
                            assert (7 / 10 <= l <= 1)%R
                              by (apply (schreiner_within _ _ _ _ _ (7 / 10) 1 0);
                                  [ reflexivity | discriminate
                                  | q2r | q2r | q2r | lra | lra ]);
                            lra
                        end
                      | q2r | q2r ]
                    | ]);
            constructor);
      rewrite Hc; clear Hc
  end.

(** A stop at 3 m stepped every half minute, entered with a ceiling of 1 m:
    the hold loop makes one point and leaves by its [break], the stop clock
    still at one step, and the second loop adds the point that completes
    the minute. *)
Lemma half_minute_stop :
  exists p1 p2,
    _add_deco_stop 2 half_minute_profile 3 obliged_point = Ok [p1; p2]
    /\ runtime_s (waypoint p1) = 1830%Z /\ runtime_s (waypoint p2) = 1860%Z.
Proof.
  unfold _add_deco_stop. cbv zeta.
  rewrite obliged_point_ceiling.
  change (_params half_minute_profile) with (Parameters_with_dt (Time_s 30)).
  rewrite next_stop_of_1. cbn [bind].
  cbn [deco_hold_loop ss_prev_ip]. rewrite obliged_point_ceiling.
  destruct (Rlt_dec 1 (Q2R 3)) as [_|H]; [|exfalso; apply H; q2r].
  eval_point deco_stop_point_1. cbn [bind].
  cleared_ceiling.
  change (_params half_minute_profile) with (Parameters_with_dt (Time_s 30)).
  rewrite _calculate_next_deco_stop_clear by discriminate.
  cbn [bind].
  change (Qlt_bool (inject_Z 0 * stop_depth_incr (Parameters_with_dt (Time_s 30))) 3)
    with true.
  cbv iota. cbn [bind deco_minute_loop ss_stop_time ss_prev_ip ss_t ss_out].
  change (negb (_seconds (dt (Parameters_with_dt (Time_s 30))) mod 60 =? 0)%Z)
    with true.
  cbv iota.
  eval_point deco_stop_point_2. cbn [bind].
  cbn [deco_minute_loop ss_stop_time ss_prev_ip ss_t ss_out].
  change (negb ((_seconds (dt (Parameters_with_dt (Time_s 30)))
                 + _seconds (dt (_params half_minute_profile))) mod 60 =? 0)%Z)
    with false.
  cbv iota. cbn [bind ss_out app].
  eexists. eexists. split; [reflexivity|]. split; reflexivity.
Qed.

Lemma _add_deco_stop_whole_minutes_witness :
  exists p1 p2,
    _add_deco_stop 2 half_minute_profile 3 obliged_point = Ok [p1; p2]
    /\ runtime_s (waypoint p1) = 1830%Z /\ runtime_s (waypoint p2) = 1860%Z
    /\ Forall (fun ip => depth (waypoint ip) = 3) [p1; p2]
    /\ exists n,
         (n = List.length [p1; p2] \/ n = S (List.length [p1; p2]))
         /\ ((_seconds (dt (_params half_minute_profile)) * Z.of_nat n) mod 60
             = 0)%Z.
Proof.
  destruct half_minute_stop as (p1 & p2 & H & H1 & H2).
  exists p1, p2. split; [exact H|]. split; [exact H1|]. split; [exact H2|].
  exact (_add_deco_stop_whole_minutes 2 half_minute_profile 3 obliged_point
           [p1; p2] H).
Defined.


Lemma _interpolate_depth_at_waypoint_witness :
  _interpolate_depth two_waypoints (Time_s 60) = Ok (round1 10).
Proof.
  apply (_interpolate_depth_at_waypoint [Waypoint_init 0 ArgNone ArgNone 0] []
           (Waypoint_init 10 ArgNone (ArgFloat 1) 0) (Time_s 60)).
  - constructor; [reflexivity | constructor].
  - reflexivity.
Defined.

(** * The gradient-factor divisor in double precision *)

Section Binary64.

Local Open Scope Z_scope.

(** ** Binary64: digits and shifts *)

Lemma digits2_pos_bounds (p : positive) :
  2 ^ (Zpos (digits2_pos p) - 1) <= Zpos p < 2 ^ Zpos (digits2_pos p).
Proof.
  induction p as [p IH|p IH|]; cbn [digits2_pos].
  - rewrite Pos2Z.inj_succ.
    replace (Z.succ (Zpos (digits2_pos p)) - 1) with (Z.succ (Zpos (digits2_pos p) - 1)) by lia.
    rewrite !Z.pow_succ_r by lia. lia.
  - rewrite Pos2Z.inj_succ.
    replace (Z.succ (Zpos (digits2_pos p)) - 1) with (Z.succ (Zpos (digits2_pos p) - 1)) by lia.
    rewrite !Z.pow_succ_r by lia. lia.
  - simpl. lia.
Qed.

Lemma digits2_pos_ge (p : positive) (k : Z) :
  2 ^ (k - 1) <= Zpos p -> k <= Zpos (digits2_pos p).
Proof.
  intros H. destruct (digits2_pos_bounds p) as (_ & Hlt).
  destruct (Z.le_gt_cases k (Zpos (digits2_pos p))) as [|Hgt]; [assumption|].
  exfalso.
  assert (2 ^ Zpos (digits2_pos p) <= 2 ^ (k - 1)) by (apply Z.pow_le_mono_r; lia).
  lia.
Qed.

Lemma digits2_pos_le (p : positive) (k : Z) :
  0 <= k -> Zpos p < 2 ^ k -> Zpos (digits2_pos p) <= k.
Proof.
  intros Hk H. destruct (digits2_pos_bounds p) as (Hle & _).
  destruct (Z.le_gt_cases (Zpos (digits2_pos p)) k) as [|Hgt]; [assumption|].
  exfalso.
  assert (2 ^ k <= 2 ^ (Zpos (digits2_pos p) - 1)) by (apply Z.pow_le_mono_r; lia).
  lia.
Qed.

Lemma shr_1_m (mrs : shr_record) :
  0 <= shr_m mrs -> shr_m (shr_1 mrs) = shr_m mrs / 2.
Proof.
  destruct mrs as [m r s]. cbn [shr_m shr_1]. intros H.
  destruct m as [|[p|p|]|p]; cbn [shr_m].
  - reflexivity.
  - rewrite Pos2Z.inj_xI. apply Z.div_unique with 1; lia.
  - rewrite Pos2Z.inj_xO. apply Z.div_unique with 0; lia.
  - reflexivity.
  - lia.
Qed.

Lemma iter_pos_shr_1_m (n : positive) :
  forall mrs, 0 <= shr_m mrs ->
    shr_m (SpecFloat.iter_pos shr_1 n mrs) = shr_m mrs / 2 ^ Zpos n.
Proof.
  assert (Hnn : forall mrs, 0 <= shr_m mrs -> 0 <= shr_m (shr_1 mrs)).
  { intros mrs H. rewrite shr_1_m by assumption. apply Z.div_pos; lia. }
  induction n as [n IH|n IH|]; intros mrs H; cbn [SpecFloat.iter_pos].
  - assert (H1 : 0 <= shr_m (shr_1 mrs)) by auto.
    assert (H2 : 0 <= shr_m (SpecFloat.iter_pos shr_1 n (shr_1 mrs))).
    { rewrite IH by assumption. apply Z.div_pos; [assumption|]. apply Z.pow_pos_nonneg; lia. }
    rewrite IH by assumption. rewrite IH by assumption. rewrite shr_1_m by assumption.
    rewrite !Z.div_div by (try apply Z.pow_pos_nonneg; lia).
    f_equal.
    assert (E : Zpos n~1 = 1 + Zpos n + Zpos n) by lia.
    rewrite E, !Z.pow_add_r by lia. lia.
  - assert (H2 : 0 <= shr_m (SpecFloat.iter_pos shr_1 n mrs)).
    { rewrite IH by assumption. apply Z.div_pos; [assumption|]. apply Z.pow_pos_nonneg; lia. }
    rewrite IH by assumption. rewrite IH by assumption.
    rewrite !Z.div_div by (try apply Z.pow_pos_nonneg; lia).
    f_equal.
    assert (E : Zpos n~0 = Zpos n + Zpos n) by lia.
    rewrite E, !Z.pow_add_r by lia. lia.
  - rewrite shr_1_m by assumption. reflexivity.
Qed.

Lemma shr_record_of_loc_m (m : Z) (l : location) : shr_m (shr_record_of_loc m l) = m.
Proof. destruct l as [|[| |]]; reflexivity. Qed.

(** [shr] by [n >= 0] divides the mantissa by [2 ^ n] and adds [n] to the
    exponent. *)
Lemma shr_m_e (mrs : shr_record) (e n : Z) :
  0 <= shr_m mrs -> 0 <= n ->
  shr_m (fst (shr mrs e n)) = shr_m mrs / 2 ^ n /\ snd (shr mrs e n) = e + n.
Proof.
  intros Hm Hn. unfold shr. destruct n as [|n|n]; cbn [fst snd].
  - rewrite Z.div_1_r. lia.
  - split; [now apply iter_pos_shr_1_m | reflexivity].
  - lia.
Qed.

Lemma round_nearest_even_bounds (m : Z) (l : location) :
  m <= round_nearest_even m l <= m + 1.
Proof.
  unfold round_nearest_even. destruct l as [|[| |]]; try lia.
  destruct (Z.even m); lia.
Qed.

Lemma pow2_div_pos (p : positive) (n : Z) :
  0 <= n -> n < Zpos (digits2_pos p) -> 1 <= Zpos p / 2 ^ n.
Proof.
  intros Hn Hlt. destruct (digits2_pos_bounds p) as (Hle & _).
  assert (Hp : 0 < 2 ^ n) by (apply Z.pow_pos_nonneg; lia).
  assert (2 ^ n <= 2 ^ (Zpos (digits2_pos p) - 1)) by (apply Z.pow_le_mono_r; lia).
  apply Z.div_le_lower_bound; lia.
Qed.

Lemma fexp_b64 (d : Z) : fexp prec emax d = Z.max (d - 53) (-1074).
Proof. reflexivity. Qed.

(** Rounding a positive integer [p * 2 ^ ex] whose last kept bit is not
    below [ex]: the result is the infinity or a finite number, never zero;
    its exponent is not below that of the format, and when it is that
    exponent its mantissa is not below the truncated one. *)
Lemma binary_round_aux_shape (s : bool) (p : positive) (ex : Z) (lx : location) :
  let E := fexp prec emax (Zpos (digits2_pos p) + ex) in
  ex <= E -> E - ex < Zpos (digits2_pos p) ->
  binary_round_aux prec emax s (Zpos p) ex lx = S754_infinity s
  \/ exists m e,
       binary_round_aux prec emax s (Zpos p) ex lx = S754_finite s m e
       /\ ((e = E /\ Zpos p / 2 ^ (E - ex) <= Zpos m) \/ E < e).
Proof.
  intros E Hle Hlt. unfold binary_round_aux, shr_fexp. cbn [Zdigits2].
  fold E.
  assert (HE : -1074 <= E) by (unfold E; rewrite fexp_b64; lia).
  destruct (shr_m_e (shr_record_of_loc (Zpos p) lx) ex (E - ex)) as (Hm1 & He1);
    [rewrite shr_record_of_loc_m; lia | lia |].
  rewrite shr_record_of_loc_m in Hm1.
  destruct (shr (shr_record_of_loc (Zpos p) lx) ex (E - ex)) as [mrs1 e1].
  cbn [fst snd] in Hm1, He1.
  assert (E1 : e1 = E) by lia. clear He1. subst e1.
  pose proof (pow2_div_pos p (E - ex) ltac:(lia) Hlt) as Hpos.
  pose proof (round_nearest_even_bounds (shr_m mrs1) (loc_of_shr_record mrs1)) as Hr.
  destruct (round_nearest_even (shr_m mrs1) (loc_of_shr_record mrs1)) as [|pr|pr];
    [lia | | lia].
  cbn [Zdigits2].
  set (n2 := fexp prec emax (Zpos (digits2_pos pr) + E) - E).
  assert (Hn2 : n2 = Z.max (Zpos (digits2_pos pr) + E - 53) (-1074) - E)
    by (unfold n2; now rewrite fexp_b64).
  destruct (Z.le_gt_cases n2 0) as [Hz|Hp].
  - assert (Es : shr (shr_record_of_loc (Zpos pr) loc_Exact) E n2
                 = (shr_record_of_loc (Zpos pr) loc_Exact, E)).
    { unfold shr. destruct n2; try reflexivity. lia. }
    rewrite Es. cbn [shr_record_of_loc shr_m].
    destruct (E <=? emax - prec); [right | now left].
    exists pr, E. split; [reflexivity|]. left. split; [reflexivity | lia].
  - destruct (shr_m_e (shr_record_of_loc (Zpos pr) loc_Exact) E n2) as (Hm2 & He2);
      [cbn; lia | lia |].
    destruct (shr (shr_record_of_loc (Zpos pr) loc_Exact) E n2) as [mrs2 e2].
    cbn [fst snd shr_record_of_loc shr_m] in Hm2, He2.
    assert (Hpos2 : 1 <= Zpos pr / 2 ^ n2) by (apply pow2_div_pos; lia).
    rewrite Hm2. destruct (Zpos pr / 2 ^ n2) as [|m2|m2]; [lia | | lia].
    destruct (e2 <=? emax - prec); [right | now left].
    exists m2, e2. split; [reflexivity|]. right. lia.
Qed.

Lemma digits2_pos_iter_xO (d q : positive) :
  Zpos (digits2_pos (Pos.iter xO q d)) = Zpos (digits2_pos q) + Zpos d.
Proof.
  induction d as [|d IH] using Pos.peano_ind.
  - cbn [Pos.iter digits2_pos]. lia.
  - rewrite Pos.iter_succ. cbn [digits2_pos]. lia.
Qed.

Lemma Zpos_iter_xO (d q : positive) :
  Zpos (Pos.iter xO q d) = Zpos q * 2 ^ Zpos d.
Proof.
  induction d as [|d IH] using Pos.peano_ind.
  - cbn [Pos.iter]. lia.
  - rewrite Pos.iter_succ, Pos2Z.inj_xO, IH, Pos2Z.inj_succ, Z.pow_succ_r by lia. lia.
Qed.

(** Without a left shift [binary_round] is [binary_round_aux]. *)
Lemma binary_round_noshift (s : bool) (q : positive) (e : Z) :
  e <= fexp prec emax (Zpos (digits2_pos q) + e) ->
  binary_round prec emax s q e = binary_round_aux prec emax s (Zpos q) e loc_Exact.
Proof.
  intros H. unfold binary_round, shl_align.
  destruct (fexp prec emax (Zpos (digits2_pos q) + e) - e) eqn:E; try reflexivity.
  lia.
Qed.

(** Rounding a positive multiple of the smallest positive number never
    gives zero. *)
Lemma binary_round_finite (s : bool) (q : positive) (e : Z) :
  -1074 <= e ->
  binary_round prec emax s q e = S754_infinity s
  \/ exists m e', binary_round prec emax s q e = S754_finite s m e'.
Proof.
  intros He.
  pose proof (fexp_b64 (Zpos (digits2_pos q) + e)) as HE.
  destruct (Z.le_gt_cases e (fexp prec emax (Zpos (digits2_pos q) + e))) as [Hle|Hgt].
  - rewrite binary_round_noshift by assumption.
    destruct (binary_round_aux_shape s q e loc_Exact) as [H|(m & e' & H & _)];
      [assumption | lia | now left | right; eauto].
  - unfold binary_round, shl_align.
    destruct (fexp prec emax (Zpos (digits2_pos q) + e) - e) as [|d|d] eqn:E;
      [lia | lia |].
    pose proof (digits2_pos_iter_xO d q) as Hd.
    assert (HE' : fexp prec emax (Zpos (digits2_pos (Pos.iter xO q d))
                                  + fexp prec emax (Zpos (digits2_pos q) + e))
                  = fexp prec emax (Zpos (digits2_pos q) + e)).
    { rewrite Hd. rewrite !fexp_b64. rewrite fexp_b64 in E. lia. }
    destruct (binary_round_aux_shape s (Pos.iter xO q d)
                (fexp prec emax (Zpos (digits2_pos q) + e)) loc_Exact)
      as [H|(m & e' & H & _)]; [lia | lia | now left | right; eauto].
Qed.

(** ** Binary64: the three operations of the divisor *)

Lemma valid_normal (s : bool) (m : positive) (e : Z) :
  valid_binary (S754_finite s m e) = true -> -1074 < e ->
  Zpos (digits2_pos m) = 53.
Proof.
  cbn [SpecFloat.valid_binary]. unfold SpecFloat.bounded, canonical_mantissa.
  rewrite fexp_b64. intros H He.
  apply andb_prop in H. destruct H as (H & _). apply Z.eqb_eq in H. lia.
Qed.

Lemma div_10_deep (x : float) :
  deep_sf (-100) (Prim2SF x) -> deep_sf (-104) (Prim2SF (x / 10)).
Proof.
  intros Hx. rewrite FloatAxioms.div_spec. unfold SF64div, SFdiv.
  change (Prim2SF 10) with (S754_finite false 5629499534213120 (-49)).
  pose proof (Prim2SF_valid x) as Hv.
  destruct Hx as [E|(m & e & E & He)]; rewrite E in *; [now left|].
  pose proof (valid_normal _ _ _ Hv ltac:(lia)) as Hd.
  unfold SFdiv_core_binary. cbn [Zdigits2]. rewrite Hd.
  change (Zpos (digits2_pos 5629499534213120)) with 53.
  rewrite fexp_b64.
  replace (Z.min (Z.max (53 + e - (53 + -49) - 53) (-1074)) (e - -49))
    with (e - 4) by lia.
  replace (e - -49 - (e - 4)) with 53 by lia.
  cbv iota. rewrite Z.shiftl_mul_pow2 by lia.
  destruct (digits2_pos_bounds m) as (Hlo & Hhi). rewrite Hd in Hlo, Hhi.
  pose proof (Z_div_mod (Zpos m * 2 ^ 53) 5629499534213120 eq_refl) as Hdiv.
  destruct (Z.div_eucl (Zpos m * 2 ^ 53) 5629499534213120) as [q r].
  destruct Hdiv as (Hq & Hr).
  change (2 ^ (53 - 1)) with 4503599627370496 in Hlo.
  change (2 ^ 53) with 9007199254740992 in *.
  assert (Hq1 : 2 ^ 52 <= q < 2 ^ 54).
  { change (2 ^ 52) with 4503599627370496. change (2 ^ 54) with 18014398509481984. lia. }
  destruct q as [|pq|pq]; [lia | | lia].
  assert (Hdq : 53 <= Zpos (digits2_pos pq) <= 54).
  { split; [apply digits2_pos_ge | apply digits2_pos_le]; lia. }
  cbn [xorb].
  destruct (binary_round_aux_shape false pq (e - 4)
              (new_location 5629499534213120 r))
    as [H|(m' & e' & H & He')].
  - rewrite fexp_b64. lia.
  - rewrite fexp_b64. lia.
  - left. exact H.
  - right. exists m', e'. split; [exact H|]. rewrite fexp_b64 in He'. lia.
Qed.

Lemma shl_align_fst (p : positive) (e e' : Z) :
  e' <= e -> Zpos (fst (shl_align p e e')) = Zpos p * 2 ^ (e - e').
Proof.
  intros H. unfold shl_align. destruct (e' - e) as [|d|d] eqn:E; cbn [fst].
  - replace (e - e') with 0 by lia. lia.
  - lia.
  - rewrite Zpos_iter_xO. f_equal. f_equal. lia.
Qed.

Lemma add_1_above (y : float) :
  deep_sf (-104) (Prim2SF y) -> above_one (Prim2SF (y + 1)).
Proof.
  intros Hy. rewrite FloatAxioms.add_spec. unfold SF64add, SFadd.
  change (Prim2SF 1) with (S754_finite false 4503599627370496 (-52)).
  pose proof (Prim2SF_valid y) as Hv.
  destruct Hy as [E|(m & e & E & He)]; rewrite E in *; [now left|].
  pose proof (valid_normal _ _ _ Hv ltac:(lia)) as Hd.
  destruct (digits2_pos_bounds m) as (Hlo & Hhi). rewrite Hd in Hlo, Hhi.
  change (2 ^ (53 - 1)) with 4503599627370496 in Hlo.
  change (2 ^ 53) with 9007199254740992 in Hhi.
  cbv zeta. unfold cond_Zopp.
  set (ez := Z.min e (-52)).
  pose proof (shl_align_fst m e ez ltac:(unfold ez; lia)) as Ha.
  pose proof (shl_align_fst 4503599627370496 (-52) ez ltac:(unfold ez; lia)) as Hb.
  set (a := fst (shl_align m e ez)) in *.
  set (b := fst (shl_align 4503599627370496 (-52) ez)) in *.
  cbn [Z.add binary_normalize].
  assert (HS : Zpos (a + b) = Zpos m * 2 ^ (e - ez) + 4503599627370496 * 2 ^ (-52 - ez))
    by lia.
  clearbody a b. clear Ha Hb.
  set (S := (a + b)%positive) in *.
  destruct (Z.le_gt_cases e (-52)) as [Hle|Hgt].
  - (* the sum has the exponent of [y] *)
    assert (Eez : ez = e) by (unfold ez; lia). rewrite Eez in *. clear Eez ez.
    rewrite Z.sub_diag, Z.mul_1_r in HS.
    set (k := -52 - e) in *.
    assert (HP1 : 0 < 2 ^ k) by (apply Z.pow_pos_nonneg; unfold k; lia).
    assert (HP2 : 2 ^ k <= 2 ^ 52) by (apply Z.pow_le_mono_r; unfold k; lia).
    change (2 ^ 52) with 4503599627370496 in HP2.
    assert (HdS : 53 + k <= Zpos (digits2_pos S) <= 54 + k).
    { split.
      - apply digits2_pos_ge. replace (53 + k - 1) with (52 + k) by lia.
        rewrite Z.pow_add_r by (unfold k; lia).
        change (2 ^ 52) with 4503599627370496. lia.
      - apply digits2_pos_le; [unfold k; lia|].
        rewrite Z.pow_add_r by (unfold k; lia).
        change (2 ^ 54) with 18014398509481984. lia. }
    pose proof (fexp_b64 (Zpos (digits2_pos S) + e)) as HE.
    rewrite binary_round_noshift by (unfold k in *; lia).
    destruct (binary_round_aux_shape false S e loc_Exact)
      as [H|(m' & e' & H & He')]; [unfold k in *; lia | unfold k in *; lia | now left |].
    right. exists m', e'. split; [exact H|]. split; [unfold k in *; lia|].
    intros He52. destruct He' as [(E' & Hm')|Hlt]; [|unfold k in *; lia].
    assert (Ek : fexp prec emax (Zpos (digits2_pos S) + e) - e = k)
      by (unfold k in *; lia).
    rewrite Ek in Hm'.
    assert (4503599627370496 + 1 <= Zpos S / 2 ^ k); [|change (2 ^ 52) with 4503599627370496; lia].
    apply Z.div_le_lower_bound; lia.
  - (* the sum has the exponent of 1 *)
    assert (Eez : ez = -52) by (unfold ez; lia). rewrite Eez in *. clear Eez ez.
    change (-52 - -52) with 0 in HS. rewrite Z.pow_0_r, Z.mul_1_r in HS.
    assert (HQ : 2 ^ 1 <= 2 ^ (e - -52)) by (apply Z.pow_le_mono_r; lia).
    change (2 ^ 1) with 2 in HQ.
    assert (HS1 : 2 ^ (54 - 1) <= Zpos S).
    { change (2 ^ (54 - 1)) with 9007199254740992. nia. }
    apply digits2_pos_ge in HS1.
    pose proof (fexp_b64 (Zpos (digits2_pos S) + -52)) as HE.
    rewrite binary_round_noshift by lia.
    destruct (binary_round_aux_shape false S (-52) loc_Exact)
      as [H|(m' & e' & H & He')]; [lia | lia | now left |].
    right. exists m', e'. split; [exact H|]. split; lia.
Qed.

Lemma sub_1_nonzero (z : float) :
  above_one (Prim2SF z) -> (1 - z =? 0)%float = false.
Proof.
  intros Hz. rewrite FloatAxioms.eqb_spec, FloatAxioms.sub_spec. unfold SF64sub, SFsub.
  change (Prim2SF 1) with (S754_finite false 4503599627370496 (-52)).
  change (Prim2SF 0) with (S754_zero false).
  pose proof (Prim2SF_valid z) as Hv.
  destruct Hz as [E|(m & e & E & He & Hm)]; rewrite E in *; [reflexivity|].
  pose proof (valid_normal _ _ _ Hv ltac:(lia)) as Hd.
  destruct (digits2_pos_bounds m) as (Hlo & _). rewrite Hd in Hlo.
  change (2 ^ (53 - 1)) with 4503599627370496 in Hlo.
  change (2 ^ 52) with 4503599627370496 in Hm.
  cbv zeta. unfold cond_Zopp.
  replace (Z.min (-52) e) with (-52) by lia.
  pose proof (shl_align_fst 4503599627370496 (-52) (-52) ltac:(lia)) as Ha.
  pose proof (shl_align_fst m e (-52) ltac:(lia)) as Hb.
  set (a := fst (shl_align 4503599627370496 (-52) (-52))) in *.
  set (b := fst (shl_align m e (-52))) in *.
  change (-52 - -52) with 0 in Ha. rewrite Z.pow_0_r, Z.mul_1_r in Ha.
  assert (Hneg : Zpos a - Zpos b < 0).
  { rewrite Ha, Hb. destruct (Z.eq_dec e (-52)) as [->|Hne].
    - change (-52 - -52) with 0. rewrite Z.pow_0_r. lia.
    - assert (HQ : 2 ^ 1 <= 2 ^ (e - -52)) by (apply Z.pow_le_mono_r; lia).
      change (2 ^ 1) with 2 in HQ. nia. }
  destruct (Zpos a - Zpos b) as [|q|q]; [lia | lia |].
  cbn [binary_normalize].
  destruct (binary_round_finite true q (-52) ltac:(lia)) as [H|(m' & e' & H)];
    rewrite H; reflexivity.
Qed.

(** From a number of exponent at least -100, that is from [2 ^ -48] up, the
    divisor [1 - ((x / 10) + 1)] is not zero. *)
Lemma divisor_nonzero (x : float) :
  deep_sf (-100) (Prim2SF x) -> (1 - ((x / 10) + 1) =? 0)%float = false.
Proof.
  intros H. now apply sub_1_nonzero, add_1_above, div_10_deep.
Qed.

(** ** The gradient-factor divisor in double precision: the claim *)

Lemma leb_deep (d : float) :
  (0x1p-48 <=? d)%float = true -> deep_sf (-100) (Prim2SF d).
Proof.
  rewrite FloatAxioms.leb_spec.
  change (Prim2SF 0x1p-48) with (S754_finite false 4503599627370496 (-100)).
  unfold SFleb, deep_sf. intros H.
  destruct (Prim2SF d) as [s|[|]| |[|] m e]; cbn [SFcompare] in H;
    try discriminate.
  - now left.
  - right. exists m, e. split; [reflexivity|].
    destruct (Z.compare_spec (-100) e); try lia; discriminate.
Qed.

(** One pass of the loop that finds the maximum depth. *)
Lemma p_max_step_number (acc d : float) :
  Prim2SF acc <> S754_nan ->
  Prim2SF (if (acc <? d)%float then d else acc) <> S754_nan.
Proof.
  intros H. rewrite FloatAxioms.ltb_spec. unfold SFltb.
  destruct (SFcompare (Prim2SF acc) (Prim2SF d)) as [[| |]|] eqn:E; try assumption.
  intros Hd. rewrite Hd in E. destruct (Prim2SF acc); discriminate.
Qed.

Lemma p_max_step_keeps (k : Z) (acc d : float) :
  deep_sf k (Prim2SF acc) ->
  deep_sf k (Prim2SF (if (acc <? d)%float then d else acc)).
Proof.
  intros H. rewrite FloatAxioms.ltb_spec. unfold SFltb.
  destruct (SFcompare (Prim2SF acc) (Prim2SF d)) as [[| |]|] eqn:E; try assumption.
  unfold deep_sf in *.
  destruct H as [Ha|(m & e & Ha & He)]; rewrite Ha in E; cbn [SFcompare] in E.
  - destruct (Prim2SF d) as [s|[|]| |[|] m e]; discriminate.
  - destruct (Prim2SF d) as [s|[|]| |[|] m' e']; try discriminate.
    + now left.
    + right. exists m', e'. split; [reflexivity|].
      destruct (Z.compare_spec e e'); try lia; discriminate.
Qed.

Lemma p_max_step_takes (k : Z) (acc d : float) :
  Prim2SF acc <> S754_nan -> deep_sf k (Prim2SF d) ->
  deep_sf k (Prim2SF (if (acc <? d)%float then d else acc)).
Proof.
  intros Hn H. rewrite FloatAxioms.ltb_spec. unfold SFltb.
  destruct (SFcompare (Prim2SF acc) (Prim2SF d)) as [[| |]|] eqn:E; try assumption.
  - unfold deep_sf in *.
    destruct H as [Hd|(m & e & Hd & He)]; rewrite Hd in E;
      destruct (Prim2SF acc) as [s|[|]| |[|] m' e']; cbn [SFcompare] in E;
      try discriminate.
    + now left.
    + destruct (Z.compare_spec e' e); try discriminate;
        right; exists m', e'; (split; [reflexivity | lia]).
  - unfold deep_sf in *.
    destruct H as [Hd|(m & e & Hd & He)]; rewrite Hd in E;
      destruct (Prim2SF acc) as [s|[|]| |[|] m' e']; cbn [SFcompare] in E;
      try discriminate.
    + now left.
    + destruct (Z.compare_spec e' e); try discriminate;
        right; exists m', e'; (split; [reflexivity | lia]).
  - exfalso. unfold deep_sf in H.
    destruct H as [Hd|(m & e & Hd & He)]; rewrite Hd in E;
      destruct (Prim2SF acc) as [s|[|]| |[|] m' e']; cbn [SFcompare] in E;
      try discriminate; congruence.
Qed.

(** The maximum found is at least [2 ^ -48] as soon as one depth is. *)
Lemma p_max_fold_deep (k : Z) (depths : list float) :
  forall acc,
    Prim2SF acc <> S754_nan ->
    deep_sf k (Prim2SF acc) \/ (exists d, In d depths /\ deep_sf k (Prim2SF d)) ->
    deep_sf k
      (Prim2SF
         (fold_left (fun p_max d => if (p_max <? d)%float then d else p_max)
            depths acc)).
Proof.
  induction depths as [|d depths IH]; intros acc Hn H; cbn [fold_left].
  - destruct H as [H|(d & [] & _)]. exact H.
  - apply IH; [now apply p_max_step_number|].
    destruct H as [H|(d' & [->|Hin] & Hd)].
    + left. now apply p_max_step_keeps.
    + left. now apply p_max_step_takes.
    + right. eauto.
Qed.

Lemma p_max_b64_deep (depths : list float) :
  (exists d, In d depths /\ (0x1p-48 <=? d)%float = true) ->
  deep_sf (-100) (Prim2SF (p_max_b64 depths)).
Proof.
  intros (d & Hin & Hd). unfold p_max_b64.
  apply p_max_fold_deep; [discriminate|].
  right. exists d. split; [exact Hin | now apply leb_deep].
Qed.

Lemma leb_0_not_ltb (d : float) :
  (d <=? 0)%float = true -> (0 <? d)%float = false.
Proof.
  rewrite FloatAxioms.leb_spec, FloatAxioms.ltb_spec.
  change (Prim2SF 0) with (S754_zero false). unfold SFleb, SFltb.
  destruct (Prim2SF d) as [s|[|]| |[|] m e]; cbn [SFcompare];
    intros H; try discriminate; reflexivity.
Qed.

(** With no depth above 0 the maximum stays at its initial 0. *)
Lemma p_max_b64_surface (depths : list float) :
  (forall d, In d depths -> (d <=? 0)%float = true) ->
  p_max_b64 depths = 0%float.
Proof.
  unfold p_max_b64. induction depths as [|d depths IH]; intros H; cbn [fold_left].
  - reflexivity.
  - rewrite leb_0_not_ltb by (apply H; now left).
    apply IH. intros d' Hin. apply H. now right.
Qed.

(** C10, as amended.  When some realized waypoint is at least [2 ^ -48] m
    deep (about 3.6e-15 m), the divisor of the gradient-factor slope,
    computed in double precision as the program computes it, is not zero
    and the slope is defined; when no waypoint is below the surface the
    divisor is zero and the unguarded division raises.  Of a positive
    depth below [2 ^ -48] m nothing is claimed: the addition
    [(p_max / 10) + 1] can absorb it. *)
Theorem C10_gradient_factor_divisor (depths : list float)
    (gf_high gf_low : float) :
  ((exists d, In d depths /\ (0x1p-48 <=? d)%float = true) ->
     (gf_divisor_b64 depths =? 0)%float = false
     /\ exists gf, gf_slope_b64 gf_high gf_low depths = Ok gf)
  /\ ((forall d, In d depths -> (d <=? 0)%float = true) ->
      gf_divisor_b64 depths = 0%float
      /\ gf_slope_b64 gf_high gf_low depths = Raise ZeroDivisionError).
Proof.
  split.
  - intros H. apply p_max_b64_deep, divisor_nonzero in H.
    split; [exact H|]. unfold gf_slope_b64, gf_divisor_b64. cbv zeta.
    rewrite H. eauto.
  - intros H. apply p_max_b64_surface in H.
    unfold gf_slope_b64, gf_divisor_b64. rewrite H. split; reflexivity.
Qed.

Lemma C10_gradient_factor_divisor_witness :
  ((gf_divisor_b64 [0; 30; 30]%float =? 0)%float = false
   /\ exists gf, gf_slope_b64 0.75 0.3 [0; 30; 30]%float = Ok gf)
  /\ (gf_divisor_b64 [0; 0]%float = 0%float
      /\ gf_slope_b64 0.75 0.3 [0; 0]%float = Raise ZeroDivisionError).
Proof.
  split.
  - apply (C10_gradient_factor_divisor [0; 30; 30]%float 0.75 0.3).
    exists 30%float. split; [right; now left | reflexivity].
  - apply (C10_gradient_factor_divisor [0; 0]%float 0.75 0.3).
    intros d [<-|[<-|[]]]; reflexivity.
Defined.

(** The claim as stated fails: a waypoint at 1e-16 m is below the surface,
    and the divisor is exactly zero, so the slope raises. *)
Lemma C10_counterexample :
  (exists d, In d grazing_depths /\ (0 <? d)%float = true)
  /\ gf_divisor_b64 grazing_depths = 0%float
  /\ gf_slope_b64 0.75 0.3 grazing_depths = Raise ZeroDivisionError.
Proof.
  split; [|split; reflexivity].
  exists 1e-16%float. split; [right; now left | reflexivity].
Qed.

(** Where the absorption ends: 1.1e-15 m is still lost, 1.2e-15 m is not. *)
Lemma gf_divisor_b64_threshold :
  gf_divisor_b64 [1.1e-15]%float = 0%float
  /\ (gf_divisor_b64 [1.2e-15]%float =? 0)%float = false
  /\ gf_divisor_b64 [30]%float = (-3)%float.
Proof. repeat split; reflexivity. Qed.

End Binary64.
